(** * Gesture pipeline of the memory gallery: model and properties

    A shallow embedding of the bimanual gesture interpretation and virtual
    input injection code of the gallery application: the [EMA] class,
    [lerp] and [distance3D] of utils.ts, and the frame loop of the [App]
    component ([predictWebcam], [resetDrag], [processLeftHand],
    [processRightHand], [handleCursorInteraction]).

    Conventions of the model.
    - JavaScript numbers are real numbers: the rounding of IEEE doubles is
      idealised away, arithmetic and comparisons are exact.  The one
      exception is the fireworks particles, which live or die by the sign
      of a long sum of rounded terms: there every operation is rounded.
    - React state ([mode], [scrollOffset], [cursor]) is written through
      functional updaters, which React applies in the order they were
      queued; refs are mutated in place.  Both are fields of one [State]
      record that every operation takes and returns.
    - The document is seen through what the code does to it: the events
      it dispatches are appended to a log, and the [scrollTop] of the
      scroll container is a number (the clamping a browser applies to it
      is not modelled).  What the code reads from its surroundings (the
      clock, the viewport size, the hit test) is an [Env], fixed during a
      frame.
    - Sound playback has no effect on any of this and is left out.

    Beside the gesture pipeline the development covers the gallery items
    of the [App] component (month filter, slot count, upload, clear, the
    focused item), the layout helpers of the 3D scene and the fireworks
    particles. *)

From Stdlib Require Import Reals Lra List Bool Arith Lia.
From Stdlib Require Import ZArith.
Import ListNotations.

Open Scope R_scope.

(** ** Numbers *)

Definition Rltb (a b : R) : bool := if Rlt_dec a b then true else false.
Definition Rgtb (a b : R) : bool := Rltb b a.

(** [lerp] of utils.ts. *)
Definition lerp (start end_ t : R) : R := start * (1 - t) + end_ * t.

(** ** Signal smoother: class [EMA] of utils.ts *)

Record EMA : Type := mkEMA { alpha : R; value : option R }.

(** [new EMA(alpha)] *)
Definition EMA_new (a : R) : EMA := mkEMA a None.

(** [update(newValue)]: the instance after the call and the returned number. *)
Definition EMA_update (e : EMA) (newValue : R) : EMA * R :=
  match value e with
  | None => (mkEMA (alpha e) (Some newValue), newValue)
  | Some v =>
      let v' := alpha e * newValue + (1 - alpha e) * v in
      (mkEMA (alpha e) (Some v'), v')
  end.

(** [reset()] *)
Definition EMA_reset (e : EMA) : EMA := mkEMA (alpha e) None.

(** The instance and the last output after feeding the constant [c] for
    [n] more calls of [update], starting from instance [e]. *)
Fixpoint EMA_feed (e : EMA) (c : R) (n : nat) : EMA :=
  match n with
  | O => e
  | S k => EMA_feed (fst (EMA_update e c)) c k
  end.

(** Output of the [n]-th update (counted from 0) of a constant stream. *)
Definition EMA_out (e : EMA) (c : R) (n : nat) : R :=
  snd (EMA_update (EMA_feed e c n) c).

(** ** Geometric primitives *)

(** A landmark of the detector: a point of normalised image space. *)
Record Landmark : Type := mkLandmark { x : R; y : R; z : R }.

(** [distance3D] of utils.ts. *)
Definition distance3D (p1 p2 : Landmark) : R :=
  sqrt ((x p1 - x p2) ^ 2 + (y p1 - y p2) ^ 2 + (z p1 - z p2) ^ 2).

(** ** Data model *)

Inductive AppMode : Type := BROWSE | FOCUS | AGGREGATE.

Definition AppMode_eqb (a b : AppMode) : bool :=
  match a, b with
  | BROWSE, BROWSE | FOCUS, FOCUS | AGGREGATE, AGGREGATE => true
  | _, _ => false
  end.

Record CursorState : Type := mkCursor {
  cur_x : R;
  cur_y : R;
  active : bool;
  clicking : bool;
  lastClickTime : R
}.

(** The label [results.handedness[i][0].categoryName] of a detected hand. *)
Inductive Handedness : Type := Left | Right.

(** One detected hand.  The detector delivers 21 landmarks per hand; the
    code reads the constant indices 0, 4, 6, 8, 9, 10, 12, 14, 16, 18, 20. *)
Record Hand : Type := mkHand {
  handedness : Handedness;
  landmarks : list Landmark
}.

Definition wf_hand (h : Hand) : Prop := length (landmarks h) = 21%nat.

(** [landmarks[i]]; the default is never reached on a hand of 21 landmarks. *)
Definition lm (l : list Landmark) (i : nat) : Landmark :=
  nth i l (mkLandmark 0 0 0).

(** DOM elements are compared by identity only. *)
Definition Element : Type := nat.

Definition Element_opt_eqb (a b : option Element) : bool :=
  match a, b with
  | Some e1, Some e2 => Nat.eqb e1 e2
  | None, None => true
  | _, _ => false
  end.

Inductive EventType : Type :=
  | mouseout | pointerout | mouseover | pointerover | pointermove
  | pointerdown | mousedown | pointerup | mouseup | click.

(** A synthetic event handed to [dispatchEvent]: its target, its type and
    the fields of its init dictionary that vary ([clientX]/[clientY] when
    given, [isPrimary]); every event of the code bubbles. *)
Record DomEvent : Type := mkEvent {
  evTarget : Element;
  evType : EventType;
  evClient : option (R * R);
  evPrimary : bool
}.

(** What a frame reads from its surroundings: the clock ([Date.now()],
    one reading per frame), the viewport, the hit test
    [document.elementFromPoint], the element with id
    [month-scroll-container] if any, and [Node.contains]. *)
Record Env : Type := mkEnv {
  now : R;
  innerWidth : R;
  innerHeight : R;
  elementFromPoint : R -> R -> option Element;
  scrollContainer : option Element;
  contains : Element -> Element -> bool
}.

(** The React state and the refs of the [App] component, with the part
    of the document the code writes: the [scrollTop] of the scroll
    container and the events dispatched so far, oldest first. *)
Record State : Type := mkState {
  mode : AppMode;
  scrollOffset : R;
  cursor : CursorState;
  lastLeftHandTime : R;
  leftHandX_EMA : EMA;
  leftPinchSmoother : EMA;
  leftOpenPalmSmoother : EMA;
  cursorX_EMA : EMA;
  cursorY_EMA : EMA;
  isPinchingRef : bool;
  anchorPos : option (R * R);
  lastCursorPos : R * R;
  isDraggingUI : bool;
  dragTarget : option Element;
  lastHoveredElement : option Element;
  scrollTop : R;
  dispatched : list DomEvent
}.

Definition PINCH_THRESHOLD_ON : R := 0.04.
Definition PINCH_THRESHOLD_OFF : R := 0.055.
Definition CURSOR_SMOOTHING : R := 0.5.
Definition ANCHOR_STRENGTH : R := 0.95.

(** The component as first rendered. *)
Definition initialState : State :=
  {| mode := AGGREGATE;
     scrollOffset := 0;
     cursor := mkCursor 0 0 false false 0;
     lastLeftHandTime := 0;
     leftHandX_EMA := EMA_new 0.1;
     leftPinchSmoother := EMA_new 0.2;
     leftOpenPalmSmoother := EMA_new 0.2;
     cursorX_EMA := EMA_new CURSOR_SMOOTHING;
     cursorY_EMA := EMA_new CURSOR_SMOOTHING;
     isPinchingRef := false;
     anchorPos := None;
     lastCursorPos := (0, 0);
     isDraggingUI := false;
     dragTarget := None;
     lastHoveredElement := None;
     scrollTop := 0;
     dispatched := [] |}.

(** *** Field updates *)

Definition set_mode (m : AppMode) (s : State) : State :=
  mkState m (scrollOffset s) (cursor s) (lastLeftHandTime s)
    (leftHandX_EMA s) (leftPinchSmoother s) (leftOpenPalmSmoother s)
    (cursorX_EMA s) (cursorY_EMA s) (isPinchingRef s) (anchorPos s)
    (lastCursorPos s) (isDraggingUI s) (dragTarget s)
    (lastHoveredElement s) (scrollTop s) (dispatched s).

Definition set_cursor (c : CursorState) (s : State) : State :=
  mkState (mode s) (scrollOffset s) c (lastLeftHandTime s)
    (leftHandX_EMA s) (leftPinchSmoother s) (leftOpenPalmSmoother s)
    (cursorX_EMA s) (cursorY_EMA s) (isPinchingRef s) (anchorPos s)
    (lastCursorPos s) (isDraggingUI s) (dragTarget s)
    (lastHoveredElement s) (scrollTop s) (dispatched s).

Definition set_lastLeftHandTime (t : R) (s : State) : State :=
  mkState (mode s) (scrollOffset s) (cursor s) t
    (leftHandX_EMA s) (leftPinchSmoother s) (leftOpenPalmSmoother s)
    (cursorX_EMA s) (cursorY_EMA s) (isPinchingRef s) (anchorPos s)
    (lastCursorPos s) (isDraggingUI s) (dragTarget s)
    (lastHoveredElement s) (scrollTop s) (dispatched s).

(** [isDraggingUI.current = b; dragTarget.current = t] *)
Definition set_drag (b : bool) (t : option Element) (s : State) : State :=
  mkState (mode s) (scrollOffset s) (cursor s) (lastLeftHandTime s)
    (leftHandX_EMA s) (leftPinchSmoother s) (leftOpenPalmSmoother s)
    (cursorX_EMA s) (cursorY_EMA s) (isPinchingRef s) (anchorPos s)
    (lastCursorPos s) b t
    (lastHoveredElement s) (scrollTop s) (dispatched s).

Definition set_lastHoveredElement (h : option Element) (s : State) : State :=
  mkState (mode s) (scrollOffset s) (cursor s) (lastLeftHandTime s)
    (leftHandX_EMA s) (leftPinchSmoother s) (leftOpenPalmSmoother s)
    (cursorX_EMA s) (cursorY_EMA s) (isPinchingRef s) (anchorPos s)
    (lastCursorPos s) (isDraggingUI s) (dragTarget s)
    h (scrollTop s) (dispatched s).

Definition set_scrollTop (v : R) (s : State) : State :=
  mkState (mode s) (scrollOffset s) (cursor s) (lastLeftHandTime s)
    (leftHandX_EMA s) (leftPinchSmoother s) (leftOpenPalmSmoother s)
    (cursorX_EMA s) (cursorY_EMA s) (isPinchingRef s) (anchorPos s)
    (lastCursorPos s) (isDraggingUI s) (dragTarget s)
    (lastHoveredElement s) v (dispatched s).

(** The five fields the left-hand step writes, set together. *)
Definition set_left (m : AppMode) (so : R) (hx p o : EMA) (s : State)
    : State :=
  mkState m so (cursor s) (lastLeftHandTime s) hx p o
    (cursorX_EMA s) (cursorY_EMA s) (isPinchingRef s) (anchorPos s)
    (lastCursorPos s) (isDraggingUI s) (dragTarget s)
    (lastHoveredElement s) (scrollTop s) (dispatched s).

(** [target.dispatchEvent(ev)]: the event joins the log. *)
Definition dispatchEvent (ev : DomEvent) (s : State) : State :=
  mkState (mode s) (scrollOffset s) (cursor s) (lastLeftHandTime s)
    (leftHandX_EMA s) (leftPinchSmoother s) (leftOpenPalmSmoother s)
    (cursorX_EMA s) (cursorY_EMA s) (isPinchingRef s) (anchorPos s)
    (lastCursorPos s) (isDraggingUI s) (dragTarget s)
    (lastHoveredElement s) (scrollTop s) (dispatched s ++ [ev]).

(** ** Frame loop: [resetDrag] *)

Definition resetDrag (s : State) : State :=
  match isDraggingUI s, dragTarget s with
  | true, Some t =>
      set_drag false None (dispatchEvent (mkEvent t pointerup None false) s)
  | _, _ => s
  end.

(** ** Left hand: mode and scroll *)

(** The updater handed to the first [setMode] of [processLeftHand]. *)
Definition nextMode (isPinchActive : bool) (pinchVal : R)
    (isOpenActive : bool) (currentMode : AppMode) : AppMode :=
  if isPinchActive then FOCUS
  else if AppMode_eqb currentMode FOCUS && Rltb pinchVal 0.4 then
    (if isOpenActive then BROWSE else AGGREGATE)
  else if isOpenActive then BROWSE
  else AGGREGATE.

Definition tips : list nat := [8; 12; 16; 20]%nat.
Definition pips : list nat := [6; 10; 14; 18]%nat.

(** The loop counting extended fingers. *)
Definition extendedCount (l : list Landmark) : nat :=
  let wrist := lm l 0 in
  fold_left
    (fun (count : nat) (i : nat) =>
       let dTip := distance3D wrist (lm l (nth i tips O)) in
       let dPip := distance3D wrist (lm l (nth i pips O)) in
       if Rgtb dTip (dPip * 1.1) then S count else count)
    (seq 0 (length tips)) O.

Definition processLeftHand (s : State) (l : list Landmark) : State :=
  if isDraggingUI s then s
  else
    let thumbTip := lm l 4 in
    let indexTip := lm l 8 in
    let middleMCP := lm l 9 in
    let pinchDist := distance3D thumbTip indexTip in
    let isPinchingRaw := if Rltb pinchDist 0.05 then 1 else 0 in
    let pinch := EMA_update (leftPinchSmoother s) isPinchingRaw in
    let pinchVal := snd pinch in
    let isPinchActive := Rgtb pinchVal 0.6 in
    let isOpenRaw := if (3 <=? extendedCount l)%nat then 1 else 0 in
    let open := EMA_update (leftOpenPalmSmoother s) isOpenRaw in
    let openVal := snd open in
    let isOpenActive := Rgtb openVal 0.6 in
    let mode1 := nextMode isPinchActive pinchVal isOpenActive (mode s) in
    let screenX := 1 - x middleMCP in
    let hx := EMA_update (leftHandX_EMA s) screenX in
    let smoothedX := snd hx in
    let scroll1 :=
      if AppMode_eqb mode1 BROWSE
      then scrollOffset s + (smoothedX - 0.5) * 0.15
      else scrollOffset s in
    mkState mode1 scroll1 (cursor s) (lastLeftHandTime s)
      (fst hx) (fst pinch) (fst open)
      (cursorX_EMA s) (cursorY_EMA s) (isPinchingRef s) (anchorPos s)
      (lastCursorPos s) (isDraggingUI s) (dragTarget s)
      (lastHoveredElement s) (scrollTop s) (dispatched s).

(** ** Virtual input dispatcher *)

(** First half of [handleCursorInteraction]: the hover simulation and
    the move event to the element under the cursor. *)
Definition hoverSimulation (env : Env) (px py : R) (s : State) : State :=
  let element := elementFromPoint env px py in
  let s1 :=
    if Element_opt_eqb element (lastHoveredElement s) then s
    else
      (* leave old *)
      let sa :=
        match lastHoveredElement s with
        | Some old =>
            dispatchEvent (mkEvent old pointerout None false)
              (dispatchEvent (mkEvent old mouseout None false) s)
        | None => s
        end in
      (* enter new *)
      let sb :=
        match element with
        | Some e =>
            dispatchEvent (mkEvent e pointerover None false)
              (dispatchEvent (mkEvent e mouseover None false) sa)
        | None => sa
        end in
      set_lastHoveredElement element sb in
  (* move *)
  match element with
  | Some e => dispatchEvent (mkEvent e pointermove (Some (px, py)) false) s1
  | None => s1
  end.

Definition handleCursorInteraction (env : Env) (px py deltaY : R)
    (isDown wasDown : bool) (s : State) : State :=
  let element := elementFromPoint env px py in
  let s2 := hoverSimulation env px py s in
  (* click and drag *)
  if isDown && negb wasDown then
    (* rising edge *)
    match element with
    | Some e =>
        dispatchEvent (mkEvent e mousedown (Some (px, py)) false)
          (dispatchEvent (mkEvent e pointerdown (Some (px, py)) true)
             (set_drag true (Some e) s2))
    | None => s2
    end
  else
    match dragTarget s2 with
    | Some t =>
        if isDown && wasDown && isDraggingUI s2 then
          (* holding *)
          let s3 :=
            match scrollContainer env with
            | Some c =>
                if Nat.eqb c t || contains env c t
                then set_scrollTop (scrollTop s2 - deltaY) s2
                else s2
            | None => s2
            end in
          dispatchEvent (mkEvent t pointermove (Some (px, py)) true) s3
        else if negb isDown && wasDown && isDraggingUI s2 then
          (* falling edge *)
          set_drag false None
            (dispatchEvent (mkEvent t click (Some (px, py)) false)
               (dispatchEvent (mkEvent t mouseup (Some (px, py)) false)
                  (dispatchEvent (mkEvent t pointerup (Some (px, py)) true)
                     s2)))
        else s2
    | None => s2
    end.

(** ** Right hand: the virtual pointer *)

Definition processRightHand (env : Env) (s : State) (l : list Landmark)
    : State :=
  let indexTip := lm l 8 in
  let thumbTip := lm l 4 in
  (* 1. smoothing *)
  let rawX := (1 - x indexTip) * innerWidth env in
  let rawY := y indexTip * innerHeight env in
  let ex := EMA_update (cursorX_EMA s) rawX in
  let ey := EMA_update (cursorY_EMA s) rawY in
  let smoothX := snd ex in
  let smoothY := snd ey in
  (* 2. pinch detection with hysteresis *)
  let pinchDist := distance3D thumbTip indexTip in
  let wasPinching := isPinchingRef s in
  let isPinchingNow :=
    if Rltb pinchDist PINCH_THRESHOLD_ON then true
    else if Rgtb pinchDist PINCH_THRESHOLD_OFF then false
    else wasPinching in
  (* 3. anchor *)
  let anchor1 :=
    if isPinchingNow && negb wasPinching then Some (smoothX, smoothY)
    else anchorPos s in
  let blended :=
    match (if isPinchingNow then anchor1 else None) with
    | Some a =>
        ((lerp (fst a) smoothX (1 - ANCHOR_STRENGTH),
          lerp (snd a) smoothY (1 - ANCHOR_STRENGTH)), anchor1)
    | None =>
        ((smoothX, smoothY),
         if negb isPinchingNow && wasPinching then None else anchor1)
    end in
  let outputX := fst (fst blended) in
  let outputY := snd (fst blended) in
  let anchor2 := snd blended in
  let deltaY := outputY - snd (lastCursorPos s) in
  let cursor1 :=
    mkCursor outputX outputY true isPinchingNow
      (if isPinchingNow && negb wasPinching then now env
       else lastClickTime (cursor s)) in
  (* 4. dispatch *)
  handleCursorInteraction env outputX outputY deltaY isPinchingNow wasPinching
    (mkState (mode s) (scrollOffset s) cursor1 (lastLeftHandTime s)
       (leftHandX_EMA s) (leftPinchSmoother s) (leftOpenPalmSmoother s)
       (fst ex) (fst ey) isPinchingNow anchor2
       (outputX, outputY) (isDraggingUI s) (dragTarget s)
       (lastHoveredElement s) (scrollTop s) (dispatched s)).

(** ** Frame loop driver: [predictWebcam] *)

Definition isLeft (h : Hand) : bool :=
  match handedness h with Left => true | Right => false end.

Definition isRight (h : Hand) : bool :=
  match handedness h with Right => true | Left => false end.

(** Body of the loop over the detected hands. *)
Definition processHand (env : Env) (s : State) (h : Hand) : State :=
  match handedness h with
  | Left => processLeftHand s (landmarks h)
  | Right => processRightHand env s (landmarks h)
  end.

(** One run of the frame callback on the detector's answer: [None] when
    no detection took place ([results] undefined), else the hands in the
    order the detector lists them. *)
Definition predictWebcam (env : Env) (results : option (list Hand))
    (s : State) : State :=
  match results with
  | Some (h :: hs) =>
      let hands := h :: hs in
      let s1 := fold_left (processHand env) hands s in
      let leftHandFound := existsb isLeft hands in
      let rightHandFound := existsb isRight hands in
      let s2 := if leftHandFound then set_lastLeftHandTime (now env) s1
                else s1 in
      let s3 :=
        if negb leftHandFound && Rgtb (now env - lastLeftHandTime s2) 500
        then set_mode AGGREGATE s2 else s2 in
      if negb rightHandFound then
        resetDrag
          (set_cursor
             (mkCursor (cur_x (cursor s3)) (cur_y (cursor s3)) false false
                (lastClickTime (cursor s3))) s3)
      else s3
  | _ =>
      let s1 :=
        if Rgtb (now env - lastLeftHandTime s) 500
        then set_mode AGGREGATE s else s in
      resetDrag
        (set_cursor
           (mkCursor (cur_x (cursor s1)) (cur_y (cursor s1)) false
              (clicking (cursor s1)) (lastClickTime (cursor s1))) s1)
  end.

(** A run of the loop over successive frames. *)
Fixpoint runFrames (fs : list (Env * option (list Hand))) (s : State)
    : State :=
  match fs with
  | [] => s
  | (env, results) :: rest => runFrames rest (predictWebcam env results s)
  end.

(** ** Vocabulary of the statements *)

(** Thumb tip to index tip distance of a hand, as both classifiers
    compute it. *)
Definition pinchDistance (h : Hand) : R :=
  distance3D (lm (landmarks h) 4) (lm (landmarks h) 8).

(** The Right-labelled hands of a detector answer. *)
Definition rightHands (results : option (list Hand)) : list Hand :=
  match results with
  | Some hs => filter isRight hs
  | None => []
  end.

(** The Left-labelled hands of a detector answer. *)
Definition leftHands (results : option (list Hand)) : list Hand :=
  match results with
  | Some hs => filter isLeft hs
  | None => []
  end.

(** The smoothed pointer position of a Right-hand step: what the two
    cursor smoothers return on the mirrored index tip. *)
Definition smoothedPos (env : Env) (s : State) (l : list Landmark) : R * R :=
  (snd (EMA_update (cursorX_EMA s) ((1 - x (lm l 8)) * innerWidth env)),
   snd (EMA_update (cursorY_EMA s) (y (lm l 8) * innerHeight env))).

(** The position a step reported in the cursor state. *)
Definition cursorPos (s : State) : R * R :=
  (cur_x (cursor s), cur_y (cursor s)).

(** The events a step added to the log. *)
Definition dispatchedSince (s s' : State) : list DomEvent :=
  skipn (length (dispatched s)) (dispatched s').

(** Events of the hover simulation: never primary, and of the hover
    types only. *)
Definition isHoverEvent (ev : DomEvent) : bool :=
  negb (evPrimary ev) &&
  match evType ev with
  | mouseout | pointerout | mouseover | pointerover | pointermove => true
  | _ => false
  end.

(** The events the hover simulation dispatches at a position. *)
Definition hoverEvents (env : Env) (px py : R) (s : State) : list DomEvent :=
  dispatchedSince s (hoverSimulation env px py s).

(** A press event: [pointerdown] or [mousedown]. *)
Definition isPressEvent (ev : DomEvent) : bool :=
  match evType ev with
  | pointerdown | mousedown => true
  | _ => false
  end.

(** A pinch rising edge occurs in a frame: some Right hand of the
    detector's answer is processed from a state that is not pinching
    and leaves it pinching. *)
Definition risingEdgeIn (env : Env) (results : option (list Hand))
    (s : State) : Prop :=
  exists pre h post,
    results = Some (pre ++ h :: post) /\
    isRight h = true /\
    isPinchingRef (fold_left (processHand env) pre s) = false /\
    isPinchingRef (processHand env (fold_left (processHand env) pre s) h)
    = true.

(** ** Sample inputs *)

(** A hand of 21 landmarks, all at [(px, py, 0)] except the thumb tip,
    which sits at distance [d] along the horizontal axis. *)
Definition pinchHand (side : Handedness) (px py d : R) : Hand :=
  mkHand side
    (repeat (mkLandmark px py 0) 4
       ++ mkLandmark (px + d) py 0 :: repeat (mkLandmark px py 0) 16).

(** A document in which every point hits element [e]. *)
Definition envAt (t : R) (e : option Element) : Env :=
  mkEnv t 1000 1000 (fun _ _ => e) None (fun _ _ => false).

(** What the left-hand classifier holds between frames, outside a drag:
    the mode, the smoothed pinch value [pv] and a smoothed open-palm
    value of 0. *)
Definition leftHolds (s : State) (m : AppMode) (pv : R) : Prop :=
  mode s = m /\
  leftPinchSmoother s = mkEMA 0.2 (Some pv) /\
  leftOpenPalmSmoother s = mkEMA 0.2 (Some 0) /\
  isDraggingUI s = false.

(** * More of the code *)

(** ** Math helpers of utils.ts *)

(** [clamp]: [Math.max(min, Math.min(max, val))]. *)
Definition clamp (val min max : R) : R := Rmax min (Rmin max val).

(** The smoother fed a list of inputs, one [update] each: the instance
    at the end and the outputs in order. *)
Fixpoint EMA_run (e : EMA) (inputs : list R) : EMA * list R :=
  match inputs with
  | [] => (e, [])
  | u :: rest =>
      let r := EMA_update e u in
      let rr := EMA_run (fst r) rest in
      (fst rr, snd r :: snd rr)
  end.

(** ** Counting dispatched events *)

Definition EventType_eqb (a b : EventType) : bool :=
  match a, b with
  | mouseout, mouseout | pointerout, pointerout | mouseover, mouseover
  | pointerover, pointerover | pointermove, pointermove
  | pointerdown, pointerdown | mousedown, mousedown
  | pointerup, pointerup | mouseup, mouseup | click, click => true
  | _, _ => false
  end.

(** Number of events of a type in a log. *)
Definition countEvents (t : EventType) (log : list DomEvent) : nat :=
  length (filter (fun ev => EventType_eqb (evType ev) t) log).

(** The drag session as the dispatcher keeps it: flag and target are set
    together, a drag is open only while the pinch state is held, and the
    presses and releases dispatched so far are in balance. *)
Definition dragInvariant (s : State) : Prop :=
  ((isDraggingUI s = true /\ exists t, dragTarget s = Some t) \/
   (isDraggingUI s = false /\ dragTarget s = None)) /\
  (isDraggingUI s = true -> isPinchingRef s = true) /\
  countEvents pointerdown (dispatched s)
  = (countEvents pointerup (dispatched s)
     + if isDraggingUI s then 1 else 0)%nat /\
  countEvents mousedown (dispatched s)
  = countEvents pointerdown (dispatched s) /\
  countEvents mouseup (dispatched s) = countEvents click (dispatched s) /\
  (countEvents click (dispatched s)
   <= countEvents pointerup (dispatched s))%nat.

(** An enter or leave event of the hover simulation. *)
Definition isEnterLeaveEvent (ev : DomEvent) : bool :=
  match evType ev with
  | mouseout | pointerout | mouseover | pointerover => true
  | _ => false
  end.

(** The virtual pointer lies inside a viewport of width [W] and height
    [H]: the stored smoothed position, the anchor and the reported
    position are all inside, and the two smoothers have the coefficient
    they were built with. *)
Definition pointerInViewport (W H : R) (s : State) : Prop :=
  alpha (cursorX_EMA s) = CURSOR_SMOOTHING /\
  alpha (cursorY_EMA s) = CURSOR_SMOOTHING /\
  (forall v, value (cursorX_EMA s) = Some v -> 0 <= v <= W) /\
  (forall v, value (cursorY_EMA s) = Some v -> 0 <= v <= H) /\
  (forall a, anchorPos s = Some a -> 0 <= fst a <= W /\ 0 <= snd a <= H) /\
  0 <= cur_x (cursor s) <= W /\ 0 <= cur_y (cursor s) <= H.

(** The index tip of a hand lies inside the image. *)
Definition indexTipInImage (h : Hand) : Prop :=
  0 <= x (lm (landmarks h) 8) <= 1 /\ 0 <= y (lm (landmarks h) 8) <= 1.

(** ** The gallery items of the [App] component *)

Inductive MediaType : Type := IMAGE | VIDEO | EMPTY.

Definition MediaType_eqb (a b : MediaType) : bool :=
  match a, b with
  | IMAGE, IMAGE | VIDEO, VIDEO | EMPTY, EMPTY => true
  | _, _ => false
  end.

(** [MONTHS] of the types file. *)
Inductive Month : Type :=
  | ALL | JAN | FEB | MAR | APR | MAY | JUN | JUL | AUG | SEP | OCT | NOV
  | DEC.

Definition Month_eqb (a b : Month) : bool :=
  match a, b with
  | ALL, ALL | JAN, JAN | FEB, FEB | MAR, MAR | APR, APR | MAY, MAY
  | JUN, JUN | JUL, JUL | AUG, AUG | SEP, SEP | OCT, OCT | NOV, NOV
  | DEC, DEC => true
  | _, _ => false
  end.

(** The id string [slot-<Date.now()>-<i>] of a slot, kept as its two
    numbers: the only ids the program ever makes have this form. *)
Record ItemId : Type := mkItemId { stamp : R; slot : nat }.

(** Handles of objects the gallery only passes around: an object URL, a
    texture, a video element. *)
Definition ObjectUrl : Type := nat.
Definition Texture : Type := nat.
Definition VideoElement : Type := nat.

Record PictureItem : Type := mkItem {
  itemId : ItemId;
  itemType : MediaType;
  url : option ObjectUrl;
  month : option Month;
  aspectRatio : R;
  texture : option Texture;
  videoElement : option VideoElement
}.

(** [filteredItems]: the items shown for the selected month. *)
Definition filteredItems (items : list PictureItem) (selectedMonth : Month)
    : list PictureItem :=
  if Month_eqb selectedMonth ALL then items
  else
    map (fun item =>
           if MediaType_eqb (itemType item) EMPTY then item
           else
             match month item with
             | Some m =>
                 if negb (Month_eqb m selectedMonth)
                 then mkItem (itemId item) EMPTY (url item) (month item)
                        (aspectRatio item) None (videoElement item)
                 else item
             | None => item
             end)
        items.

(** The slot created for index [i] at time [t]. *)
Definition emptySlot (t : R) (i : nat) : PictureItem :=
  mkItem (mkItemId t i) EMPTY None (Some ALL) 1 None None.

(** The effect on [settings.slotCount]: the new list of [slotCount]
    items, old items kept by index, missing ones created. *)
Definition resizeSlots (t : R) (slotCount : nat) (items : list PictureItem)
    : list PictureItem :=
  firstn slotCount
    (fold_left
       (fun newItems i =>
          match nth_error items i with
          | Some item => newItems ++ [item]
          | None => newItems ++ [emptySlot t i]
          end)
       (seq 0 slotCount) []).

(** An uploaded file: whether its type starts with [video], and the
    object URL made for it. *)
Record File : Type := mkFile { fileIsVideo : bool; fileUrl : ObjectUrl }.

(** The slot after a file was put in it. *)
Definition fillSlot (item : PictureItem) (file : File)
    (selectedMonth : Month) : PictureItem :=
  mkItem (itemId item) (if fileIsVideo file then VIDEO else IMAGE)
    (Some (fileUrl file)) (Some selectedMonth) 1
    (texture item) (videoElement item).

(** The updater of [handleMediaUpload]: the loop runs over the items
    while files remain and puts the next file in every EMPTY slot it
    meets.  The textures, which arrive later from load callbacks, are
    not part of it. *)
Fixpoint handleMediaUpload (items : list PictureItem) (files : list File)
    (selectedMonth : Month) : list PictureItem :=
  match items with
  | [] => []
  | item :: rest =>
      match files with
      | [] => item :: rest
      | file :: more =>
          if MediaType_eqb (itemType item) EMPTY
          then fillSlot item file selectedMonth
                 :: handleMediaUpload rest more selectedMonth
          else item :: handleMediaUpload rest files selectedMonth
      end
  end.

(** [handleClearMedia]. *)
Definition handleClearMedia (items : list PictureItem) : list PictureItem :=
  map (fun item => mkItem (itemId item) EMPTY None (Some ALL) 1 None None)
    items.

(** Number of EMPTY slots. *)
Definition countEmpty (items : list PictureItem) : nat :=
  length (filter (fun item => MediaType_eqb (itemType item) EMPTY) items).

(** What the user can do to the items: change the slot count (at a
    time), upload files under a selected month, clear. *)
Inductive GalleryAction : Type :=
  | Resize (t : R) (slotCount : nat)
  | Upload (files : list File) (selectedMonth : Month)
  | Clear.

Definition galleryStep (items : list PictureItem) (a : GalleryAction)
    : list PictureItem :=
  match a with
  | Resize t n => resizeSlots t n items
  | Upload files m => handleMediaUpload items files m
  | Clear => handleClearMedia items
  end.

(** ** The focused item *)

(** [Math.round]: the nearest integer, a tie going upward. *)
Definition Math_round (r : R) : Z := Zfloor (r + 0.5).

(** The index the focus effect computes from the scroll offset; [%] is
    the remainder that takes the sign of the dividend. *)
Definition focusIndex (scrollOffset : R) (len : nat) : Z :=
  let angleStep := (PI * 2) / INR len in
  let rawIndex := Math_round (- scrollOffset / angleStep) in
  Z.rem (Z.rem rawIndex (Z.of_nat len) + Z.of_nat len) (Z.of_nat len).

(** The effect on [scrollOffset] and [filteredItems]: the new value of
    [focusedId], given the old one. *)
Definition focusEffect (scrollOffset : R) (filtered : list PictureItem)
    (focusedId : option ItemId) : option ItemId :=
  match filtered with
  | [] => None
  | _ :: _ =>
      let wrappedIndex := focusIndex scrollOffset (length filtered) in
      match (if (0 <=? wrappedIndex)%Z
             then nth_error filtered (Z.to_nat wrappedIndex)
             else None) with
      | Some item => Some (itemId item)
      | None => focusedId
      end
  end.

(** ** Layout of the 3D scene *)

(** [getSpherePosition]: the point of the Fibonacci lattice for an index;
    [5 ** 0.5] is the square root of 5. *)
Definition getSpherePosition (index total radius : R) : R * R * R :=
  let phi := acos (1 - 2 * (index + 0.5) / total) in
  let theta := PI * (1 + sqrt 5) * (index + 0.5) in
  (radius * sin phi * cos theta,
   radius * sin phi * sin theta,
   radius * cos phi).

Definition MIN_RADIUS : R := 9.
Definition ITEM_ARC_SPACING : R := 1.6.

(** Radius of the ring of the browse and focus modes. *)
Definition ringRadius (total : R) : R :=
  let circumference :=
    Rmax (total * ITEM_ARC_SPACING) (MIN_RADIUS * 2 * PI) in
  circumference / (2 * PI).

(** Equality of two item ids, [===] on the id strings. *)
Definition ItemId_eqb (a b : ItemId) : bool :=
  (if Req_dec_T (stamp a) (stamp b) then true else false)
  && Nat.eqb (slot a) (slot b).

(** [isFocused] of a frame:
    [mode === AppMode.FOCUS && item.id === focusedId]. *)
Definition isFocused (mode : AppMode) (item : PictureItem)
    (focusedId : option ItemId) : bool :=
  AppMode_eqb mode FOCUS &&
  match focusedId with
  | Some f => ItemId_eqb (itemId item) f
  | None => false
  end.

(** [tPos], the target position [(x, y, z)] the frame loop computes for
    an item at elapsed time [time]: in AGGREGATE mode its point of the
    sphere, turned about the vertical axis; otherwise its place on the
    ring, bobbing vertically, unless it is the focused item of FOCUS
    mode, which is set in front of the ring. *)
Definition tPos (mode : AppMode) (item : PictureItem)
    (focusedId : option ItemId)
    (index total scrollOffset nebulaDensity driftSpeed time : R)
    : R * R * R :=
  match mode with
  | AGGREGATE =>
      let sphereRadius := 4.5 * nebulaDensity in
      let basePos := getSpherePosition index total sphereRadius in
      let rotSpeed := driftSpeed in
      let angle := time * rotSpeed in
      let rotatedX :=
        fst (fst basePos) * cos angle - snd basePos * sin angle in
      let rotatedZ :=
        fst (fst basePos) * sin angle + snd basePos * cos angle in
      (rotatedX, snd (fst basePos), rotatedZ)
  | _ =>
      let radius := ringRadius total in
      let centerZ := radius + 1.5 in
      let angleStep := PI * 2 / total in
      let theta := index * angleStep + scrollOffset in
      let onRing :=
        (radius * sin theta,
         sin (index * 0.5 + time) * 0.2,
         centerZ - radius * cos theta) in
      if AppMode_eqb mode FOCUS
         && match focusedId with
            | Some f => ItemId_eqb (itemId item) f
            | None => false
            end
      then (0, 0, 2.2)
      else onRing
  end.

(** The scale logic of a frame: the horizontal and vertical factors for
    an aspect ratio. *)
Definition aspectScale (aspectRatio : R) : R * R :=
  if Rgtb aspectRatio 1 then (1, 1 / aspectRatio) else (aspectRatio, 1).

(** ** Fireworks particles *)

Module Particle.

(** The numbers of a particle are doubles, and a particle is removed by
    comparing with zero what is left of 1 after fifty and more rounded
    subtractions; so this part of the model rounds.  Every arithmetic
    operation returns [rnd] of its exact result, a decimal literal and
    [Math.PI] stand for [rnd] of their value, and [Math.cos], [Math.sin]
    are whatever functions the platform provides. *)

Record t : Type := mk {
  x : R; y : R; vx : R; vy : R; alpha : R; decay : R
}.

Section Arithmetic.

Variable rnd : R -> R.
Variables Math_cos Math_sin : R -> R.

(** The constructor, given the three numbers [Math.random()] returns. *)
Definition make (x0 y0 r1 r2 r3 : R) : t :=
  let angle := rnd (rnd (r1 * rnd PI) * 2) in
  let speed := rnd (rnd (r2 * 3) + 1) in
  mk x0 y0 (rnd (Math_cos angle * speed)) (rnd (Math_sin angle * speed)) 1
    (rnd (rnd (r3 * rnd 0.015) + rnd 0.005)).

Definition update (p : t) : t :=
  mk (rnd (x p + vx p)) (rnd (y p + vy p))
    (rnd (vx p * rnd 0.98)) (rnd (rnd (vy p + rnd 0.05) * rnd 0.98))
    (rnd (alpha p - decay p)) (decay p).

(** The particle loop of one animation frame in which no firework is
    launched: every particle is updated, then spliced out of the list
    when [alpha <= 0]; the others keep their order. *)
Definition animate (particles : list t) : list t :=
  filter (fun p => negb (negb (Rltb 0 (alpha p)))) (map update particles).

End Arithmetic.

(** Rounding to a double.  [unit_roundoff] is half the distance from 1
    to the next double, [min_subnormal] the least positive double.  Up
    to the magnitude [2 ^ 1023], which is below the greatest double,
    rounding to nearest moves a number by at most [unit_roundoff] times
    its magnitude plus [min_subnormal]. *)
Definition unit_roundoff : R := / 2 ^ 53.
Definition min_subnormal : R := / 2 ^ 1074.

Definition rounding (rnd : R -> R) : Prop :=
  forall r : R,
    Rabs r <= 2 ^ 1023 ->
    Rabs (rnd r - r) <= unit_roundoff * Rabs r + min_subnormal.

End Particle.

(** * Properties *)

(** ** Comparisons *)

Lemma Rltb_true (a b : R) : Rltb a b = true <-> a < b.
Proof. unfold Rltb; destruct (Rlt_dec a b); split; intros; easy. Qed.

Lemma Rltb_false (a b : R) : Rltb a b = false <-> b <= a.
Proof.
  unfold Rltb; destruct (Rlt_dec a b); split; intros; try easy; lra.
Qed.

Lemma Rgtb_true (a b : R) : Rgtb a b = true <-> a > b.
Proof. unfold Rgtb; rewrite Rltb_true; lra. Qed.

Lemma Rgtb_false (a b : R) : Rgtb a b = false <-> a <= b.
Proof. unfold Rgtb; rewrite Rltb_false; lra. Qed.

(** ** The smoother *)

Lemma EMA_update_alpha (e : EMA) (u : R) :
  alpha (fst (EMA_update e u)) = alpha e.
Proof. unfold EMA_update; destruct (value e); reflexivity. Qed.

Lemma EMA_update_value (e : EMA) (u : R) :
  value (fst (EMA_update e u)) = Some (snd (EMA_update e u)).
Proof. unfold EMA_update; destruct (value e); reflexivity. Qed.

Lemma EMA_feed_alpha (e : EMA) (c : R) (n : nat) :
  alpha (EMA_feed e c n) = alpha e.
Proof.
  revert e; induction n as [|n IH]; intros e; simpl; [reflexivity|].
  rewrite IH; apply EMA_update_alpha.
Qed.

(** Closed form of the stored value under a constant stream. *)
Lemma EMA_feed_closed (e : EMA) (c p : R) (n : nat) :
  value e = Some p ->
  value (EMA_feed e c n) = Some (c + (1 - alpha e) ^ n * (p - c)).
Proof.
  revert e p; induction n as [|n IH]; intros e p Hp; simpl.
  - rewrite Hp; f_equal; lra.
  - rewrite (IH _ (alpha e * c + (1 - alpha e) * p)).
    + rewrite EMA_update_alpha; f_equal; ring.
    + unfold EMA_update; rewrite Hp; reflexivity.
Qed.

Lemma EMA_out_closed (e : EMA) (c p : R) (n : nat) :
  value e = Some p ->
  EMA_out e c n = c + (1 - alpha e) ^ S n * (p - c).
Proof.
  intros Hp; unfold EMA_out, EMA_update.
  rewrite (EMA_feed_closed e c p n Hp), EMA_feed_alpha; simpl; ring.
Qed.

Lemma EMA_out_fresh (e : EMA) (c : R) (n : nat) :
  value e = None -> EMA_out e c n = c.
Proof.
  intros Hn; destruct n as [|n].
  - unfold EMA_out; simpl; unfold EMA_update; rewrite Hn; reflexivity.
  - unfold EMA_out; simpl.
    assert (Hv : value (fst (EMA_update e c)) = Some c)
      by (unfold EMA_update; rewrite Hn; reflexivity).
    unfold EMA_update at 1.
    rewrite (EMA_feed_closed _ c c n Hv), EMA_feed_alpha; simpl; ring.
Qed.

Lemma pow_unit_interval (r : R) (n : nat) :
  0 <= r < 1 -> 0 <= r ^ S n <= r ^ n /\ r ^ n <= 1.
Proof.
  intros Hr; induction n as [|n [[IH1 IH2] IH3]]; simpl in *; [lra|].
  repeat split; nra.
Qed.

(** C9. For a smoother with coefficient in (0,1]: the first [update]
    after construction or after [reset] returns its input; an [update]
    on a stored value [p] returns and stores [alpha*x + (1-alpha)*p];
    with coefficient 1 every update returns its input; and under a
    constant input [c] the outputs converge to [c], monotonically (they
    stay on one side of [c] and never move away from it), whatever the
    instance held before. *)
Theorem C9_EMA_contract (e : EMA) (Halpha : 0 < alpha e <= 1) :
  (forall u, EMA_update (EMA_new (alpha e)) u
             = (mkEMA (alpha e) (Some u), u)) /\
  (forall u, EMA_update (EMA_reset e) u = (mkEMA (alpha e) (Some u), u)) /\
  (forall p u, value e = Some p ->
     EMA_update e u
     = (mkEMA (alpha e) (Some (alpha e * u + (1 - alpha e) * p)),
        alpha e * u + (1 - alpha e) * p)) /\
  (alpha e = 1 -> forall u, snd (EMA_update e u) = u) /\
  (forall c,
     Un_cv (EMA_out e c) c /\
     ((forall n, EMA_out e c n <= EMA_out e c (S n) <= c) \/
      (forall n, c <= EMA_out e c (S n) <= EMA_out e c n))).
Proof.
  repeat split.
  - intros p u Hp; unfold EMA_update; rewrite Hp; reflexivity.
  - intros H1 u; unfold EMA_update; destruct (value e); simpl;
      [rewrite H1; ring | reflexivity].
  - intros eps Heps.
    destruct (value e) as [p|] eqn:Hv.
    + destruct (Req_dec p c) as [->|Hpc].
      * exists O; intros n _; rewrite (EMA_out_closed e c c n Hv).
        unfold Rdist; replace (c + _ - c) with 0 by ring.
        rewrite Rabs_R0; lra.
      * assert (Hd : 0 < Rabs (p - c)) by (apply Rabs_pos_lt; lra).
        destruct (pow_lt_1_zero (1 - alpha e)) with (y := eps / Rabs (p - c))
          as [N HN].
        { rewrite Rabs_pos_eq; lra. }
        { apply Rdiv_lt_0_compat; assumption. }
        exists N; intros n Hn; rewrite (EMA_out_closed e c p n Hv).
        unfold Rdist; replace (c + _ - c) with ((1 - alpha e) ^ S n * (p - c))
          by ring.
        rewrite Rabs_mult.
        assert (HS : Rabs ((1 - alpha e) ^ S n) < eps / Rabs (p - c))
          by (apply HN; lia).
        apply (Rmult_lt_compat_r (Rabs (p - c))) in HS; [|assumption].
        unfold Rdiv in HS; rewrite Rmult_assoc, Rinv_l, Rmult_1_r in HS;
          [assumption | lra].
    + exists O; intros n _; rewrite (EMA_out_fresh e c n Hv).
      unfold Rdist; replace (c - c) with 0 by ring; rewrite Rabs_R0; lra.
  - destruct (value e) as [p|] eqn:Hv.
    + destruct (Rle_dec p c) as [Hle|Hgt]; [left | right]; intros n;
        rewrite !(EMA_out_closed e c p _ Hv);
        destruct Halpha as [Ha1 Ha2];
        destruct (Req_dec (alpha e) 1) as [E1|N1].
      * rewrite E1; replace (1 - 1) with 0 by ring.
        rewrite !pow_i by lia; lra.
      * destruct (pow_unit_interval (1 - alpha e) (S n)) as [[? ?] ?];
          [lra|]; nra.
      * rewrite E1; replace (1 - 1) with 0 by ring.
        rewrite !pow_i by lia; lra.
      * destruct (pow_unit_interval (1 - alpha e) (S n)) as [[? ?] ?];
          [lra|]; nra.
    + left; intros n; rewrite !(EMA_out_fresh e c _ Hv); lra.
Qed.

Lemma C9_EMA_contract_witness :
  0 < alpha (mkEMA 0.2 (Some 0)) <= 1 /\
  EMA_update (mkEMA 0.2 (Some 0)) 1
  = (mkEMA 0.2 (Some (0.2 * 1 + (1 - 0.2) * 0)), 0.2 * 1 + (1 - 0.2) * 0) /\
  Un_cv (EMA_out (mkEMA 0.2 (Some 0)) 1) 1.
Proof.
  assert (H : 0 < alpha (mkEMA 0.2 (Some 0)) <= 1) by (simpl; lra).
  split; [exact H|].
  destruct (C9_EMA_contract (mkEMA 0.2 (Some 0)) H)
    as (_ & _ & Hstep & _ & Hcv).
  split; [exact (Hstep 0 1 eq_refl) | exact (proj1 (Hcv 1))].
Defined.

(** ** Sample hands *)

Lemma pinchHand_wf (side : Handedness) (px py d : R) :
  wf_hand (pinchHand side px py d).
Proof. reflexivity. Qed.

Lemma pinchHand_distance (side : Handedness) (px py d : R) :
  0 <= d -> pinchDistance (pinchHand side px py d) = d.
Proof.
  intros Hd; unfold pinchDistance, distance3D; simpl.
  replace ((px + d - px) * ((px + d - px) * 1) + (py - py) * ((py - py) * 1)
           + (0 - 0) * ((0 - 0) * 1)) with (d * d) by ring.
  apply sqrt_square; assumption.
Qed.

(** ** What each operation leaves alone *)

Ltac break_match :=
  match goal with
  | |- context [match ?c with _ => _ end] => destruct c eqn:?
  end.

Lemma resetDrag_isPinchingRef (s : State) :
  isPinchingRef (resetDrag s) = isPinchingRef s.
Proof. unfold resetDrag; repeat break_match; reflexivity. Qed.

Lemma processLeftHand_isPinchingRef (s : State) (l : list Landmark) :
  isPinchingRef (processLeftHand s l) = isPinchingRef s.
Proof. unfold processLeftHand; destruct (isDraggingUI s); reflexivity. Qed.

Lemma handleCursorInteraction_isPinchingRef env px py dy isDown wasDown s :
  isPinchingRef (handleCursorInteraction env px py dy isDown wasDown s)
  = isPinchingRef s.
Proof.
  unfold handleCursorInteraction, hoverSimulation;
    repeat (break_match; simpl); reflexivity.
Qed.

(** ** Right-hand pinch hysteresis *)

Lemma processRightHand_isPinchingRef (env : Env) (s : State) (h : Hand) :
  isPinchingRef (processRightHand env s (landmarks h))
  = if Rltb (pinchDistance h) PINCH_THRESHOLD_ON then true
    else if Rgtb (pinchDistance h) PINCH_THRESHOLD_OFF then false
    else isPinchingRef s.
Proof.
  unfold processRightHand; rewrite handleCursorInteraction_isPinchingRef.
  reflexivity.
Qed.

Lemma processHand_dead_band (env : Env) (s : State) (h : Hand) :
  (isRight h = true ->
   PINCH_THRESHOLD_ON <= pinchDistance h <= PINCH_THRESHOLD_OFF) ->
  isPinchingRef (processHand env s h) = isPinchingRef s.
Proof.
  unfold processHand, isRight; destruct (handedness h); intros H.
  - apply processLeftHand_isPinchingRef.
  - rewrite processRightHand_isPinchingRef.
    specialize (H eq_refl).
    destruct (Rltb _ PINCH_THRESHOLD_ON) eqn:E1;
      [apply Rltb_true in E1; lra|].
    destruct (Rgtb _ PINCH_THRESHOLD_OFF) eqn:E2;
      [apply Rgtb_true in E2; lra | reflexivity].
Qed.

Lemma fold_processHand_dead_band (env : Env) (hs : list Hand) (s : State) :
  Forall (fun h => PINCH_THRESHOLD_ON <= pinchDistance h
                   <= PINCH_THRESHOLD_OFF) (filter isRight hs) ->
  isPinchingRef (fold_left (processHand env) hs s) = isPinchingRef s.
Proof.
  revert s; induction hs as [|h hs IH]; intros s HF; simpl; [reflexivity|].
  simpl in HF. rewrite IH.
  - apply processHand_dead_band; intros Hr; rewrite Hr in HF.
    inversion HF; assumption.
  - destruct (isRight h); [inversion HF|]; assumption.
Qed.

(** Apart from the hands it processes, a frame never writes the pinch ref. *)
Lemma predictWebcam_isPinchingRef (env : Env) (results : option (list Hand))
    (s : State) :
  isPinchingRef (predictWebcam env results s)
  = match results with
    | Some hs => isPinchingRef (fold_left (processHand env) hs s)
    | None => isPinchingRef s
    end.
Proof.
  unfold predictWebcam; destruct results as [[|h hs]|];
    repeat (break_match; simpl);
    rewrite ?resetDrag_isPinchingRef; reflexivity.
Qed.

(** C2. Right-hand pinch with hysteresis: a thumb-to-index distance below
    the ON threshold 0.04 makes the pinch state true, a distance above
    the OFF threshold 0.055 makes it false, a distance between the two
    leaves it as it was; and over any run of frames whose Right hands all
    stay strictly between the thresholds the pinch state never changes. *)
Theorem C2_right_pinch_hysteresis :
  PINCH_THRESHOLD_ON = 0.04 /\ PINCH_THRESHOLD_OFF = 0.055 /\
  (forall env s h,
     pinchDistance h < PINCH_THRESHOLD_ON ->
     isPinchingRef (processRightHand env s (landmarks h)) = true) /\
  (forall env s h,
     pinchDistance h > PINCH_THRESHOLD_OFF ->
     isPinchingRef (processRightHand env s (landmarks h)) = false) /\
  (forall env s h,
     PINCH_THRESHOLD_ON <= pinchDistance h <= PINCH_THRESHOLD_OFF ->
     isPinchingRef (processRightHand env s (landmarks h)) = isPinchingRef s) /\
  (forall fs s,
     Forall (fun f =>
       Forall (fun h => PINCH_THRESHOLD_ON < pinchDistance h
                        < PINCH_THRESHOLD_OFF) (rightHands (snd f))) fs ->
     isPinchingRef (runFrames fs s) = isPinchingRef s).
Proof.
  split; [reflexivity|]. split; [reflexivity|].
  repeat split.
  - intros env s h H; rewrite processRightHand_isPinchingRef.
    apply Rltb_true in H; rewrite H; reflexivity.
  - intros env s h H; rewrite processRightHand_isPinchingRef.
    destruct (Rltb _ PINCH_THRESHOLD_ON) eqn:E1.
    + apply Rltb_true in E1; unfold PINCH_THRESHOLD_ON, PINCH_THRESHOLD_OFF in *.
      lra.
    + apply Rgtb_true in H; rewrite H; reflexivity.
  - intros env s h H.
    apply (processHand_dead_band env s (mkHand Right (landmarks h))).
    intros _; exact H.
  - intros fs; induction fs as [|[env res] fs IH]; intros s HF; simpl;
      [reflexivity|].
    inversion HF as [|? ? Hhd Htl]; subst; simpl in Hhd.
    rewrite (IH _ Htl), predictWebcam_isPinchingRef.
    destruct res as [hs|]; [|reflexivity].
    apply fold_processHand_dead_band.
    eapply Forall_impl; [|exact Hhd]; simpl; intros; lra.
Qed.

Lemma C2_right_pinch_hysteresis_witness :
  pinchDistance (pinchHand Right 0.5 0.5 0.03) < PINCH_THRESHOLD_ON /\
  pinchDistance (pinchHand Right 0.5 0.5 0.08) > PINCH_THRESHOLD_OFF /\
  PINCH_THRESHOLD_ON < pinchDistance (pinchHand Right 0.5 0.5 0.05)
    < PINCH_THRESHOLD_OFF /\
  isPinchingRef
    (processRightHand (envAt 0 None) initialState
       (landmarks (pinchHand Right 0.5 0.5 0.03))) = true /\
  isPinchingRef
    (processRightHand (envAt 0 None) initialState
       (landmarks (pinchHand Right 0.5 0.5 0.08))) = false /\
  isPinchingRef
    (processRightHand (envAt 0 None) initialState
       (landmarks (pinchHand Right 0.5 0.5 0.05))) = false /\
  isPinchingRef
    (runFrames
       [(envAt 0 None, Some [pinchHand Right 0.5 0.5 0.05]);
        (envAt 16 None, Some [pinchHand Right 0.5 0.5 0.045])]
       initialState) = false.
Proof.
  assert (H3 : pinchDistance (pinchHand Right 0.5 0.5 0.03) = 0.03)
    by (apply pinchHand_distance; lra).
  assert (H8 : pinchDistance (pinchHand Right 0.5 0.5 0.08) = 0.08)
    by (apply pinchHand_distance; lra).
  assert (H5 : pinchDistance (pinchHand Right 0.5 0.5 0.05) = 0.05)
    by (apply pinchHand_distance; lra).
  assert (H45 : pinchDistance (pinchHand Right 0.5 0.5 0.045) = 0.045)
    by (apply pinchHand_distance; lra).
  destruct C2_right_pinch_hysteresis as (_ & _ & Hon & Hoff & Hmid & Hrun).
  unfold PINCH_THRESHOLD_ON, PINCH_THRESHOLD_OFF in *.
  repeat split; try (rewrite ?H3, ?H8, ?H5; lra).
  - apply Hon; rewrite H3; lra.
  - apply Hoff; rewrite H8; lra.
  - rewrite Hmid; [reflexivity | rewrite H5; lra].
  - rewrite Hrun; [reflexivity|].
    repeat constructor; simpl; rewrite ?H5, ?H45; lra.
Defined.

(** ** The left-hand mode machine *)

Lemma distance3D_same (p : Landmark) : distance3D p p = 0.
Proof.
  unfold distance3D.
  replace ((x p - x p) ^ 2 + (y p - y p) ^ 2 + (z p - z p) ^ 2) with 0
    by ring.
  apply sqrt_0.
Qed.

Lemma pinchHand_extendedCount (side : Handedness) (px py d : R) :
  extendedCount (landmarks (pinchHand side px py d)) = O.
Proof.
  unfold extendedCount; simpl.
  rewrite !distance3D_same.
  assert (H : Rgtb 0 (0 * 1.1) = false) by (apply Rgtb_false; lra).
  rewrite H; reflexivity.
Qed.

(** The branch of the updater that tests the release threshold returns
    what the branches after it return: the next mode never depends on
    the current one. *)
Lemma nextMode_ignores_current (a : bool) (v : R) (o : bool)
    (m m' : AppMode) :
  nextMode a v o m = nextMode a v o m'.
Proof.
  unfold nextMode; destruct a; [reflexivity|].
  destruct (AppMode_eqb m FOCUS && Rltb v 0.4),
    (AppMode_eqb m' FOCUS && Rltb v 0.4), o; reflexivity.
Qed.

Lemma nextMode_dead_band (v : R) (o : bool) :
  0.4 <= v <= 0.6 ->
  nextMode (Rgtb v 0.6) v o FOCUS = if o then BROWSE else AGGREGATE.
Proof.
  intros H; unfold nextMode.
  assert (E : Rgtb v 0.6 = false) by (apply Rgtb_false; lra).
  rewrite E; destruct (AppMode_eqb FOCUS FOCUS && Rltb v 0.4), o;
    reflexivity.
Qed.

(** A frame showing one Left hand only, outside a drag. *)
Lemma predictWebcam_left_only (env : Env) (h : Hand) (s : State) :
  isLeft h = true ->
  isDraggingUI s = false ->
  let s' := predictWebcam env (Some [h]) s in
  let p := processLeftHand s (landmarks h) in
  mode s' = mode p /\
  leftPinchSmoother s' = leftPinchSmoother p /\
  leftOpenPalmSmoother s' = leftOpenPalmSmoother p /\
  isDraggingUI s' = false /\
  lastLeftHandTime s' = now env.
Proof.
  destruct h as [[|] l]; [|discriminate]; intros _ Hd.
  unfold predictWebcam, processHand, isRight, isLeft; simpl.
  unfold resetDrag, processLeftHand; rewrite Hd; simpl; rewrite ?Hd.
  repeat split.
Qed.

Lemma processLeftHand_signals (s : State) (h : Hand) :
  isDraggingUI s = false ->
  let p := processLeftHand s (landmarks h) in
  let pinch := EMA_update (leftPinchSmoother s)
                 (if Rltb (pinchDistance h) 0.05 then 1 else 0) in
  let open := EMA_update (leftOpenPalmSmoother s)
                (if (3 <=? extendedCount (landmarks h))%nat then 1 else 0) in
  mode p = nextMode (Rgtb (snd pinch) 0.6) (snd pinch)
             (Rgtb (snd open) 0.6) (mode s) /\
  leftPinchSmoother p = fst pinch /\
  leftOpenPalmSmoother p = fst open.
Proof.
  intros Hd; unfold processLeftHand; rewrite Hd; simpl; repeat split.
Qed.

(** Outside a drag, whatever the hand: when the smoothed pinch value of
    the frame lies between the two thresholds, the left-hand step never
    answers FOCUS, also when the mode was FOCUS. *)
Lemma processLeftHand_dead_band (s : State) (h : Hand) :
  isDraggingUI s = false ->
  let pinchVal :=
    snd (EMA_update (leftPinchSmoother s)
           (if Rltb (pinchDistance h) 0.05 then 1 else 0)) in
  0.4 <= pinchVal <= 0.6 ->
  mode (processLeftHand s (landmarks h)) <> FOCUS.
Proof.
  intros Hd pinchVal Hv.
  destruct (processLeftHand_signals s h Hd) as (M & _).
  cbv zeta in M; fold pinchVal in M; rewrite M.
  rewrite (nextMode_ignores_current _ _ _ (mode s) FOCUS).
  rewrite nextMode_dead_band by exact Hv.
  break_match; discriminate.
Qed.

(** One frame showing a closed Left hand with thumb at distance [d]. *)
Lemma leftHolds_step (env : Env) (px py d pv pv' : R) (m : AppMode)
    (s : State) :
  0 <= d ->
  leftHolds s m pv ->
  pv' = 0.2 * (if Rltb d 0.05 then 1 else 0) + (1 - 0.2) * pv ->
  leftHolds (predictWebcam env (Some [pinchHand Left px py d]) s)
    (nextMode (Rgtb pv' 0.6) pv' false m) pv'.
Proof.
  intros Hd (Hm & Hp & Ho & Hdrag) Hpv.
  destruct (predictWebcam_left_only env (pinchHand Left px py d) s
              eq_refl Hdrag) as (M & P & O & D & _).
  destruct (processLeftHand_signals s (pinchHand Left px py d) Hdrag)
    as (M' & P' & O').
  rewrite pinchHand_distance, Hp in * by assumption.
  rewrite pinchHand_extendedCount, Ho in *.
  change (3 <=? 0)%nat with false in *.
  unfold EMA_update in M', P', O';
    cbn [value alpha fst snd] in M', P', O'.
  rewrite <- Hpv in *.
  assert (E : Rgtb (0.2 * 0 + (1 - 0.2) * 0) 0.6 = false)
    by (apply Rgtb_false; lra).
  rewrite E, Hm in M'.
  unfold leftHolds; rewrite M, P, O, M', P', O'.
  repeat split; [|assumption].
  do 2 f_equal; lra.
Qed.

(** The first frame of a session, at time [t]: a closed Left pinch. *)
Lemma first_pinch_frame (t : R) :
  let s1 :=
    predictWebcam (envAt t None) (Some [pinchHand Left 0.5 0.5 0.03])
      initialState in
  leftHolds s1 FOCUS 1 /\ lastLeftHandTime s1 = t.
Proof.
  destruct (predictWebcam_left_only (envAt t None)
              (pinchHand Left 0.5 0.5 0.03) initialState eq_refl eq_refl)
    as (M & P & O & D & T).
  destruct (processLeftHand_signals initialState
              (pinchHand Left 0.5 0.5 0.03) eq_refl) as (M' & P' & O').
  rewrite pinchHand_distance in * by lra.
  rewrite pinchHand_extendedCount in *.
  change (3 <=? 0)%nat with false in *.
  assert (E1 : Rltb 0.03 0.05 = true) by (apply Rltb_true; lra).
  rewrite E1 in *.
  change (leftPinchSmoother initialState) with (mkEMA 0.2 None) in *.
  change (leftOpenPalmSmoother initialState) with (mkEMA 0.2 None) in *.
  change (mode initialState) with AGGREGATE in *.
  unfold EMA_update in M', P', O';
    cbn [value alpha fst snd] in M', P', O'.
  assert (E0 : Rgtb 0 0.6 = false) by (apply Rgtb_false; lra).
  assert (E2 : Rgtb 1 0.6 = true) by (apply Rgtb_true; lra).
  rewrite E0, E2 in M'.
  cbv zeta; unfold leftHolds; rewrite M, P, O, M', P', O', T.
  repeat split; assumption.
Qed.

(** C1 (the code departs from the claim). From the initial state, one
    frame with a closed Left pinch enters FOCUS; two frames with the
    pinch open keep FOCUS (smoothed pinch 0.8, then 0.64); on the third
    open frame the smoothed pinch is 0.512, strictly between the release
    threshold 0.4 and the activation threshold 0.6, and the mode leaves
    FOCUS for AGGREGATE. *)
Theorem C1_focus_left_inside_dead_band :
  let s3 :=
    runFrames
      [(envAt 0 None, Some [pinchHand Left 0.5 0.5 0.03]);
       (envAt 16 None, Some [pinchHand Left 0.5 0.5 0.1]);
       (envAt 32 None, Some [pinchHand Left 0.5 0.5 0.1])]
      initialState in
  let s4 :=
    predictWebcam (envAt 48 None) (Some [pinchHand Left 0.5 0.5 0.1]) s3 in
  mode s3 = FOCUS /\
  value (leftPinchSmoother s3) = Some 0.64 /\
  value (leftPinchSmoother s4) = Some 0.512 /\
  0.4 < 0.512 < 0.6 /\
  mode s4 = AGGREGATE.
Proof.
  cbn [runFrames].
  set (s1 := predictWebcam (envAt 0 None) _ initialState).
  pose proof (proj1 (first_pinch_frame 0)) as H1; cbv zeta in H1; fold s1 in H1.
  assert (Eopen : Rltb 0.1 0.05 = false) by (apply Rltb_false; lra).
  pose proof (leftHolds_step (envAt 16 None) 0.5 0.5 0.1 1 0.8 FOCUS s1
                  ltac:(lra) H1 ltac:(rewrite Eopen; lra)) as H2.
  set (s2 := predictWebcam (envAt 16 None) _ s1) in *.
  assert (A8 : Rgtb 0.8 0.6 = true) by (apply Rgtb_true; lra).
  unfold nextMode in H2; rewrite A8 in H2.
  pose proof (leftHolds_step (envAt 32 None) 0.5 0.5 0.1 0.8 0.64 FOCUS s2
                  ltac:(lra) H2 ltac:(rewrite Eopen; lra)) as H3.
  set (s3 := predictWebcam (envAt 32 None) _ s2) in *.
  assert (A64 : Rgtb 0.64 0.6 = true) by (apply Rgtb_true; lra).
  unfold nextMode in H3; rewrite A64 in H3.
  pose proof (leftHolds_step (envAt 48 None) 0.5 0.5 0.1 0.64 0.512 FOCUS s3
                  ltac:(lra) H3 ltac:(rewrite Eopen; lra)) as H4.
  set (s4 := predictWebcam (envAt 48 None) _ s3) in *.
  assert (A512 : Rgtb 0.512 0.6 = false) by (apply Rgtb_false; lra).
  assert (B512 : Rltb 0.512 0.4 = false) by (apply Rltb_false; lra).
  unfold nextMode in H4; rewrite A512, B512 in H4; simpl in H4.
  destruct H3 as (M3 & P3 & _), H4 as (M4 & P4 & _).
  rewrite M3, P3, M4, P4; simpl; repeat split; lra.
Qed.

(** ** Fields the right-hand path leaves alone *)

Lemma handleCursorInteraction_keeps env px py dy isDown wasDown s :
  let s' := handleCursorInteraction env px py dy isDown wasDown s in
  mode s' = mode s /\
  scrollOffset s' = scrollOffset s /\
  cursor s' = cursor s /\
  lastLeftHandTime s' = lastLeftHandTime s /\
  leftHandX_EMA s' = leftHandX_EMA s /\
  leftPinchSmoother s' = leftPinchSmoother s /\
  leftOpenPalmSmoother s' = leftOpenPalmSmoother s /\
  cursorX_EMA s' = cursorX_EMA s /\
  cursorY_EMA s' = cursorY_EMA s /\
  anchorPos s' = anchorPos s /\
  lastCursorPos s' = lastCursorPos s.
Proof.
  unfold handleCursorInteraction, hoverSimulation;
    repeat (break_match; simpl); repeat split; reflexivity.
Qed.

Lemma processRightHand_keeps_left (env : Env) (s : State)
    (l : list Landmark) :
  let s' := processRightHand env s l in
  mode s' = mode s /\
  scrollOffset s' = scrollOffset s /\
  lastLeftHandTime s' = lastLeftHandTime s /\
  leftHandX_EMA s' = leftHandX_EMA s /\
  leftPinchSmoother s' = leftPinchSmoother s /\
  leftOpenPalmSmoother s' = leftOpenPalmSmoother s.
Proof.
  unfold processRightHand.
  match goal with
  | |- context [handleCursorInteraction ?e ?a ?b ?c ?d ?w ?t] =>
      destruct (handleCursorInteraction_keeps e a b c d w t)
        as (H1 & H2 & _ & H4 & H5 & H6 & H7 & _)
  end.
  cbv zeta; rewrite H1, H2, H4, H5, H6, H7; repeat split.
Qed.

Lemma resetDrag_keeps (s : State) :
  let s' := resetDrag s in
  mode s' = mode s /\ cursor s' = cursor s /\
  lastLeftHandTime s' = lastLeftHandTime s /\
  anchorPos s' = anchorPos s.
Proof. unfold resetDrag; repeat break_match; repeat split. Qed.

(** ** Idle timeout *)

Lemma fold_processHand_no_left (env : Env) (hs : list Hand) (s : State) :
  filter isLeft hs = [] ->
  mode (fold_left (processHand env) hs s) = mode s /\
  lastLeftHandTime (fold_left (processHand env) hs s) = lastLeftHandTime s.
Proof.
  revert s; induction hs as [|h hs IH]; intros s HF; simpl; [split; reflexivity|].
  simpl in HF; unfold isLeft in HF.
  assert (Hp : processHand env s h = processRightHand env s (landmarks h))
    by (unfold processHand; destruct (handedness h);
        [discriminate | reflexivity]).
  destruct (handedness h); [discriminate|].
  rewrite Hp.
  destruct (IH (processRightHand env s (landmarks h)) HF) as [E1 E2].
  destruct (processRightHand_keeps_left env s (landmarks h))
    as (K1 & _ & K3 & _).
  rewrite E1, E2, K1, K3; split; reflexivity.
Qed.

Lemma existsb_isLeft_filter (hs : list Hand) :
  filter isLeft hs = [] -> existsb isLeft hs = false.
Proof.
  induction hs as [|h hs IH]; simpl; [reflexivity|].
  destruct (isLeft h); [discriminate | exact IH].
Qed.

(** Mode and time stamp after a frame that shows no Left hand. *)
Lemma predictWebcam_no_left (env : Env) (results : option (list Hand))
    (s : State) :
  leftHands results = [] ->
  mode (predictWebcam env results s)
  = (if Rgtb (now env - lastLeftHandTime s) 500 then AGGREGATE else mode s) /\
  lastLeftHandTime (predictWebcam env results s) = lastLeftHandTime s.
Proof.
  intros HL; unfold predictWebcam.
  destruct results as [[|h hs]|].
  - destruct (resetDrag_keeps
      (set_cursor
         (mkCursor
            (cur_x (cursor (if Rgtb (now env - lastLeftHandTime s) 500
                            then set_mode AGGREGATE s else s)))
            (cur_y (cursor (if Rgtb (now env - lastLeftHandTime s) 500
                            then set_mode AGGREGATE s else s))) false
            (clicking (cursor (if Rgtb (now env - lastLeftHandTime s) 500
                               then set_mode AGGREGATE s else s)))
            (lastClickTime (cursor (if Rgtb (now env - lastLeftHandTime s) 500
                                    then set_mode AGGREGATE s else s))))
         (if Rgtb (now env - lastLeftHandTime s) 500
          then set_mode AGGREGATE s else s))) as (E1 & _ & E3 & _).
    cbv zeta; rewrite E1, E3.
    destruct (Rgtb (now env - lastLeftHandTime s) 500); split; reflexivity.
  - unfold leftHands in HL.
    destruct (fold_processHand_no_left env (h :: hs) s HL) as [E1 E2].
    cbv zeta; rewrite (existsb_isLeft_filter _ HL); cbn [negb andb].
    rewrite E2.
    set (t := fold_left (processHand env) (h :: hs) s) in *.
    destruct (Rgtb (now env - lastLeftHandTime s) 500);
      destruct (negb (existsb isRight (h :: hs)));
      rewrite ?(proj1 (resetDrag_keeps _)),
        ?(proj1 (proj2 (proj2 (resetDrag_keeps _)))); simpl;
      rewrite ?E1, ?E2; split; reflexivity.
  - destruct (Rgtb (now env - lastLeftHandTime s) 500);
      rewrite ?(proj1 (resetDrag_keeps _)),
        ?(proj1 (proj2 (proj2 (resetDrag_keeps _)))); simpl;
      split; reflexivity.
Qed.

(** A frame that shows a Left hand stamps the time of the frame. *)
Lemma predictWebcam_stamps_left (env : Env) (results : option (list Hand))
    (s : State) :
  leftHands results <> [] ->
  lastLeftHandTime (predictWebcam env results s) = now env.
Proof.
  intros HL; unfold predictWebcam.
  destruct results as [[|h hs]|];
    try (exfalso; apply HL; reflexivity).
  unfold leftHands in HL.
  assert (E : existsb isLeft (h :: hs) = true).
  { destruct (existsb isLeft (h :: hs)) eqn:E; [reflexivity|].
    exfalso; apply HL; clear - E.
    induction (h :: hs) as [|a l IH]; simpl in *; [reflexivity|].
    destruct (isLeft a); [discriminate | exact (IH E)]. }
  cbv zeta; rewrite E; cbn [negb andb].
  destruct (negb (existsb isRight (h :: hs)));
    rewrite ?(proj1 (proj2 (proj2 (resetDrag_keeps _)))); reflexivity.
Qed.

(** C5 (amended). In a frame that shows no Left hand, the mode is forced
    to AGGREGATE when the frame's time is strictly more than 500 ms after
    the stored time of the last Left-hand frame, whatever the mode was and
    whatever the Right hand does; at 500 ms or less the frame leaves the
    mode as it was.  The stored time is not touched by such a frame. *)
Theorem C5_idle_timeout_strict (env : Env) (results : option (list Hand))
    (s : State) (Hnone : leftHands results = []) :
  (now env - lastLeftHandTime s > 500 ->
   mode (predictWebcam env results s) = AGGREGATE) /\
  (now env - lastLeftHandTime s <= 500 ->
   mode (predictWebcam env results s) = mode s) /\
  lastLeftHandTime (predictWebcam env results s) = lastLeftHandTime s.
Proof.
  destruct (predictWebcam_no_left env results s Hnone) as [Hm Ht].
  repeat split; [| |exact Ht]; intros H; rewrite Hm.
  - apply Rgtb_true in H; rewrite H; reflexivity.
  - apply Rgtb_false in H; rewrite H; reflexivity.
Qed.

Lemma C5_idle_timeout_strict_witness :
  let s1 :=
    predictWebcam (envAt 1000 None) (Some [pinchHand Left 0.5 0.5 0.03])
      initialState in
  leftHands (Some [pinchHand Right 0.5 0.5 0.1]) = [] /\
  now (envAt 1501 None) - lastLeftHandTime s1 > 500 /\
  mode s1 = FOCUS /\
  mode (predictWebcam (envAt 1501 None)
          (Some [pinchHand Right 0.5 0.5 0.1]) s1) = AGGREGATE.
Proof.
  destruct (first_pinch_frame 1000) as [(M & _) T].
  cbv zeta; split; [reflexivity|].
  assert (H : now (envAt 1501 None)
              - lastLeftHandTime
                  (predictWebcam (envAt 1000 None)
                     (Some [pinchHand Left 0.5 0.5 0.03]) initialState)
              > 500) by (rewrite T; simpl; lra).
  split; [exact H|]. split; [exact M|].
  exact (proj1 (C5_idle_timeout_strict (envAt 1501 None)
                  (Some [pinchHand Right 0.5 0.5 0.1]) _ eq_refl) H).
Defined.

(** C5 as claimed fails at exactly 500 ms: a Left pinch at time 1000
    enters FOCUS, and the frame at time 1500, with no hand in sight,
    leaves the mode at FOCUS. *)
Lemma C5_exactly_500ms_counterexample :
  let s1 :=
    predictWebcam (envAt 1000 None) (Some [pinchHand Left 0.5 0.5 0.03])
      initialState in
  leftHands None = [] /\
  now (envAt 1500 None) - lastLeftHandTime s1 = 500 /\
  mode s1 = FOCUS /\
  mode (predictWebcam (envAt 1500 None) None s1) = FOCUS /\
  mode (predictWebcam (envAt 1500 None) None s1) <> AGGREGATE.
Proof.
  destruct (first_pinch_frame 1000) as [(M & _) T].
  cbv zeta; split; [reflexivity|].
  assert (H : now (envAt 1500 None)
              - lastLeftHandTime
                  (predictWebcam (envAt 1000 None)
                     (Some [pinchHand Left 0.5 0.5 0.03]) initialState)
              = 500) by (rewrite T; simpl; lra).
  split; [exact H|]. split; [exact M|].
  assert (E : mode (predictWebcam (envAt 1500 None) None
                      (predictWebcam (envAt 1000 None)
                         (Some [pinchHand Left 0.5 0.5 0.03]) initialState))
              = FOCUS).
  { rewrite (proj1 (predictWebcam_no_left (envAt 1500 None) None _ eq_refl)).
    rewrite H.
    assert (E5 : Rgtb 500 500 = false) by (apply Rgtb_false; lra).
    rewrite E5; exact M. }
  split; [exact E | rewrite E; discriminate].
Qed.

(** ** The dispatcher's event log *)

Lemma skipn_length_app {A : Type} (l r : list A) :
  skipn (length l) (l ++ r) = r.
Proof. induction l as [|a l IH]; simpl; [reflexivity | exact IH]. Qed.

Lemma dispatchedSince_app (s s' : State) (evs : list DomEvent) :
  dispatched s' = dispatched s ++ evs -> dispatchedSince s s' = evs.
Proof.
  intros H; unfold dispatchedSince; rewrite H; apply skipn_length_app.
Qed.

Lemma hoverSimulation_log (env : Env) (px py : R) (s : State) :
  dispatched (hoverSimulation env px py s)
  = dispatched s ++ hoverEvents env px py s /\
  Forall (fun ev => isHoverEvent ev = true) (hoverEvents env px py s).
Proof.
  assert (H : exists evs,
            dispatched (hoverSimulation env px py s) = dispatched s ++ evs /\
            Forall (fun ev => isHoverEvent ev = true) evs).
  { unfold hoverSimulation; repeat (break_match; simpl);
      rewrite <- ?app_assoc; simpl.
      all: try (exists []; rewrite app_nil_r; split; [reflexivity | constructor]; fail).
      all: eexists; split; [reflexivity | repeat constructor]. }
  destruct H as (evs & E & F).
  unfold hoverEvents; rewrite (dispatchedSince_app _ _ _ E); split; assumption.
Qed.

Lemma hoverSimulation_keeps (env : Env) (px py : R) (s : State) :
  let s' := hoverSimulation env px py s in
  isDraggingUI s' = isDraggingUI s /\
  dragTarget s' = dragTarget s /\
  scrollTop s' = scrollTop s.
Proof.
  unfold hoverSimulation; repeat (break_match; simpl); repeat split.
Qed.

(** The second half of the dispatcher, case by case. *)
Lemma handleCursorInteraction_rising env px py dy s e :
  elementFromPoint env px py = Some e ->
  let s' := handleCursorInteraction env px py dy true false s in
  dispatched s'
  = dispatched s ++ hoverEvents env px py s
      ++ [mkEvent e pointerdown (Some (px, py)) true;
          mkEvent e mousedown (Some (px, py)) false] /\
  isDraggingUI s' = true /\ dragTarget s' = Some e.
Proof.
  intros He; unfold handleCursorInteraction; rewrite He; simpl.
  rewrite (proj1 (hoverSimulation_log env px py s)), <- !app_assoc.
  repeat split.
Qed.

Lemma handleCursorInteraction_holding env px py dy s t :
  isDraggingUI s = true -> dragTarget s = Some t ->
  let s' := handleCursorInteraction env px py dy true true s in
  dispatched s'
  = dispatched s ++ hoverEvents env px py s
      ++ [mkEvent t pointermove (Some (px, py)) true] /\
  isDraggingUI s' = true /\ dragTarget s' = Some t.
Proof.
  intros Hd Ht; unfold handleCursorInteraction; simpl.
  destruct (hoverSimulation_keeps env px py s) as (K1 & K2 & _).
  rewrite K1, K2, Hd, Ht.
  destruct (scrollContainer env) as [c|];
    [destruct (Nat.eqb c t || contains env c t)|]; simpl;
    rewrite ?K1, ?K2, Hd, Ht,
      (proj1 (hoverSimulation_log env px py s)), <- !app_assoc;
    repeat split.
Qed.

Lemma handleCursorInteraction_falling env px py dy s t :
  isDraggingUI s = true -> dragTarget s = Some t ->
  let s' := handleCursorInteraction env px py dy false true s in
  dispatched s'
  = dispatched s ++ hoverEvents env px py s
      ++ [mkEvent t pointerup (Some (px, py)) true;
          mkEvent t mouseup (Some (px, py)) false;
          mkEvent t click (Some (px, py)) false] /\
  isDraggingUI s' = false /\ dragTarget s' = None.
Proof.
  intros Hd Ht; unfold handleCursorInteraction; simpl.
  destruct (hoverSimulation_keeps env px py s) as (K1 & K2 & _).
  rewrite K1, K2, Hd, Ht; simpl.
  rewrite (proj1 (hoverSimulation_log env px py s)), <- !app_assoc.
  repeat split.
Qed.

(** Without a rising edge no press event is dispatched and the drag
    target is never replaced by another element. *)
Lemma handleCursorInteraction_no_press env px py dy isDown wasDown s :
  isDown && negb wasDown = false ->
  let s' := handleCursorInteraction env px py dy isDown wasDown s in
  exists evs,
    dispatched s' = dispatched s ++ evs /\
    Forall (fun ev => isPressEvent ev = false) evs.
Proof.
  intros Hr; unfold handleCursorInteraction; rewrite Hr.
  destruct (hoverSimulation_log env px py s) as [E F].
  assert (F' : Forall (fun ev => isPressEvent ev = false)
                 (hoverEvents env px py s)).
  { eapply Forall_impl; [|exact F]; intros ev; unfold isHoverEvent,
      isPressEvent; destruct (evType ev), (evPrimary ev); simpl;
      congruence. }
  repeat (break_match; simpl); rewrite E, <- ?app_assoc.
  all: try (exists (hoverEvents env px py s); split;
            [reflexivity | exact F']; fail).
  all: eexists; split; [reflexivity|]; apply Forall_app; split;
    [exact F' | repeat constructor].
Qed.

(** ** The right-hand step as a call of the dispatcher *)

Lemma processRightHand_anatomy (env : Env) (s : State) (l : list Landmark) :
  let s' := processRightHand env s l in
  exists dy s0,
    s' = handleCursorInteraction env (cur_x (cursor s')) (cur_y (cursor s'))
           dy (isPinchingRef s') (isPinchingRef s) s0 /\
    dispatched s0 = dispatched s /\
    isDraggingUI s0 = isDraggingUI s /\
    dragTarget s0 = dragTarget s.
Proof.
  unfold processRightHand; cbv zeta.
  match goal with
  | |- context [handleCursorInteraction ?e ?a ?b ?c ?d ?w ?t] =>
      destruct (handleCursorInteraction_keeps e a b c d w t)
        as (_ & _ & Hc & _);
      pose proof (handleCursorInteraction_isPinchingRef e a b c d w t) as Hp;
      exists c, t
  end.
  cbv zeta in Hc; rewrite Hc, Hp; simpl; repeat split.
Qed.

Lemma processRightHand_anatomy_full (env : Env) (s : State)
    (l : list Landmark) :
  let s' := processRightHand env s l in
  exists s0,
    s' = handleCursorInteraction env (cur_x (cursor s')) (cur_y (cursor s'))
           (cur_y (cursor s') - snd (lastCursorPos s))
           (isPinchingRef s') (isPinchingRef s) s0 /\
    dispatched s0 = dispatched s /\
    isDraggingUI s0 = isDraggingUI s /\
    dragTarget s0 = dragTarget s /\
    lastHoveredElement s0 = lastHoveredElement s /\
    scrollTop s0 = scrollTop s.
Proof.
  unfold processRightHand; cbv zeta.
  match goal with
  | |- context [handleCursorInteraction ?e ?a ?b ?c ?d ?w ?t] =>
      destruct (handleCursorInteraction_keeps e a b c d w t)
        as (_ & _ & Hc & _);
      pose proof (handleCursorInteraction_isPinchingRef e a b c d w t) as Hp;
      exists t
  end.
  cbv zeta in Hc; rewrite Hc, Hp; simpl; repeat split.
Qed.

Lemma Element_opt_eqb_eq (a b : option Element) :
  Element_opt_eqb a b = true <-> a = b.
Proof.
  destruct a as [a|], b as [b|]; simpl; split; intros H;
    try discriminate; try reflexivity.
  - apply Nat.eqb_eq in H; subst; reflexivity.
  - inversion H; apply Nat.eqb_refl.
Qed.

(** The hover simulation: the tracked element afterwards, and the events
    it dispatches, in order. *)
Lemma hoverSimulation_exact (env : Env) (px py : R) (s : State) :
  let element := elementFromPoint env px py in
  lastHoveredElement (hoverSimulation env px py s) = element /\
  hoverEvents env px py s
  = (if Element_opt_eqb element (lastHoveredElement s) then []
     else
       match lastHoveredElement s with
       | Some old => [mkEvent old mouseout None false;
                      mkEvent old pointerout None false]
       | None => []
       end
       ++ match element with
          | Some e => [mkEvent e mouseover None false;
                       mkEvent e pointerover None false]
          | None => []
          end)
    ++ match element with
       | Some e => [mkEvent e pointermove (Some (px, py)) false]
       | None => []
       end.
Proof.
  cbv zeta; unfold hoverEvents.
  destruct (Element_opt_eqb (elementFromPoint env px py)
              (lastHoveredElement s)) eqn:E.
  - pose proof (proj1 (Element_opt_eqb_eq _ _) E) as Eq.
    unfold hoverSimulation; rewrite E.
    destruct (elementFromPoint env px py) as [e|]; simpl.
    + split; [symmetry; exact Eq|].
      apply dispatchedSince_app; reflexivity.
    + split; [symmetry; exact Eq|].
      apply dispatchedSince_app; rewrite app_nil_r; reflexivity.
  - unfold hoverSimulation; rewrite E.
    destruct (elementFromPoint env px py) as [e|];
      destruct (lastHoveredElement s) as [old|]; simpl;
      (split; [reflexivity|]); apply dispatchedSince_app; simpl;
      rewrite <- ?app_assoc, ?app_nil_r; reflexivity.
Qed.

Lemma handleCursorInteraction_hovered env px py dy isDown wasDown s :
  lastHoveredElement (handleCursorInteraction env px py dy isDown wasDown s)
  = elementFromPoint env px py.
Proof.
  rewrite <- (proj1 (hoverSimulation_exact env px py s)).
  unfold handleCursorInteraction.
  set (H := hoverSimulation env px py s).
  repeat (break_match; simpl); reflexivity.
Qed.

Lemma resetDrag_open (s : State) (E : Element) :
  isDraggingUI s = true -> dragTarget s = Some E ->
  dispatched (resetDrag s)
  = dispatched s ++ [mkEvent E pointerup None false] /\
  isDraggingUI (resetDrag s) = false /\
  dragTarget (resetDrag s) = None.
Proof.
  intros Hd Ht; unfold resetDrag; rewrite Hd, Ht; simpl; repeat split.
Qed.

Lemma pinchHand_closes (env : Env) (s : State) (px py : R) :
  isPinchingRef
    (processRightHand env s (landmarks (pinchHand Right px py 0.03))) = true.
Proof.
  rewrite processRightHand_isPinchingRef, pinchHand_distance by lra.
  assert (E : Rltb 0.03 PINCH_THRESHOLD_ON = true)
    by (apply Rltb_true; unfold PINCH_THRESHOLD_ON; lra).
  rewrite E; reflexivity.
Qed.

Lemma pinchHand_opens (env : Env) (s : State) (px py : R) :
  isPinchingRef
    (processRightHand env s (landmarks (pinchHand Right px py 0.08))) = false.
Proof.
  rewrite processRightHand_isPinchingRef, pinchHand_distance by lra.
  assert (E1 : Rltb 0.08 PINCH_THRESHOLD_ON = false)
    by (apply Rltb_false; unfold PINCH_THRESHOLD_ON; lra).
  assert (E2 : Rgtb 0.08 PINCH_THRESHOLD_OFF = true)
    by (apply Rgtb_true; unfold PINCH_THRESHOLD_OFF; lra).
  rewrite E1, E2; reflexivity.
Qed.

(** The right-hand step as a call of the dispatcher, with the events of
    its hover block written out. *)
Lemma processRightHand_hover (env : Env) (s : State) (l : list Landmark) :
  let s' := processRightHand env s l in
  let p := cursorPos s' in
  let under := elementFromPoint env (fst p) (snd p) in
  exists dy s0,
    s' = handleCursorInteraction env (fst p) (snd p) dy
           (isPinchingRef s') (isPinchingRef s) s0 /\
    dispatched s0 = dispatched s /\
    isDraggingUI s0 = isDraggingUI s /\
    dragTarget s0 = dragTarget s /\
    lastHoveredElement s' = under /\
    hoverEvents env (fst p) (snd p) s0
    = (if Element_opt_eqb under (lastHoveredElement s) then []
       else
         match lastHoveredElement s with
         | Some old => [mkEvent old mouseout None false;
                        mkEvent old pointerout None false]
         | None => []
         end
         ++ match under with
            | Some e => [mkEvent e mouseover None false;
                         mkEvent e pointerover None false]
            | None => []
            end)
      ++ match under with
         | Some e => [mkEvent e pointermove (Some p) false]
         | None => []
         end.
Proof.
  cbv zeta; unfold cursorPos; cbn [fst snd].
  destruct (processRightHand_anatomy_full env s l)
    as (s0 & Hs & Hlog & Hd & Ht & Hhov & _).
  set (s' := processRightHand env s l) in *.
  exists (cur_y (cursor s') - snd (lastCursorPos s)), s0.
  split; [exact Hs|].
  split; [exact Hlog|].
  split; [exact Hd|].
  split; [exact Ht|].
  split.
  - rewrite Hs at 1; apply handleCursorInteraction_hovered.
  - rewrite (proj2 (hoverSimulation_exact env _ _ s0)), Hhov; reflexivity.
Qed.

(** C7 (amended). Pointer capture.  In a right-hand step the hover block
    comes first: leave and enter events when the element under the
    cursor changed, then a pointer-move, not primary, on the element
    under the cursor.  A pinch rising edge over element [E] then opens a
    drag session on [E] with pointer-down and mouse-down.  In every
    later step that sustains the pinch the step ends with one primary
    pointer-move on [E] at the reported position, whatever element lies
    under the cursor, and the session stays on [E]: that event is the
    only primary event of the step, and the move events of the step are
    the one on the element under the cursor followed by the one on [E].
    On the falling edge the step ends with pointer-up, mouse-up, click on
    [E] at the reported position, and the session is cleared. *)
Theorem C7_drag_capture (env : Env) (s : State) (h : Hand) (E : Element) :
  let s' := processRightHand env s (landmarks h) in
  let p := cursorPos s' in
  let under := elementFromPoint env (fst p) (snd p) in
  let hover :=
    (if Element_opt_eqb under (lastHoveredElement s) then []
     else
       match lastHoveredElement s with
       | Some old => [mkEvent old mouseout None false;
                      mkEvent old pointerout None false]
       | None => []
       end
       ++ match under with
          | Some e => [mkEvent e mouseover None false;
                       mkEvent e pointerover None false]
          | None => []
          end)
    ++ match under with
       | Some e => [mkEvent e pointermove (Some p) false]
       | None => []
       end in
  let isMove := fun ev => EventType_eqb (evType ev) pointermove in
  (isPinchingRef s = false -> isPinchingRef s' = true -> under = Some E ->
   dispatched s'
   = dispatched s ++ hover
       ++ [mkEvent E pointerdown (Some p) true;
           mkEvent E mousedown (Some p) false] /\
   isDraggingUI s' = true /\ dragTarget s' = Some E) /\
  (isDraggingUI s = true -> dragTarget s = Some E ->
   isPinchingRef s = true -> isPinchingRef s' = true ->
   dispatched s'
   = dispatched s ++ hover ++ [mkEvent E pointermove (Some p) true] /\
   filter evPrimary (dispatchedSince s s')
   = [mkEvent E pointermove (Some p) true] /\
   filter isMove (dispatchedSince s s')
   = match under with
     | Some e => [mkEvent e pointermove (Some p) false]
     | None => []
     end ++ [mkEvent E pointermove (Some p) true] /\
   isDraggingUI s' = true /\ dragTarget s' = Some E) /\
  (isDraggingUI s = true -> dragTarget s = Some E ->
   isPinchingRef s = true -> isPinchingRef s' = false ->
   dispatched s'
   = dispatched s ++ hover
       ++ [mkEvent E pointerup (Some p) true;
           mkEvent E mouseup (Some p) false;
           mkEvent E click (Some p) false] /\
   isDraggingUI s' = false /\ dragTarget s' = None).
Proof.
  cbv zeta.
  destruct (processRightHand_hover env s (landmarks h))
    as (dy & s0 & Hs & Hlog & Hdrag & Htgt & _ & Hhov).
  cbv zeta in Hs, Hhov.
  set (s' := processRightHand env s (landmarks h)) in *.
  set (p := cursorPos s') in *.
  rewrite <- Hhov.
  split; [|split].
  - intros Hw Hn He.
    rewrite Hw, Hn in Hs.
    destruct (handleCursorInteraction_rising env _ _ dy s0 E He)
      as (L & D & T).
    rewrite <- Hs in L, D, T; rewrite Hlog in L.
    replace (fst p, snd p) with p in L by (destruct p; reflexivity).
    split; [exact L | split; assumption].
  - intros Hd Ht Hw Hn.
    rewrite Hw, Hn in Hs.
    rewrite <- Hdrag in Hd; rewrite <- Htgt in Ht.
    destruct (handleCursorInteraction_holding env (fst p) (snd p) dy s0 E
                Hd Ht) as (L & D & T).
    rewrite <- Hs in L, D, T; rewrite Hlog in L.
    replace (fst p, snd p) with p in L by (destruct p; reflexivity).
    split; [exact L|].
    rewrite (dispatchedSince_app _ _ _ L), !filter_app, Hhov.
    split; [|split; [|split; assumption]].
    + destruct (Element_opt_eqb _ _), (lastHoveredElement s),
        (elementFromPoint env (fst p) (snd p)); reflexivity.
    + destruct (Element_opt_eqb _ _), (lastHoveredElement s),
        (elementFromPoint env (fst p) (snd p)); reflexivity.
  - intros Hd Ht Hw Hn.
    rewrite Hw, Hn in Hs.
    rewrite <- Hdrag in Hd; rewrite <- Htgt in Ht.
    destruct (handleCursorInteraction_falling env (fst p) (snd p) dy s0 E
                Hd Ht) as (L & D & T).
    rewrite <- Hs in L, D, T; rewrite Hlog in L.
    replace (fst p, snd p) with p in L by (destruct p; reflexivity).
    split; [exact L | split; assumption].
Qed.

Lemma C7_drag_capture_witness :
  let s1 := processRightHand (envAt 0 (Some 7%nat)) initialState
              (landmarks (pinchHand Right 0.5 0.5 0.03)) in
  let s2 := processRightHand (envAt 16 (Some 9%nat)) s1
              (landmarks (pinchHand Right 0.6 0.5 0.03)) in
  let s3 := processRightHand (envAt 32 (Some 9%nat)) s2
              (landmarks (pinchHand Right 0.6 0.5 0.08)) in
  (isDraggingUI s1 = true /\ dragTarget s1 = Some 7%nat) /\
  (filter evPrimary (dispatchedSince s1 s2)
   = [mkEvent 7%nat pointermove (Some (cursorPos s2)) true] /\
   filter (fun ev => EventType_eqb (evType ev) pointermove)
     (dispatchedSince s1 s2)
   = [mkEvent 9%nat pointermove (Some (cursorPos s2)) false;
      mkEvent 7%nat pointermove (Some (cursorPos s2)) true] /\
   isDraggingUI s2 = true /\ dragTarget s2 = Some 7%nat) /\
  (dispatchedSince s2 s3
   = [mkEvent 9%nat pointermove (Some (cursorPos s3)) false;
      mkEvent 7%nat pointerup (Some (cursorPos s3)) true;
      mkEvent 7%nat mouseup (Some (cursorPos s3)) false;
      mkEvent 7%nat click (Some (cursorPos s3)) false] /\
   isDraggingUI s3 = false /\ dragTarget s3 = None).
Proof.
  cbv zeta.
  set (s1 := processRightHand (envAt 0 (Some 7%nat)) initialState
               (landmarks (pinchHand Right 0.5 0.5 0.03))).
  set (s2 := processRightHand (envAt 16 (Some 9%nat)) s1
               (landmarks (pinchHand Right 0.6 0.5 0.03))).
  set (s3 := processRightHand (envAt 32 (Some 9%nat)) s2
               (landmarks (pinchHand Right 0.6 0.5 0.08))).
  assert (P1 : isPinchingRef s1 = true) by apply pinchHand_closes.
  assert (P2 : isPinchingRef s2 = true) by apply pinchHand_closes.
  assert (P3 : isPinchingRef s3 = false) by apply pinchHand_opens.
  assert (H2 : lastHoveredElement s2 = Some 9%nat).
  { destruct (processRightHand_hover (envAt 16 (Some 9%nat)) s1
                (landmarks (pinchHand Right 0.6 0.5 0.03)))
      as (_ & _ & _ & _ & _ & _ & H & _); exact H. }
  destruct (proj1 (C7_drag_capture (envAt 0 (Some 7%nat)) initialState
                     (pinchHand Right 0.5 0.5 0.03) 7%nat)
              eq_refl P1 eq_refl) as (_ & D1 & T1).
  destruct (proj1 (proj2 (C7_drag_capture (envAt 16 (Some 9%nat)) s1
                            (pinchHand Right 0.6 0.5 0.03) 7%nat))
              D1 T1 P1 P2) as (_ & F2 & M2 & D2 & T2).
  destruct (proj2 (proj2 (C7_drag_capture (envAt 32 (Some 9%nat)) s2
                            (pinchHand Right 0.6 0.5 0.08) 7%nat))
              D2 T2 P2 P3) as (L3 & D3 & T3).
  fold s2 in F2, M2; fold s3 in L3.
  split; [split; assumption|].
  split; [split; [exact F2 | split; [exact M2 | split; assumption]]|].
  split; [|split; assumption].
  apply dispatchedSince_app; rewrite L3, H2; reflexivity.
Defined.

(** C7 as claimed fails.  A pinch opens a drag on element 7; in the next
    step the pinch is sustained with element 9 under the cursor.  The
    step dispatches two move events: the first goes to element 9, the
    element under the cursor, and only the second goes to element 7.
    And when the Right hand is lost in the following frame, the session
    is closed with one pointer-up: no mouse-up and no click go to
    element 7. *)
Lemma C7_hover_move_counterexample :
  let s1 := processRightHand (envAt 0 (Some 7%nat)) initialState
              (landmarks (pinchHand Right 0.5 0.5 0.03)) in
  let s2 := processRightHand (envAt 16 (Some 9%nat)) s1
              (landmarks (pinchHand Right 0.6 0.5 0.03)) in
  let s3 := predictWebcam (envAt 32 (Some 9%nat)) None s2 in
  let moves :=
    filter (fun ev => EventType_eqb (evType ev) pointermove)
      (dispatchedSince s1 s2) in
  isDraggingUI s1 = true /\ dragTarget s1 = Some 7%nat /\
  isPinchingRef s1 = true /\ isPinchingRef s2 = true /\
  moves = [mkEvent 9%nat pointermove (Some (cursorPos s2)) false;
           mkEvent 7%nat pointermove (Some (cursorPos s2)) true] /\
  ~ Forall (fun ev => evTarget ev = 7%nat) moves /\
  isDraggingUI s2 = true /\ dragTarget s2 = Some 7%nat /\
  map evType (dispatchedSince s2 s3) = [pointerup] /\
  isDraggingUI s3 = false /\ dragTarget s3 = None.
Proof.
  cbv zeta.
  set (s1 := processRightHand (envAt 0 (Some 7%nat)) initialState
               (landmarks (pinchHand Right 0.5 0.5 0.03))).
  set (s2 := processRightHand (envAt 16 (Some 9%nat)) s1
               (landmarks (pinchHand Right 0.6 0.5 0.03))).
  assert (P1 : isPinchingRef s1 = true) by apply pinchHand_closes.
  assert (P2 : isPinchingRef s2 = true) by apply pinchHand_closes.
  (* the rising edge *)
  destruct (processRightHand_hover (envAt 0 (Some 7%nat)) initialState
              (landmarks (pinchHand Right 0.5 0.5 0.03)))
    as (dy1 & a1 & Hs1 & _ & _ & _ & Hh1 & _).
  cbv zeta in Hs1, Hh1; fold s1 in Hs1, Hh1; rewrite P1 in Hs1.
  destruct (handleCursorInteraction_rising (envAt 0 (Some 7%nat))
              (fst (cursorPos s1)) (snd (cursorPos s1)) dy1 a1 7%nat eq_refl)
    as (_ & D1 & T1).
  change (isPinchingRef initialState) with false in Hs1.
  rewrite <- Hs1 in D1, T1.
  (* the sustained pinch *)
  destruct (processRightHand_hover (envAt 16 (Some 9%nat)) s1
              (landmarks (pinchHand Right 0.6 0.5 0.03)))
    as (dy2 & a2 & Hs2 & Hlog2 & Hd2 & Ht2 & _ & Hv2).
  cbv zeta in Hs2, Hv2; fold s2 in Hs2, Hv2; rewrite P1, P2 in Hs2.
  rewrite <- Hd2 in D1; rewrite <- Ht2 in T1.
  destruct (handleCursorInteraction_holding (envAt 16 (Some 9%nat))
              (fst (cursorPos s2)) (snd (cursorPos s2)) dy2 a2 7%nat D1 T1)
    as (L2 & D2 & T2).
  rewrite <- Hs2 in L2, D2, T2; rewrite Hlog2, Hv2, Hh1 in L2.
  rewrite Hd2 in D1; rewrite Ht2 in T1.
  assert (M : filter (fun ev => EventType_eqb (evType ev) pointermove)
                (dispatchedSince s1 s2)
              = [mkEvent 9%nat pointermove (Some (cursorPos s2)) false;
                 mkEvent 7%nat pointermove (Some (cursorPos s2)) true]).
  { rewrite (dispatchedSince_app _ _ _ L2).
    destruct (cursorPos s2); reflexivity. }
  (* the frame without a hand *)
  assert (L3 : dispatched (predictWebcam (envAt 32 (Some 9%nat)) None s2)
               = dispatched s2 ++ [mkEvent 7%nat pointerup None false] /\
               isDraggingUI (predictWebcam (envAt 32 (Some 9%nat)) None s2)
               = false /\
               dragTarget (predictWebcam (envAt 32 (Some 9%nat)) None s2)
               = None).
  { unfold predictWebcam; cbv zeta.
    match goal with
    | |- context [resetDrag ?t] =>
        destruct (resetDrag_open t 7%nat) as (L & D & T);
          [destruct (Rgtb _ 500); exact D2
          |destruct (Rgtb _ 500); exact T2|];
        rewrite L, D, T
    end.
    destruct (Rgtb _ 500); repeat split. }
  destruct L3 as (L3 & D3 & T3).
  rewrite M, (dispatchedSince_app _ _ _ L3).
  split; [exact D1|]. split; [exact T1|]. split; [exact P1|].
  split; [exact P2|]. split; [reflexivity|].
  split.
  { intros F; inversion F as [|? ? H9 _]; discriminate H9. }
  split; [exact D2|]. split; [exact T2|]. split; [reflexivity|].
  split; assumption.
Qed.

(** ** The cursor state written by the right-hand step *)

Lemma processRightHand_cursor (env : Env) (s : State) (l : list Landmark) :
  let s' := processRightHand env s l in
  active (cursor s') = true /\
  clicking (cursor s') = isPinchingRef s' /\
  lastClickTime (cursor s')
  = (if isPinchingRef s' && negb (isPinchingRef s) then now env
     else lastClickTime (cursor s)) /\
  lastCursorPos s' = cursorPos s'.
Proof.
  unfold processRightHand, cursorPos; cbv zeta.
  match goal with
  | |- context [handleCursorInteraction ?e ?a ?b ?c ?d ?w ?t] =>
      destruct (handleCursorInteraction_keeps e a b c d w t)
        as (_ & _ & Hc & _ & _ & _ & _ & _ & _ & _ & Hl);
      pose proof (handleCursorInteraction_isPinchingRef e a b c d w t) as Hp
  end.
  cbv zeta in Hc, Hl; rewrite Hc, Hp, Hl; simpl; repeat split.
Qed.

(** ** Frames of one hand *)

Lemma predictWebcam_right_only (env : Env) (h : Hand) (s : State) :
  isRight h = true ->
  let p := processRightHand env s (landmarks h) in
  predictWebcam env (Some [h]) s
  = if Rgtb (now env - lastLeftHandTime p) 500 then set_mode AGGREGATE p
    else p.
Proof.
  destruct h as [[|] l]; [discriminate|]; intros _.
  unfold predictWebcam, processHand, isRight, isLeft; simpl.
  reflexivity.
Qed.

(** A sample closed pinch over element [e], from a state that was not
    pinching: the drag session opens on [e]. *)
Lemma sample_pinch_opens_drag (t px py : R) (e : Element) (s : State) :
  isPinchingRef s = false ->
  let s1 := predictWebcam (envAt t (Some e))
              (Some [pinchHand Right px py 0.03]) s in
  isPinchingRef s1 = true /\ isDraggingUI s1 = true /\
  dragTarget s1 = Some e /\ clicking (cursor s1) = true.
Proof.
  intros Hw; cbv zeta.
  rewrite predictWebcam_right_only by reflexivity.
  set (p := processRightHand (envAt t (Some e)) s
              (landmarks (pinchHand Right px py 0.03))).
  assert (Hp : isPinchingRef p = true) by apply pinchHand_closes.
  destruct (processRightHand_anatomy (envAt t (Some e)) s
              (landmarks (pinchHand Right px py 0.03)))
    as (dy & s0 & Hs & _ & _ & _).
  fold p in Hs; rewrite Hp, Hw in Hs.
  destruct (handleCursorInteraction_rising (envAt t (Some e))
              (cur_x (cursor p)) (cur_y (cursor p)) dy s0 e eq_refl)
    as (_ & D & T).
  rewrite <- Hs in D, T.
  assert (C : clicking (cursor p) = true)
    by (unfold p;
        rewrite (proj1 (proj2 (processRightHand_cursor _ _ _))); exact Hp).
  destruct (Rgtb _ 500); simpl; repeat split; assumption.
Qed.

(** ** Losing the right hand during a drag *)

Lemma existsb_isRight_filter (hs : list Hand) :
  filter isRight hs = [] -> existsb isRight hs = false.
Proof.
  induction hs as [|h hs IH]; simpl; [reflexivity|].
  destruct (isRight h); [discriminate | exact IH].
Qed.

(** During a drag the hands of a frame without a Right hand change
    nothing: every Left hand is skipped. *)
Lemma fold_processHand_dragging (env : Env) (hs : list Hand) (s : State) :
  filter isRight hs = [] -> isDraggingUI s = true ->
  fold_left (processHand env) hs s = s.
Proof.
  induction hs as [|h hs IH]; intros HF Hd; simpl; [reflexivity|].
  simpl in HF.
  assert (Hp : processHand env s h = s).
  { unfold processHand, isRight in *; destruct (handedness h);
      [unfold processLeftHand; rewrite Hd; reflexivity | discriminate]. }
  rewrite Hp; apply IH; [|exact Hd].
  destruct (isRight h); [discriminate | exact HF].
Qed.

(** C4 (amended). In a frame that shows no Right hand while a drag
    session is open on element [E], the only event dispatched is a
    single pointer-up on [E], carrying no coordinates and not primary;
    no mouse-up and no click follow; and the drag session is cleared. *)
Theorem C4_hand_loss_cancels_drag (env : Env) (results : option (list Hand))
    (s : State) (E : Element)
    (Hnone : rightHands results = [])
    (Hdrag : isDraggingUI s = true) (Htarget : dragTarget s = Some E) :
  let s' := predictWebcam env results s in
  dispatched s' = dispatched s ++ [mkEvent E pointerup None false] /\
  dispatchedSince s s' = [mkEvent E pointerup None false] /\
  isDraggingUI s' = false /\ dragTarget s' = None.
Proof.
  cbv zeta.
  assert (H : dispatched (predictWebcam env results s)
              = dispatched s ++ [mkEvent E pointerup None false] /\
              isDraggingUI (predictWebcam env results s) = false /\
              dragTarget (predictWebcam env results s) = None).
  { unfold predictWebcam; destruct results as [[|h hs]|].
    - cbv zeta.
      match goal with
      | |- context [resetDrag ?t] =>
          destruct (resetDrag_open t E) as (L & D & T);
            [destruct (Rgtb _ 500); exact Hdrag
            |destruct (Rgtb _ 500); exact Htarget|];
          rewrite L, D, T
      end.
      destruct (Rgtb _ 500); repeat split.
    - unfold rightHands in Hnone; cbv zeta.
      rewrite (fold_processHand_dragging env (h :: hs) s Hnone Hdrag).
      rewrite (existsb_isRight_filter _ Hnone); cbn [negb].
      match goal with
      | |- context [resetDrag ?t] =>
          destruct (resetDrag_open t E) as (L & D & T);
            [repeat break_match; exact Hdrag
            |repeat break_match; exact Htarget|];
          rewrite L, D, T
      end.
      repeat break_match; repeat split.
    - cbv zeta.
      match goal with
      | |- context [resetDrag ?t] =>
          destruct (resetDrag_open t E) as (L & D & T);
            [destruct (Rgtb _ 500); exact Hdrag
            |destruct (Rgtb _ 500); exact Htarget|];
          rewrite L, D, T
      end.
      destruct (Rgtb _ 500); repeat split. }
  destruct H as (L & D & T).
  repeat split; try assumption.
  apply dispatchedSince_app; exact L.
Qed.

Lemma C4_hand_loss_cancels_drag_witness :
  let s1 := predictWebcam (envAt 0 (Some 7%nat))
              (Some [pinchHand Right 0.5 0.5 0.03]) initialState in
  let s2 := predictWebcam (envAt 16 (Some 7%nat)) None s1 in
  rightHands None = [] /\
  isDraggingUI s1 = true /\ dragTarget s1 = Some 7%nat /\
  dispatchedSince s1 s2 = [mkEvent 7%nat pointerup None false] /\
  isDraggingUI s2 = false /\ dragTarget s2 = None.
Proof.
  destruct (sample_pinch_opens_drag 0 0.5 0.5 7%nat initialState eq_refl)
    as (_ & D & T & _).
  destruct (C4_hand_loss_cancels_drag (envAt 16 (Some 7%nat)) None _ 7%nat
              eq_refl D T) as (_ & L & D2 & T2).
  cbv zeta; repeat split; assumption.
Defined.

(** C4 as claimed fails: after a pinch opened a drag on element 7, a
    frame without any hand dispatches one pointer-up and nothing else;
    the release sequence pointer-up, mouse-up, click of the falling edge
    is not what the frame dispatches, and no click is dispatched. *)
Lemma C4_release_sequence_counterexample :
  let s1 := predictWebcam (envAt 0 (Some 7%nat))
              (Some [pinchHand Right 0.5 0.5 0.03]) initialState in
  let s2 := predictWebcam (envAt 16 (Some 7%nat)) None s1 in
  isDraggingUI s1 = true /\ dragTarget s1 = Some 7%nat /\
  rightHands None = [] /\
  map evType (dispatchedSince s1 s2) = [pointerup] /\
  map evType (dispatchedSince s1 s2) <> [pointerup; mouseup; click] /\
  ~ In click (map evType (dispatchedSince s1 s2)).
Proof.
  destruct (sample_pinch_opens_drag 0 0.5 0.5 7%nat initialState eq_refl)
    as (_ & D & T & _).
  cbv zeta.
  set (s1 := predictWebcam (envAt 0 (Some 7%nat)) _ initialState) in *.
  assert (L : dispatchedSince s1 (predictWebcam (envAt 16 (Some 7%nat)) None s1)
              = [mkEvent 7%nat pointerup None false]).
  { apply dispatchedSince_app.
    unfold predictWebcam; cbv zeta.
    match goal with
    | |- context [resetDrag ?t] =>
        destruct (resetDrag_open t 7%nat) as (L & _);
          [destruct (Rgtb _ 500); exact D
          |destruct (Rgtb _ 500); exact T|];
        rewrite L
    end.
    destruct (Rgtb _ 500); reflexivity. }
  rewrite L; simpl.
  repeat split; try assumption; try discriminate.
  intros [H|[]]; discriminate.
Qed.

(** ** Fields the left-hand step leaves alone *)

Lemma processLeftHand_keeps_right (s : State) (l : list Landmark) :
  let s' := processLeftHand s l in
  cursor s' = cursor s /\
  lastLeftHandTime s' = lastLeftHandTime s /\
  cursorX_EMA s' = cursorX_EMA s /\
  cursorY_EMA s' = cursorY_EMA s /\
  isPinchingRef s' = isPinchingRef s /\
  anchorPos s' = anchorPos s /\
  lastCursorPos s' = lastCursorPos s /\
  isDraggingUI s' = isDraggingUI s /\
  dragTarget s' = dragTarget s /\
  lastHoveredElement s' = lastHoveredElement s /\
  scrollTop s' = scrollTop s /\
  dispatched s' = dispatched s.
Proof.
  unfold processLeftHand; destruct (isDraggingUI s) eqn:E; simpl;
    rewrite ?E; repeat split.
Qed.

(** ** Anchor and reported position of the right-hand step *)

Lemma processRightHand_anchor (env : Env) (s : State) (l : list Landmark) :
  let s' := processRightHand env s l in
  anchorPos s'
  = if isPinchingRef s' && negb (isPinchingRef s)
    then Some (smoothedPos env s l)
    else if negb (isPinchingRef s') && isPinchingRef s then None
    else anchorPos s.
Proof.
  unfold processRightHand, smoothedPos; cbv zeta.
  match goal with
  | |- context [handleCursorInteraction ?e ?a ?b ?c ?d ?w ?t] =>
      destruct (handleCursorInteraction_keeps e a b c d w t)
        as (_ & _ & _ & _ & _ & _ & _ & _ & _ & Ha & _);
      pose proof (handleCursorInteraction_isPinchingRef e a b c d w t) as Hp
  end.
  cbv zeta in Ha; rewrite Ha, Hp; cbn [anchorPos isPinchingRef].
  destruct (Rltb _ PINCH_THRESHOLD_ON);
    [|destruct (Rgtb _ PINCH_THRESHOLD_OFF)];
    destruct (isPinchingRef s); cbn [andb negb];
    try reflexivity; destruct (anchorPos s); reflexivity.
Qed.

Lemma processRightHand_output (env : Env) (s : State) (l : list Landmark) :
  let s' := processRightHand env s l in
  let live := smoothedPos env s l in
  cursorPos s'
  = match (if isPinchingRef s' then anchorPos s' else None) with
    | Some a =>
        (lerp (fst a) (fst live) (1 - ANCHOR_STRENGTH),
         lerp (snd a) (snd live) (1 - ANCHOR_STRENGTH))
    | None => live
    end.
Proof.
  cbv zeta; rewrite processRightHand_anchor.
  unfold processRightHand, smoothedPos, cursorPos; cbv zeta.
  match goal with
  | |- context [handleCursorInteraction ?e ?a ?b ?c ?d ?w ?t] =>
      destruct (handleCursorInteraction_keeps e a b c d w t)
        as (_ & _ & Hc & _);
      pose proof (handleCursorInteraction_isPinchingRef e a b c d w t) as Hp
  end.
  cbv zeta in Hc; rewrite Hc, Hp; cbn [cursor cur_x cur_y isPinchingRef].
  destruct (Rltb _ PINCH_THRESHOLD_ON);
    [|destruct (Rgtb _ PINCH_THRESHOLD_OFF)];
    destruct (isPinchingRef s); cbn [andb negb fst snd];
    try reflexivity; destruct (anchorPos s); reflexivity.
Qed.

(** ** What a frame does after its hands are processed *)

Lemma predictWebcam_tail (env : Env) (results : option (list Hand))
    (s : State) :
  let t := match results with
           | Some hs => fold_left (processHand env) hs s
           | None => s
           end in
  let s' := predictWebcam env results s in
  isPinchingRef s' = isPinchingRef t /\
  anchorPos s' = anchorPos t /\
  lastClickTime (cursor s') = lastClickTime (cursor t) /\
  (exists evs,
     dispatched s' = dispatched t ++ evs /\
     Forall (fun ev => evType ev = pointerup) evs).
Proof.
  assert (R : forall u,
            isPinchingRef (resetDrag u) = isPinchingRef u /\
            anchorPos (resetDrag u) = anchorPos u /\
            lastClickTime (cursor (resetDrag u)) = lastClickTime (cursor u) /\
            exists evs,
              dispatched (resetDrag u) = dispatched u ++ evs /\
              Forall (fun ev => evType ev = pointerup) evs).
  { intros u; unfold resetDrag; repeat break_match; simpl; repeat split;
      try (exists []; rewrite app_nil_r; split; [reflexivity|constructor]).
    eexists; split; [reflexivity | repeat constructor]. }
  unfold predictWebcam; destruct results as [[|h hs]|]; cbv zeta.
  - match goal with |- context [resetDrag ?u] =>
      destruct (R u) as (A & B & C & D) end.
    rewrite A, B, C; destruct D as (evs & D & F); rewrite D.
    destruct (Rgtb _ 500); simpl; repeat split; exists evs; split;
      assumption || reflexivity.
  - set (t := fold_left (processHand env) (h :: hs) s).
    destruct (negb (existsb isRight (h :: hs))) eqn:ER.
    + match goal with |- context [resetDrag ?u] =>
        destruct (R u) as (A & B & C & D) end.
      rewrite A, B, C; destruct D as (evs & D & F); rewrite D.
      repeat break_match; simpl; repeat split; exists evs; split;
        assumption || reflexivity.
    + repeat break_match; simpl; repeat split; exists [];
        rewrite app_nil_r; split; reflexivity || constructor.
  - match goal with |- context [resetDrag ?u] =>
      destruct (R u) as (A & B & C & D) end.
    rewrite A, B, C; destruct D as (evs & D & F); rewrite D.
    destruct (Rgtb _ 500); simpl; repeat split; exists evs; split;
      assumption || reflexivity.
Qed.

(** ** A pinch held across frames *)

Lemma processHand_still_pinching (env : Env) (s : State) (h : Hand) :
  isPinchingRef s = true ->
  (isRight h = true -> pinchDistance h < PINCH_THRESHOLD_ON) ->
  let t := processHand env s h in
  isPinchingRef t = true /\
  anchorPos t = anchorPos s /\
  lastClickTime (cursor t) = lastClickTime (cursor s) /\
  exists evs,
    dispatched t = dispatched s ++ evs /\
    Forall (fun ev => isPressEvent ev = false) evs.
Proof.
  intros Hp Hd; unfold processHand, isRight in *.
  destruct (handedness h).
  - destruct (processLeftHand_keeps_right s (landmarks h))
      as (C & _ & _ & _ & P & A & _ & _ & _ & _ & _ & L).
    cbv zeta; rewrite C, P, A, L; repeat split; try assumption.
    exists []; rewrite app_nil_r; split; [reflexivity | constructor].
  - specialize (Hd eq_refl).
    assert (Hn : isPinchingRef (processRightHand env s (landmarks h)) = true).
    { rewrite processRightHand_isPinchingRef.
      apply Rltb_true in Hd; rewrite Hd; reflexivity. }
    cbv zeta; split; [exact Hn|].
    rewrite processRightHand_anchor, Hn, Hp; cbn [andb negb].
    split; [reflexivity|].
    destruct (processRightHand_cursor env s (landmarks h))
      as (_ & _ & T & _).
    rewrite T, Hn, Hp; cbn [andb negb]; split; [reflexivity|].
    destruct (processRightHand_anatomy env s (landmarks h))
      as (dy & s0 & Hs & Hlog & _).
    rewrite Hn, Hp in Hs.
    destruct (handleCursorInteraction_no_press env
                (cur_x (cursor (processRightHand env s (landmarks h))))
                (cur_y (cursor (processRightHand env s (landmarks h))))
                dy true true s0 eq_refl) as (evs & L & F).
    rewrite <- Hs, Hlog in L.
    exists evs; split; assumption.
Qed.

Lemma fold_processHand_still_pinching (env : Env) (hs : list Hand)
    (s : State) :
  isPinchingRef s = true ->
  Forall (fun h => pinchDistance h < PINCH_THRESHOLD_ON)
    (filter isRight hs) ->
  let t := fold_left (processHand env) hs s in
  isPinchingRef t = true /\
  anchorPos t = anchorPos s /\
  lastClickTime (cursor t) = lastClickTime (cursor s) /\
  exists evs,
    dispatched t = dispatched s ++ evs /\
    Forall (fun ev => isPressEvent ev = false) evs.
Proof.
  revert s; induction hs as [|h hs IH]; intros s Hp HF; simpl.
  - repeat split; try assumption.
    exists []; rewrite app_nil_r; split; [reflexivity | constructor].
  - simpl in HF.
    destruct (processHand_still_pinching env s h Hp) as (P & A & T & evs & L & F).
    { intros Hr; rewrite Hr in HF; inversion HF; assumption. }
    destruct (IH (processHand env s h) P) as (P' & A' & T' & evs' & L' & F').
    { destruct (isRight h); [inversion HF|]; assumption. }
    rewrite A', T', L', L, <- app_assoc; repeat split; try assumption.
    exists (evs ++ evs'); split; [reflexivity|].
    apply Forall_app; split; assumption.
Qed.

Lemma predictWebcam_still_pinching (env : Env)
    (results : option (list Hand)) (s : State) :
  isPinchingRef s = true ->
  Forall (fun h => pinchDistance h < PINCH_THRESHOLD_ON)
    (rightHands results) ->
  let s' := predictWebcam env results s in
  isPinchingRef s' = true /\
  anchorPos s' = anchorPos s /\
  lastClickTime (cursor s') = lastClickTime (cursor s) /\
  exists evs,
    dispatched s' = dispatched s ++ evs /\
    Forall (fun ev => isPressEvent ev = false) evs.
Proof.
  intros Hp HF.
  destruct (predictWebcam_tail env results s) as (P & A & T & evs & L & F).
  assert (F' : Forall (fun ev => isPressEvent ev = false) evs).
  { eapply Forall_impl; [|exact F]; intros ev E; unfold isPressEvent;
      rewrite E; reflexivity. }
  cbv zeta; rewrite P, A, T, L.
  destruct results as [hs|].
  - destruct (fold_processHand_still_pinching env hs s Hp HF)
      as (P' & A' & T' & evs' & L' & F'').
    rewrite L', <- app_assoc; repeat split; try assumption.
    exists (evs' ++ evs); split; [reflexivity|].
    apply Forall_app; split; assumption.
  - repeat split; try assumption.
    exists evs; split; [reflexivity | assumption].
Qed.

(** C10. The debounced pinch state survives the loss of the right hand:
    if the state is pinching, then after any run of frames without a
    Right hand it is still pinching, and a following frame whose Right
    hand is below the ON threshold shows no rising edge: no pointer-down
    or mouse-down is dispatched, the anchor is the one held before the
    hand was lost, and [lastClickTime] keeps its value. *)
Theorem C10_pinch_survives_hand_loss (s : State)
    (gap : list (Env * option (list Hand)))
    (env : Env) (results : option (list Hand))
    (Hpinch : isPinchingRef s = true)
    (Hgap : Forall (fun f => rightHands (snd f) = []) gap)
    (Hback : Forall (fun h => pinchDistance h < PINCH_THRESHOLD_ON)
               (rightHands results)) :
  let s1 := runFrames gap s in
  let s2 := predictWebcam env results s1 in
  isPinchingRef s1 = true /\
  isPinchingRef s2 = true /\
  Forall (fun ev => isPressEvent ev = false) (dispatchedSince s1 s2) /\
  anchorPos s2 = anchorPos s /\
  lastClickTime (cursor s2) = lastClickTime (cursor s).
Proof.
  cbv zeta.
  assert (G : isPinchingRef (runFrames gap s) = true /\
              anchorPos (runFrames gap s) = anchorPos s /\
              lastClickTime (cursor (runFrames gap s))
              = lastClickTime (cursor s)).
  { clear Hback; revert s Hpinch.
    induction gap as [|[e r] gap IH]; intros s Hp; simpl; [repeat split; exact Hp|].
    inversion Hgap as [|? ? Hhd Htl]; subst; simpl in Hhd.
    destruct (predictWebcam_still_pinching e r s Hp) as (P & A & T & _).
    { rewrite Hhd; constructor. }
    destruct (IH Htl _ P) as (P' & A' & T').
    rewrite A', T', A, T; repeat split; exact P'. }
  destruct G as (P1 & A1 & T1).
  destruct (predictWebcam_still_pinching env results _ P1 Hback)
    as (P2 & A2 & T2 & evs & L & F).
  rewrite A2, T2, A1, T1, (dispatchedSince_app _ _ _ L).
  repeat split; assumption.
Qed.

Lemma C10_pinch_survives_hand_loss_witness :
  let s := predictWebcam (envAt 0 (Some 7%nat))
             (Some [pinchHand Right 0.5 0.5 0.03]) initialState in
  let gap := [(envAt 16 (Some 7%nat), None);
              (envAt 32 (Some 7%nat), Some [pinchHand Left 0.5 0.5 0.1])] in
  let s1 := runFrames gap s in
  let s2 := predictWebcam (envAt 48 (Some 7%nat))
              (Some [pinchHand Right 0.5 0.5 0.03]) s1 in
  isPinchingRef s = true /\
  isPinchingRef s1 = true /\
  isPinchingRef s2 = true /\
  Forall (fun ev => isPressEvent ev = false) (dispatchedSince s1 s2) /\
  anchorPos s2 = anchorPos s /\
  lastClickTime (cursor s2) = lastClickTime (cursor s).
Proof.
  destruct (sample_pinch_opens_drag 0 0.5 0.5 7%nat initialState eq_refl)
    as (P & _).
  cbv zeta; split; [exact P|].
  apply (C10_pinch_survives_hand_loss _
           [(envAt 16 (Some 7%nat), None);
            (envAt 32 (Some 7%nat), Some [pinchHand Left 0.5 0.5 0.1])]
           (envAt 48 (Some 7%nat)) (Some [pinchHand Right 0.5 0.5 0.03]) P).
  - repeat constructor.
  - repeat constructor; simpl.
    rewrite pinchHand_distance by lra; unfold PINCH_THRESHOLD_ON; lra.
Defined.

(** ** Anchoring *)

(** On every state the loop can reach, a pinching state holds an anchor. *)
Lemma processHand_anchor_held (env : Env) (s : State) (h : Hand) :
  (isPinchingRef s = true -> anchorPos s <> None) ->
  isPinchingRef (processHand env s h) = true ->
  anchorPos (processHand env s h) <> None.
Proof.
  intros Inv; unfold processHand; destruct (handedness h).
  - destruct (processLeftHand_keeps_right s (landmarks h))
      as (_ & _ & _ & _ & P & A & _).
    rewrite P, A; exact Inv.
  - intros Hn; rewrite processRightHand_anchor, Hn; cbn [andb negb].
    destruct (isPinchingRef s); cbn [negb]; [auto | discriminate].
Qed.

Lemma fold_processHand_anchor_held (env : Env) (hs : list Hand) (s : State) :
  (isPinchingRef s = true -> anchorPos s <> None) ->
  isPinchingRef (fold_left (processHand env) hs s) = true ->
  anchorPos (fold_left (processHand env) hs s) <> None.
Proof.
  revert s; induction hs as [|h hs IH]; intros s Inv; simpl; [exact Inv|].
  apply IH; apply processHand_anchor_held; exact Inv.
Qed.

Lemma runFrames_anchor_held (fs : list (Env * option (list Hand)))
    (s : State) :
  (isPinchingRef s = true -> anchorPos s <> None) ->
  isPinchingRef (runFrames fs s) = true ->
  anchorPos (runFrames fs s) <> None.
Proof.
  revert s; induction fs as [|[env r] fs IH]; intros s Inv; simpl;
    [exact Inv|].
  apply IH.
  destruct (predictWebcam_tail env r s) as (P & A & _).
  rewrite P, A; destruct r as [hs|]; [|exact Inv].
  apply fold_processHand_anchor_held; exact Inv.
Qed.

(** C6. Anchoring in the right-hand step.  On the pinch rising edge the
    anchor becomes the smoothed position of that frame.  While the pinch
    is sustained with anchor [A], the anchor stays [A] and the reported
    position is, per axis, 0.95 times [A] plus 0.05 times the live
    smoothed position; so on each axis where they differ it lies strictly
    between the two and strictly closer to [A], and when the points
    differ it is strictly closer to [A] than to the live position.  On
    the falling edge the anchor is cleared, and whenever the step ends
    not pinching the reported position is the live smoothed position.
    A pinching state reached by the loop always holds an anchor. *)
Theorem C6_anchoring (env : Env) (s : State) (h : Hand) :
  let s' := processRightHand env s (landmarks h) in
  let live := smoothedPos env s (landmarks h) in
  let out := cursorPos s' in
  ANCHOR_STRENGTH = 0.95 /\
  (isPinchingRef s = false -> isPinchingRef s' = true ->
   anchorPos s' = Some live) /\
  (forall A,
     isPinchingRef s = true -> isPinchingRef s' = true ->
     anchorPos s = Some A ->
     anchorPos s' = Some A /\
     out = (0.95 * fst A + 0.05 * fst live, 0.95 * snd A + 0.05 * snd live) /\
     (fst A < fst live ->
      fst A < fst out < fst live /\ fst out - fst A < fst live - fst out) /\
     (fst live < fst A ->
      fst live < fst out < fst A /\ fst A - fst out < fst out - fst live) /\
     (snd A < snd live ->
      snd A < snd out < snd live /\ snd out - snd A < snd live - snd out) /\
     (snd live < snd A ->
      snd live < snd out < snd A /\ snd A - snd out < snd out - snd live) /\
     (fst A <> fst live \/ snd A <> snd live ->
      (fst out - fst A) ^ 2 + (snd out - snd A) ^ 2
      < (fst out - fst live) ^ 2 + (snd out - snd live) ^ 2)) /\
  (isPinchingRef s = true -> isPinchingRef s' = false ->
   anchorPos s' = None) /\
  (isPinchingRef s' = false -> out = live) /\
  (forall fs,
     isPinchingRef (runFrames fs initialState) = true ->
     anchorPos (runFrames fs initialState) <> None).
Proof.
  cbv zeta; split; [reflexivity|].
  pose proof (processRightHand_anchor env s (landmarks h)) as HA.
  pose proof (processRightHand_output env s (landmarks h)) as HO.
  cbv zeta in HA, HO.
  set (s' := processRightHand env s (landmarks h)) in *.
  set (live := smoothedPos env s (landmarks h)) in *.
  split; [|split; [|split; [|split]]].
  - intros Hw Hn; rewrite HA, Hn, Hw; reflexivity.
  - intros A Hw Hn Ha.
    assert (Ha' : anchorPos s' = Some A)
      by (rewrite HA, Hn, Hw; exact Ha).
    rewrite Hn, Ha' in HO.
    assert (Hout : cursorPos s'
                   = (0.95 * fst A + 0.05 * fst live,
                      0.95 * snd A + 0.05 * snd live)).
    { rewrite HO; unfold lerp, ANCHOR_STRENGTH; f_equal; lra. }
    split; [exact Ha'|]. split; [exact Hout|].
    rewrite Hout; cbn [fst snd].
    repeat split; try lra.
    intros Hd.
    remember (fst live - fst A) as d1 eqn:E1.
    remember (snd live - snd A) as d2 eqn:E2.
    assert (Hpos : 0 < d1 ^ 2 + d2 ^ 2).
    { pose proof (pow2_ge_0 d1); pose proof (pow2_ge_0 d2).
      destruct Hd as [Hd|Hd].
      - assert (0 < d1 ^ 2)
          by (rewrite <- Rsqr_pow2; apply Rsqr_pos_lt; lra).
        lra.
      - assert (0 < d2 ^ 2)
          by (rewrite <- Rsqr_pow2; apply Rsqr_pos_lt; lra).
        lra. }
    replace (0.95 * fst A + 0.05 * fst live - fst A) with (0.05 * d1) by lra.
    replace (0.95 * snd A + 0.05 * snd live - snd A) with (0.05 * d2) by lra.
    replace (0.95 * fst A + 0.05 * fst live - fst live) with (- 0.95 * d1)
      by lra.
    replace (0.95 * snd A + 0.05 * snd live - snd live) with (- 0.95 * d2)
      by lra.
    clear - Hpos.
    replace ((0.05 * d1) ^ 2 + (0.05 * d2) ^ 2)
      with (0.0025 * (d1 ^ 2 + d2 ^ 2)) by (simpl; nra).
    replace ((- 0.95 * d1) ^ 2 + (- 0.95 * d2) ^ 2)
      with (0.9025 * (d1 ^ 2 + d2 ^ 2)) by (simpl; nra).
    lra.
  - intros Hw Hn; rewrite HA, Hn, Hw; reflexivity.
  - intros Hn; rewrite HO, Hn; reflexivity.
  - intros fs; apply runFrames_anchor_held; discriminate.
Qed.

Lemma C6_anchoring_witness :
  let env1 := envAt 0 None in
  let env2 := envAt 16 None in
  let h1 := pinchHand Right 0.5 0.5 0.03 in
  let h2 := pinchHand Right 0.3 0.5 0.03 in
  let s1 := processRightHand env1 initialState (landmarks h1) in
  let s2 := processRightHand env2 s1 (landmarks h2) in
  let A := smoothedPos env1 initialState (landmarks h1) in
  let live := smoothedPos env2 s1 (landmarks h2) in
  anchorPos s1 = Some A /\
  anchorPos s2 = Some A /\
  cursorPos s2
  = (0.95 * fst A + 0.05 * fst live, 0.95 * snd A + 0.05 * snd live).
Proof.
  cbv zeta.
  pose proof (pinchHand_closes (envAt 0 None) initialState 0.5 0.5) as P1.
  pose proof (pinchHand_closes (envAt 16 None)
                (processRightHand (envAt 0 None) initialState
                   (landmarks (pinchHand Right 0.5 0.5 0.03))) 0.3 0.5) as P2.
  destruct (C6_anchoring (envAt 0 None) initialState
              (pinchHand Right 0.5 0.5 0.03)) as (_ & R1 & _).
  specialize (R1 eq_refl P1).
  destruct (C6_anchoring (envAt 16 None)
              (processRightHand (envAt 0 None) initialState
                 (landmarks (pinchHand Right 0.5 0.5 0.03)))
              (pinchHand Right 0.3 0.5 0.03)) as (_ & _ & R2 & _).
  destruct (R2 _ P1 P2 R1) as (A2 & O2 & _).
  repeat split; assumption.
Defined.

(** ** The cursor state after a frame *)

Lemma predictWebcam_cursor (env : Env) (results : option (list Hand))
    (s : State) :
  cursor (predictWebcam env results s)
  = match results with
    | Some (h :: hs) =>
        let t := fold_left (processHand env) (h :: hs) s in
        if existsb isRight (h :: hs) then cursor t
        else mkCursor (cur_x (cursor t)) (cur_y (cursor t)) false false
               (lastClickTime (cursor t))
    | _ =>
        mkCursor (cur_x (cursor s)) (cur_y (cursor s)) false
          (clicking (cursor s)) (lastClickTime (cursor s))
    end.
Proof.
  unfold predictWebcam; destruct results as [[|h hs]|]; cbv zeta;
    rewrite ?(proj1 (proj2 (resetDrag_keeps _)));
    try (destruct (Rgtb _ 500); reflexivity).
  destruct (existsb isRight (h :: hs)); cbn [negb];
    rewrite ?(proj1 (proj2 (resetDrag_keeps _)));
    repeat break_match; reflexivity.
Qed.

Lemma existsb_isRight_rightHands (hs : list Hand) :
  existsb isRight hs = true <-> filter isRight hs <> [].
Proof.
  induction hs as [|h hs IH]; simpl.
  - split; [discriminate | intros H; exfalso; apply H; reflexivity].
  - destruct (isRight h); simpl; [split; [discriminate | reflexivity]|].
    exact IH.
Qed.

(** Once a Right hand has been processed, [active] is set and
    [clicking] is the pinch state, and the remaining hands keep it so. *)
Lemma processHand_synced (env : Env) (s : State) (h : Hand) :
  isRight h = true \/
  (active (cursor s) = true /\ clicking (cursor s) = isPinchingRef s) ->
  active (cursor (processHand env s h)) = true /\
  clicking (cursor (processHand env s h))
  = isPinchingRef (processHand env s h).
Proof.
  unfold processHand, isRight; destruct (handedness h); intros H.
  - destruct H as [H|H]; [discriminate|].
    destruct (processLeftHand_keeps_right s (landmarks h))
      as (C & _ & _ & _ & P & _).
    rewrite C, P; exact H.
  - destruct (processRightHand_cursor env s (landmarks h)) as (A & C & _).
    split; assumption.
Qed.

Lemma fold_processHand_synced (env : Env) (hs : list Hand) (s : State) :
  existsb isRight hs = true \/
  (active (cursor s) = true /\ clicking (cursor s) = isPinchingRef s) ->
  let t := fold_left (processHand env) hs s in
  active (cursor t) = true /\ clicking (cursor t) = isPinchingRef t.
Proof.
  revert s; induction hs as [|h hs IH]; intros s H; simpl.
  - destruct H as [H|H]; [discriminate | exact H].
  - apply IH; simpl in H.
    destruct (isRight h) eqn:E; simpl in H.
    + right; apply processHand_synced; left; exact E.
    + destruct H as [H|H]; [left; exact H|].
      right; apply processHand_synced; right; exact H.
Qed.

Lemma fold_processHand_lastClickTime (env : Env) (hs : list Hand)
    (s : State) :
  (forall pre h post,
     hs = pre ++ h :: post -> isRight h = true ->
     isPinchingRef (fold_left (processHand env) pre s) = false ->
     isPinchingRef (processHand env (fold_left (processHand env) pre s) h)
     = true -> False) ->
  lastClickTime (cursor (fold_left (processHand env) hs s))
  = lastClickTime (cursor s).
Proof.
  revert s; induction hs as [|h hs IH]; intros s H; simpl; [reflexivity|].
  rewrite IH.
  - pose proof (H [] h hs eq_refl) as H0; simpl in H0.
    unfold processHand, isRight in *; destruct (handedness h).
    + destruct (processLeftHand_keeps_right s (landmarks h)) as (C & _).
      rewrite C; reflexivity.
    + destruct (processRightHand_cursor env s (landmarks h))
        as (_ & _ & T & _).
      rewrite T.
      destruct (isPinchingRef (processRightHand env s (landmarks h)));
        destruct (isPinchingRef s); cbn [andb negb]; try reflexivity.
      exfalso; apply H0; reflexivity.
  - intros pre h' post E; apply (H (h :: pre) h' post); rewrite E; reflexivity.
Qed.

(** C8 (amended). After every frame: [active] is true exactly when the
    detector's answer held a Right hand; in every frame that held a Right
    hand [clicking] equals the debounced pinch state, and a frame that
    held none keeps the debounced pinch state; and unless a pinch rising
    edge occurs in the frame, [lastClickTime] keeps its value. *)
Theorem C8_cursor_state (env : Env) (results : option (list Hand))
    (s : State) :
  let s' := predictWebcam env results s in
  (active (cursor s') = true <-> rightHands results <> []) /\
  (rightHands results <> [] -> clicking (cursor s') = isPinchingRef s') /\
  (~ risingEdgeIn env results s ->
   lastClickTime (cursor s') = lastClickTime (cursor s)) /\
  (rightHands results = [] -> isPinchingRef s' = isPinchingRef s).
Proof.
  cbv zeta.
  pose proof (predictWebcam_cursor env results s) as HC.
  destruct (predictWebcam_tail env results s) as (HP & _ & HT & _).
  split; [|split; [|split]]; cycle 3.
  - intros HR; rewrite HP; destruct results as [hs|]; [|reflexivity].
    apply fold_processHand_dead_band; unfold rightHands in HR.
    rewrite HR; constructor.
  - rewrite HC; destruct results as [[|h hs]|]; unfold rightHands.
    + simpl; split; [discriminate | intros H; exfalso; apply H; reflexivity].
    + cbv zeta; rewrite <- existsb_isRight_rightHands.
      destruct (existsb isRight (h :: hs)) eqn:E.
      * split; [reflexivity|]; intros _.
        apply (fold_processHand_synced env (h :: hs) s); left; exact E.
      * simpl; split; discriminate.
    + simpl; split; [discriminate | intros H; exfalso; apply H; reflexivity].
  - intros HR; rewrite HC, HP.
    destruct results as [[|h hs]|]; unfold rightHands in HR;
      try (exfalso; apply HR; reflexivity).
    apply existsb_isRight_rightHands in HR.
    cbv zeta; rewrite HR.
    apply (fold_processHand_synced env (h :: hs) s); left; exact HR.
  - intros HN; rewrite HT.
    destruct results as [hs|]; [|reflexivity].
    apply fold_processHand_lastClickTime.
    intros pre h post E R W N; apply HN.
    exists pre, h, post; rewrite E; repeat split; assumption.
Qed.

Lemma C8_cursor_state_witness :
  let s1 := predictWebcam (envAt 0 (Some 7%nat))
              (Some [pinchHand Right 0.5 0.5 0.03]) initialState in
  let s2 := predictWebcam (envAt 16 (Some 7%nat))
              (Some [pinchHand Left 0.5 0.5 0.1]) s1 in
  rightHands (Some [pinchHand Right 0.5 0.5 0.03]) <> [] /\
  active (cursor s1) = true /\
  clicking (cursor s1) = isPinchingRef s1 /\
  ~ risingEdgeIn (envAt 16 (Some 7%nat))
      (Some [pinchHand Left 0.5 0.5 0.1]) s1 /\
  lastClickTime (cursor s2) = lastClickTime (cursor s1).
Proof.
  cbv zeta.
  assert (HR : rightHands (Some [pinchHand Right 0.5 0.5 0.03]) <> [])
    by discriminate.
  destruct (C8_cursor_state (envAt 0 (Some 7%nat))
              (Some [pinchHand Right 0.5 0.5 0.03]) initialState)
    as (A & C & _ & _).
  set (s1 := predictWebcam (envAt 0 (Some 7%nat))
               (Some [pinchHand Right 0.5 0.5 0.03]) initialState) in *.
  assert (HN : ~ risingEdgeIn (envAt 16 (Some 7%nat))
                 (Some [pinchHand Left 0.5 0.5 0.1]) s1).
  { intros (pre & h & post & E & R & _).
    destruct pre as [|h0 [|h1 pre]]; inversion E; subst; discriminate. }
  destruct (C8_cursor_state (envAt 16 (Some 7%nat))
              (Some [pinchHand Left 0.5 0.5 0.1]) s1) as (_ & _ & T & _).
  split; [exact HR|]. split; [exact (proj2 A HR)|].
  split; [exact (C HR)|]. split; [exact HN | exact (T HN)].
Defined.

(** C8 as claimed fails on [clicking]: a pinch of the right hand makes
    the pinch state and [clicking] true; the next frame shows a Left
    hand only, and after it [clicking] is false while the debounced
    pinch state is still true. *)
Lemma C8_clicking_counterexample :
  let s1 := predictWebcam (envAt 0 (Some 7%nat))
              (Some [pinchHand Right 0.5 0.5 0.03]) initialState in
  let s2 := predictWebcam (envAt 16 (Some 7%nat))
              (Some [pinchHand Left 0.5 0.5 0.1]) s1 in
  isPinchingRef s1 = true /\ clicking (cursor s1) = true /\
  isPinchingRef s2 = true /\ clicking (cursor s2) = false /\
  clicking (cursor s2) <> isPinchingRef s2.
Proof.
  destruct (sample_pinch_opens_drag 0 0.5 0.5 7%nat initialState eq_refl)
    as (P & _ & _ & C).
  cbv zeta.
  set (s1 := predictWebcam (envAt 0 (Some 7%nat))
               (Some [pinchHand Right 0.5 0.5 0.03]) initialState) in *.
  assert (P2 : isPinchingRef
                 (predictWebcam (envAt 16 (Some 7%nat))
                    (Some [pinchHand Left 0.5 0.5 0.1]) s1) = true).
  { apply (predictWebcam_still_pinching (envAt 16 (Some 7%nat))
             (Some [pinchHand Left 0.5 0.5 0.1]) s1 P).
    constructor. }
  assert (C2 : clicking
                 (cursor
                    (predictWebcam (envAt 16 (Some 7%nat))
                       (Some [pinchHand Left 0.5 0.5 0.1]) s1)) = false).
  { rewrite predictWebcam_cursor; reflexivity. }
  rewrite P2, C2; repeat split; try assumption; discriminate.
Qed.

(** ** Left and right steps of one frame *)

Lemma processLeftHand_as_set_left (s : State) (l : list Landmark) :
  let s' := processLeftHand s l in
  s' = set_left (mode s') (scrollOffset s') (leftHandX_EMA s')
         (leftPinchSmoother s') (leftOpenPalmSmoother s') s.
Proof.
  destruct s; unfold processLeftHand; cbn.
  match goal with |- context [if ?b then _ else _] => destruct b end;
    reflexivity.
Qed.

(** What the left-hand step writes depends on the fields it writes and
    on the drag flag only. *)
Lemma processLeftHand_reads (s1 s2 : State) (l : list Landmark) :
  mode s1 = mode s2 ->
  scrollOffset s1 = scrollOffset s2 ->
  leftHandX_EMA s1 = leftHandX_EMA s2 ->
  leftPinchSmoother s1 = leftPinchSmoother s2 ->
  leftOpenPalmSmoother s1 = leftOpenPalmSmoother s2 ->
  isDraggingUI s1 = isDraggingUI s2 ->
  let a := processLeftHand s1 l in
  let b := processLeftHand s2 l in
  mode a = mode b /\ scrollOffset a = scrollOffset b /\
  leftHandX_EMA a = leftHandX_EMA b /\
  leftPinchSmoother a = leftPinchSmoother b /\
  leftOpenPalmSmoother a = leftOpenPalmSmoother b.
Proof.
  intros M S X P O D; unfold processLeftHand; rewrite D.
  destruct (isDraggingUI s2); cbn; rewrite ?M, ?S, ?X, ?P, ?O; repeat split.
Qed.

Lemma hoverSimulation_set_left env px py m so hx p o s :
  hoverSimulation env px py (set_left m so hx p o s)
  = set_left m so hx p o (hoverSimulation env px py s).
Proof.
  unfold hoverSimulation.
  change (lastHoveredElement (set_left m so hx p o s))
    with (lastHoveredElement s).
  destruct (elementFromPoint env px py) as [e|];
    destruct (lastHoveredElement s) as [old|]; cbn;
    try (destruct (Nat.eqb e old)); reflexivity.
Qed.

Lemma handleCursorInteraction_set_left env px py dy isDown wasDown
    m so hx p o s :
  handleCursorInteraction env px py dy isDown wasDown (set_left m so hx p o s)
  = set_left m so hx p o
      (handleCursorInteraction env px py dy isDown wasDown s).
Proof.
  unfold handleCursorInteraction; rewrite hoverSimulation_set_left.
  set (H := hoverSimulation env px py s).
  change (dragTarget (set_left m so hx p o H)) with (dragTarget H).
  change (isDraggingUI (set_left m so hx p o H)) with (isDraggingUI H).
  change (scrollTop (set_left m so hx p o H)) with (scrollTop H).
  destruct (isDown && negb wasDown).
  - destruct (elementFromPoint env px py); reflexivity.
  - destruct (dragTarget H) as [t|]; [|reflexivity].
    destruct (isDown && wasDown && isDraggingUI H).
    + destruct (scrollContainer env) as [c|]; [|reflexivity].
      destruct (Nat.eqb c t || contains env c t); reflexivity.
    + destruct (negb isDown && wasDown && isDraggingUI H); reflexivity.
Qed.

Lemma processRightHand_set_left env m so hx p o s l :
  processRightHand env (set_left m so hx p o s) l
  = set_left m so hx p o (processRightHand env s l).
Proof.
  unfold processRightHand; cbv zeta.
  rewrite <- handleCursorInteraction_set_left; reflexivity.
Qed.

(** The step-level statement: when the right-hand step leaves the drag
    flag as it found it, the two steps commute on the whole state. *)
Lemma processHands_commute (env : Env) (s : State) (l r : list Landmark) :
  isDraggingUI (processRightHand env s r) = isDraggingUI s ->
  processLeftHand (processRightHand env s r) l
  = processRightHand env (processLeftHand s l) r.
Proof.
  intros Hd.
  destruct (processRightHand_keeps_left env s r)
    as (M & S & _ & X & P & O).
  destruct (processLeftHand_reads (processRightHand env s r) s l
              M S X P O Hd) as (M' & S' & X' & P' & O').
  rewrite (processLeftHand_as_set_left (processRightHand env s r) l).
  rewrite M', S', X', P', O'.
  rewrite (processLeftHand_as_set_left s l) at 6.
  rewrite processRightHand_set_left; reflexivity.
Qed.

(** A frame with one Left and one Right hand, in either order. *)
Lemma predictWebcam_two_hands (env : Env) (s : State)
    (l r : list Landmark) :
  let lr := fold_left (processHand env) [mkHand Left l; mkHand Right r] s in
  let rl := fold_left (processHand env) [mkHand Right r; mkHand Left l] s in
  lr = processRightHand env (processLeftHand s l) r /\
  rl = processLeftHand (processRightHand env s r) l /\
  predictWebcam env (Some [mkHand Left l; mkHand Right r]) s
  = set_lastLeftHandTime (now env) lr /\
  predictWebcam env (Some [mkHand Right r; mkHand Left l]) s
  = set_lastLeftHandTime (now env) rl.
Proof. repeat split. Qed.

(** C3 (amended). The left-hand step reads the drag flag that the
    right-hand dispatcher writes, and is skipped while a drag is open.
    Apart from that flag the two steps share no state: for every
    starting state and every pair of hands, when the right-hand step
    leaves the drag flag as it found it, left-then-right and
    right-then-left give the same state (mode, scroll offset, cursor,
    drag state and all the rest), for the steps and for the frame. *)
Theorem C3_left_right_commute (env : Env) (s : State) (l r : list Landmark)
    (Hdrag : isDraggingUI (processRightHand env s r) = isDraggingUI s) :
  processLeftHand (processRightHand env s r) l
  = processRightHand env (processLeftHand s l) r /\
  predictWebcam env (Some [mkHand Right r; mkHand Left l]) s
  = predictWebcam env (Some [mkHand Left l; mkHand Right r]) s.
Proof.
  pose proof (processHands_commute env s l r Hdrag) as H.
  split; [exact H|].
  destruct (predictWebcam_two_hands env s l r) as (A & B & C & D).
  cbv zeta in *; rewrite C, D, A, B, H; reflexivity.
Qed.

(** Over a document with no element under the cursor and no drag
    target held, the right-hand step leaves the drag flag alone. *)
Lemma processRightHand_no_element (env : Env) (s : State)
    (l : list Landmark) :
  (forall px py, elementFromPoint env px py = None) ->
  dragTarget s = None ->
  isDraggingUI (processRightHand env s l) = isDraggingUI s.
Proof.
  intros He Ht.
  destruct (processRightHand_anatomy env s l)
    as (dy & s0 & Hs & _ & Hd & Ht0).
  rewrite Hs, <- Hd; rewrite Ht in Ht0.
  unfold handleCursorInteraction; rewrite He.
  destruct (hoverSimulation_keeps env
              (cur_x (cursor (processRightHand env s l)))
              (cur_y (cursor (processRightHand env s l))) s0)
    as (K1 & K2 & _).
  rewrite K2, Ht0; destruct (_ && negb _); exact K1.
Qed.

Lemma C3_left_right_commute_witness :
  let env := envAt 0 None in
  let l := landmarks (pinchHand Left 0.5 0.5 0.03) in
  let r := landmarks (pinchHand Right 0.5 0.5 0.03) in
  isDraggingUI (processRightHand env initialState r)
  = isDraggingUI initialState /\
  processLeftHand (processRightHand env initialState r) l
  = processRightHand env (processLeftHand initialState l) r.
Proof.
  cbv zeta.
  assert (H : isDraggingUI
                (processRightHand (envAt 0 None) initialState
                   (landmarks (pinchHand Right 0.5 0.5 0.03)))
              = isDraggingUI initialState)
    by (apply processRightHand_no_element; reflexivity).
  split; [exact H|].
  exact (proj1 (C3_left_right_commute (envAt 0 None) initialState
                  (landmarks (pinchHand Left 0.5 0.5 0.03))
                  (landmarks (pinchHand Right 0.5 0.5 0.03)) H)).
Defined.

(** C3 as claimed fails: from the initial state, over element 7, a
    closed Left pinch and a closed Right pinch in one frame.  Left first,
    the mode becomes FOCUS; Right first, the Right pinch opens a drag on
    element 7, the Left hand is skipped and the mode stays AGGREGATE. *)
Lemma C3_order_matters_counterexample :
  let env := envAt 0 (Some 7%nat) in
  let L := pinchHand Left 0.5 0.5 0.03 in
  let R := pinchHand Right 0.5 0.5 0.03 in
  mode (processRightHand env (processLeftHand initialState (landmarks L))
          (landmarks R)) = FOCUS /\
  mode (processLeftHand (processRightHand env initialState (landmarks R))
          (landmarks L)) = AGGREGATE /\
  mode (predictWebcam env (Some [L; R]) initialState) = FOCUS /\
  mode (predictWebcam env (Some [R; L]) initialState) = AGGREGATE.
Proof.
  cbv zeta.
  set (env := envAt 0 (Some 7%nat)).
  set (l := landmarks (pinchHand Left 0.5 0.5 0.03)).
  set (r := landmarks (pinchHand Right 0.5 0.5 0.03)).
  assert (HL : mode (processLeftHand initialState l) = FOCUS).
  { destruct (first_pinch_frame 0) as ((M & _) & _).
    destruct (predictWebcam_left_only (envAt 0 None)
                (pinchHand Left 0.5 0.5 0.03) initialState eq_refl eq_refl)
      as (M' & _).
    cbv zeta in M'; unfold l; rewrite <- M'; exact M. }
  assert (H1 : mode (processRightHand env (processLeftHand initialState l) r)
               = FOCUS).
  { rewrite (proj1 (processRightHand_keeps_left env _ r)); exact HL. }
  assert (HD : isDraggingUI (processRightHand env initialState r) = true).
  { pose proof (pinchHand_closes env initialState 0.5 0.5) as P; fold r in P.
    destruct (processRightHand_anatomy env initialState r)
      as (dy & s0 & Hs & _).
    rewrite P in Hs; change (isPinchingRef initialState) with false in Hs.
    destruct (handleCursorInteraction_rising env
                (cur_x (cursor (processRightHand env initialState r)))
                (cur_y (cursor (processRightHand env initialState r)))
                dy s0 7%nat eq_refl) as (_ & D & _).
    rewrite <- Hs in D; exact D. }
  assert (H2 : mode (processLeftHand (processRightHand env initialState r) l)
               = AGGREGATE).
  { unfold processLeftHand; rewrite HD.
    rewrite (proj1 (processRightHand_keeps_left env initialState r)).
    reflexivity. }
  destruct (predictWebcam_two_hands env initialState l r)
    as (A & B & C & D).
  cbv zeta in *.
  change ([pinchHand Left 0.5 0.5 0.03; pinchHand Right 0.5 0.5 0.03])
    with ([mkHand Left l; mkHand Right r]).
  change ([pinchHand Right 0.5 0.5 0.03; pinchHand Left 0.5 0.5 0.03])
    with ([mkHand Right r; mkHand Left l]).
  rewrite C, D, A, B.
  change (mode (set_lastLeftHandTime ?t ?u)) with (mode u).
  repeat split; assumption.
Qed.

(** * Further properties *)

(** ** Math helpers *)

Ltac rle_cases :=
  repeat (match goal with
          | |- context [Rle_dec ?a ?b] =>
              lazymatch a with
              | context [Rle_dec] => fail
              | _ => lazymatch b with
                     | context [Rle_dec] => fail
                     | _ => destruct (Rle_dec a b)
                     end
              end
          end; try lra).

(** X1. With bounds in order, [clamp] answers a value inside the bounds,
    answers its argument when that is inside already, and clamping twice
    is clamping once.  With the bounds swapped it answers the lower
    bound argument whatever the value. *)
Theorem X1_clamp_range (val lo hi : R) :
  (lo <= hi ->
   lo <= clamp val lo hi <= hi /\
   (lo <= val <= hi -> clamp val lo hi = val) /\
   (val < lo -> clamp val lo hi = lo) /\
   (hi < val -> clamp val lo hi = hi) /\
   clamp (clamp val lo hi) lo hi = clamp val lo hi) /\
  (hi < lo -> clamp val lo hi = lo).
Proof.
  unfold clamp, Rmax, Rmin.
  split; [intros H; split; [|split; [|split; [|split]]] | intros H];
    try intros H'; rle_cases.
Qed.

Lemma X1_clamp_range_witness :
  0 <= clamp 1.5 0 1 <= 1 /\ clamp 1.5 0 1 = 1 /\ clamp 0.5 1 0 = 1.
Proof.
  destruct (X1_clamp_range 1.5 0 1) as [H _].
  destruct (H ltac:(lra)) as (R & _ & _ & Hi & _).
  destruct (X1_clamp_range 0.5 1 0) as [_ H'].
  repeat split; try apply R; [apply Hi | apply H']; lra.
Defined.

(** X2. [lerp] answers its first endpoint at 0 and its second at 1, and
    for a parameter between 0 and 1 a value between the endpoints. *)
Theorem X2_lerp_between (a b t : R) :
  lerp a b 0 = a /\ lerp a b 1 = b /\
  (0 <= t <= 1 -> Rmin a b <= lerp a b t <= Rmax a b).
Proof.
  unfold lerp; repeat split; try lra;
    unfold Rmin, Rmax; destruct (Rle_dec a b); nra.
Qed.

Lemma X2_lerp_between_witness :
  Rmin 2 4 <= lerp 2 4 0.25 <= Rmax 2 4.
Proof.
  apply (proj2 (proj2 (X2_lerp_between 2 4 0.25))); lra.
Defined.

Lemma distance3D_sqr (p q : Landmark) :
  (distance3D p q) ^ 2
  = (x p - x q) ^ 2 + (y p - y q) ^ 2 + (z p - z q) ^ 2.
Proof.
  unfold distance3D.
  pose proof (pow2_ge_0 (x p - x q)); pose proof (pow2_ge_0 (y p - y q));
    pose proof (pow2_ge_0 (z p - z q)).
  rewrite <- Rsqr_pow2, Rsqr_sqrt; lra.
Qed.

(** X3. [distance3D] is a distance: never negative, the same in both
    directions, zero exactly between equal points, and it obeys the
    triangle inequality. *)
Theorem X3_distance3D_metric (p q r : Landmark) :
  0 <= distance3D p q /\
  distance3D p q = distance3D q p /\
  (distance3D p q = 0 <-> p = q) /\
  distance3D p r <= distance3D p q + distance3D q r.
Proof.
  split; [apply sqrt_pos|]. split.
  { unfold distance3D; f_equal; ring. }
  split.
  { split.
    - intros H.
      pose proof (distance3D_sqr p q) as E; rewrite H in E.
      pose proof (pow2_ge_0 (x p - x q)); pose proof (pow2_ge_0 (y p - y q));
        pose proof (pow2_ge_0 (z p - z q)).
      assert (Ex : (x p - x q) ^ 2 = 0) by lra.
      assert (Ey : (y p - y q) ^ 2 = 0) by lra.
      assert (Ez : (z p - z q) ^ 2 = 0) by lra.
      rewrite <- Rsqr_pow2 in Ex, Ey, Ez.
      apply Rsqr_0_uniq in Ex; apply Rsqr_0_uniq in Ey;
        apply Rsqr_0_uniq in Ez.
      destruct p, q; simpl in *; f_equal; lra.
    - intros ->; apply distance3D_same. }
  (* triangle inequality, through the Cauchy-Schwarz inequality *)
  pose proof (sqrt_pos ((x p - x q) ^ 2 + (y p - y q) ^ 2 + (z p - z q) ^ 2))
    as Ha.
  pose proof (sqrt_pos ((x q - x r) ^ 2 + (y q - y r) ^ 2 + (z q - z r) ^ 2))
    as Hb.
  pose proof (distance3D_sqr p q) as Sa.
  pose proof (distance3D_sqr q r) as Sb.
  pose proof (distance3D_sqr p r) as Sc.
  fold (distance3D p q) in Ha; fold (distance3D q r) in Hb.
  set (a := distance3D p q) in *; set (b := distance3D q r) in *.
  set (c := distance3D p r) in *.
  assert (Hc : 0 <= c) by apply sqrt_pos.
  set (u1 := x p - x q) in *; set (u2 := y p - y q) in *;
    set (u3 := z p - z q) in *.
  set (v1 := x q - x r) in *; set (v2 := y q - y r) in *;
    set (v3 := z q - z r) in *.
  replace (x p - x r) with (u1 + v1) in Sc by (unfold u1, v1; ring).
  replace (y p - y r) with (u2 + v2) in Sc by (unfold u2, v2; ring).
  replace (z p - z r) with (u3 + v3) in Sc by (unfold u3, v3; ring).
  clearbody a b c u1 u2 u3 v1 v2 v3.
  assert (CS : u1 * v1 + u2 * v2 + u3 * v3 <= a * b).
  { destruct (Rle_dec (u1 * v1 + u2 * v2 + u3 * v3) 0) as [N|P]; [nra|].
    assert (SQ : (u1 * v1 + u2 * v2 + u3 * v3) ^ 2 <= (a * b) ^ 2).
    { replace ((a * b) ^ 2) with (a ^ 2 * b ^ 2) by ring.
      rewrite Sa, Sb.
      pose proof (pow2_ge_0 (u1 * v2 - u2 * v1)).
      pose proof (pow2_ge_0 (u1 * v3 - u3 * v1)).
      pose proof (pow2_ge_0 (u2 * v3 - u3 * v2)).
      nra. }
    apply Rnot_le_lt in P.
    assert (0 <= a * b) by nra.
    nra. }
  assert (c ^ 2 <= (a + b) ^ 2) by nra.
  nra.
Qed.

(** ** The smoother never leaves the range of its inputs *)

Lemma EMA_update_in_range (e : EMA) (lo hi u : R) :
  0 <= alpha e <= 1 ->
  (forall v, value e = Some v -> lo <= v <= hi) ->
  lo <= u <= hi ->
  lo <= snd (EMA_update e u) <= hi /\
  alpha (fst (EMA_update e u)) = alpha e /\
  (forall v, value (fst (EMA_update e u)) = Some v -> lo <= v <= hi).
Proof.
  intros Ha Hv Hu.
  assert (R : lo <= snd (EMA_update e u) <= hi).
  { unfold EMA_update; destruct (value e) as [p|] eqn:E; simpl; [|exact Hu].
    specialize (Hv p eq_refl); nra. }
  split; [exact R|]. split; [apply EMA_update_alpha|].
  intros v E; rewrite EMA_update_value in E; inversion E; subst; exact R.
Qed.

(** X4. A smoother with coefficient between 0 and 1 whose stored value,
    if any, and whose inputs all lie between [lo] and [hi] gives one
    output per input, every output lies between [lo] and [hi], and so
    does the value it stores at the end. *)
Theorem X4_EMA_stays_in_range (e : EMA) (lo hi : R) (inputs : list R)
    (Halpha : 0 <= alpha e <= 1)
    (Hstored : forall v, value e = Some v -> lo <= v <= hi)
    (Hinputs : Forall (fun u => lo <= u <= hi) inputs) :
  length (snd (EMA_run e inputs)) = length inputs /\
  Forall (fun out => lo <= out <= hi) (snd (EMA_run e inputs)) /\
  (forall v, value (fst (EMA_run e inputs)) = Some v -> lo <= v <= hi).
Proof.
  revert e Halpha Hstored; induction Hinputs as [|u rest Hu Hrest IH];
    intros e Ha Hv; simpl.
  - split; [reflexivity | split; [constructor | exact Hv]].
  - destruct (EMA_update_in_range e lo hi u Ha Hv Hu) as (R & A & V).
    destruct (IH (fst (EMA_update e u))) as (L & F & V');
      [rewrite A; exact Ha | exact V |].
    split; [rewrite L; reflexivity | split; [constructor; assumption | exact V']].
Qed.

Lemma X4_EMA_stays_in_range_witness :
  Forall (fun out => 0 <= out <= 1)
    (snd (EMA_run (EMA_new 0.2) [1; 0; 0; 1])).
Proof.
  apply (X4_EMA_stays_in_range (EMA_new 0.2) 0 1 [1; 0; 0; 1]).
  - simpl; lra.
  - intros v E; discriminate E.
  - repeat constructor; lra.
Defined.

(** ** The left-hand step *)

(** X5. Outside a drag the mode after a left-hand step is decided by the
    two smoothed values of that frame alone, whatever the mode was:
    FOCUS when the smoothed pinch is above 0.6; otherwise BROWSE when the
    smoothed open palm is above 0.6; otherwise AGGREGATE. *)
Theorem X5_mode_from_smoothed_signals (s : State) (h : Hand)
    (Hdrag : isDraggingUI s = false) :
  let s' := processLeftHand s (landmarks h) in
  exists pinchVal openVal,
    value (leftPinchSmoother s') = Some pinchVal /\
    value (leftOpenPalmSmoother s') = Some openVal /\
    (pinchVal > 0.6 -> mode s' = FOCUS) /\
    (pinchVal <= 0.6 -> openVal > 0.6 -> mode s' = BROWSE) /\
    (pinchVal <= 0.6 -> openVal <= 0.6 -> mode s' = AGGREGATE).
Proof.
  destruct (processLeftHand_signals s h Hdrag) as (M & P & O).
  cbv zeta in *.
  set (pinch := EMA_update (leftPinchSmoother s) _) in *.
  set (open := EMA_update (leftOpenPalmSmoother s) _) in *.
  exists (snd pinch), (snd open).
  rewrite P, O, M; unfold pinch, open; rewrite !EMA_update_value.
  fold pinch; fold open.
  rewrite (nextMode_ignores_current _ _ _ (mode s) AGGREGATE).
  unfold nextMode; cbn [AppMode_eqb andb].
  split; [reflexivity|]. split; [reflexivity|].
  repeat split.
  - intros H; apply Rgtb_true in H; rewrite H; reflexivity.
  - intros H1 H2; apply Rgtb_false in H1; apply Rgtb_true in H2.
    rewrite H1, H2; reflexivity.
  - intros H1 H2; apply Rgtb_false in H1; apply Rgtb_false in H2.
    rewrite H1, H2; reflexivity.
Qed.

Lemma X5_mode_from_smoothed_signals_witness :
  let s' := processLeftHand initialState
              (landmarks (pinchHand Left 0.5 0.5 0.03)) in
  exists pinchVal openVal,
    value (leftPinchSmoother s') = Some pinchVal /\
    value (leftOpenPalmSmoother s') = Some openVal /\
    (pinchVal > 0.6 -> mode s' = FOCUS) /\
    (pinchVal <= 0.6 -> openVal > 0.6 -> mode s' = BROWSE) /\
    (pinchVal <= 0.6 -> openVal <= 0.6 -> mode s' = AGGREGATE).
Proof.
  exact (X5_mode_from_smoothed_signals initialState
           (pinchHand Left 0.5 0.5 0.03) eq_refl).
Defined.

(** ** What a frame leaves as its hands left it *)

Lemma predictWebcam_after_hands (env : Env) (results : option (list Hand))
    (s : State) :
  let t := match results with
           | Some hs => fold_left (processHand env) hs s
           | None => s
           end in
  let s' := predictWebcam env results s in
  scrollOffset s' = scrollOffset t /\
  leftHandX_EMA s' = leftHandX_EMA t /\
  leftPinchSmoother s' = leftPinchSmoother t /\
  leftOpenPalmSmoother s' = leftOpenPalmSmoother t /\
  cursorX_EMA s' = cursorX_EMA t /\
  cursorY_EMA s' = cursorY_EMA t /\
  lastCursorPos s' = lastCursorPos t /\
  lastHoveredElement s' = lastHoveredElement t /\
  scrollTop s' = scrollTop t /\
  cursorPos s' = cursorPos t.
Proof.
  assert (R : forall u,
            scrollOffset (resetDrag u) = scrollOffset u /\
            leftHandX_EMA (resetDrag u) = leftHandX_EMA u /\
            leftPinchSmoother (resetDrag u) = leftPinchSmoother u /\
            leftOpenPalmSmoother (resetDrag u) = leftOpenPalmSmoother u /\
            cursorX_EMA (resetDrag u) = cursorX_EMA u /\
            cursorY_EMA (resetDrag u) = cursorY_EMA u /\
            lastCursorPos (resetDrag u) = lastCursorPos u /\
            lastHoveredElement (resetDrag u) = lastHoveredElement u /\
            scrollTop (resetDrag u) = scrollTop u /\
            cursorPos (resetDrag u) = cursorPos u).
  { intros u; unfold resetDrag, cursorPos; repeat break_match; simpl;
      repeat split. }
  unfold predictWebcam; destruct results as [[|h hs]|]; cbv zeta.
  - match goal with |- context [resetDrag ?u] =>
      destruct (R u) as (A & B & C & D & E & F & G & H & I & J) end.
    rewrite A, B, C, D, E, F, G, H, I, J; unfold cursorPos.
    destruct (Rgtb _ 500); simpl; repeat split.
  - destruct (negb (existsb isRight (h :: hs))).
    + match goal with |- context [resetDrag ?u] =>
        destruct (R u) as (A & B & C & D & E & F & G & H & I & J) end.
      rewrite A, B, C, D, E, F, G, H, I, J; unfold cursorPos.
      repeat break_match; simpl; repeat split.
    + unfold cursorPos; repeat break_match; simpl; repeat split.
  - match goal with |- context [resetDrag ?u] =>
      destruct (R u) as (A & B & C & D & E & F & G & H & I & J) end.
    rewrite A, B, C, D, E, F, G, H, I, J; unfold cursorPos.
    destruct (Rgtb _ 500); simpl; repeat split.
Qed.

(** ** Smoothed left-hand signals along a run *)

Lemma processLeftHand_smoothers_in_unit (s : State) (l : list Landmark) :
  (alpha (leftPinchSmoother s) = 0.2 /\
   forall v, value (leftPinchSmoother s) = Some v -> 0 <= v <= 1) ->
  (alpha (leftOpenPalmSmoother s) = 0.2 /\
   forall v, value (leftOpenPalmSmoother s) = Some v -> 0 <= v <= 1) ->
  let s' := processLeftHand s l in
  (alpha (leftPinchSmoother s') = 0.2 /\
   forall v, value (leftPinchSmoother s') = Some v -> 0 <= v <= 1) /\
  (alpha (leftOpenPalmSmoother s') = 0.2 /\
   forall v, value (leftOpenPalmSmoother s') = Some v -> 0 <= v <= 1).
Proof.
  intros [Ap Vp] [Ao Vo]; unfold processLeftHand.
  destruct (isDraggingUI s); cbn [leftPinchSmoother leftOpenPalmSmoother];
    [split; split; assumption|].
  match goal with
  | |- context [EMA_update (leftPinchSmoother s) ?u] =>
      destruct (EMA_update_in_range (leftPinchSmoother s) 0 1 u)
        as (_ & A1 & V1);
        [rewrite Ap; lra | exact Vp | destruct (Rltb _ 0.05); lra |]
  end.
  match goal with
  | |- context [EMA_update (leftOpenPalmSmoother s) ?u] =>
      destruct (EMA_update_in_range (leftOpenPalmSmoother s) 0 1 u)
        as (_ & A2 & V2);
        [rewrite Ao; lra | exact Vo | destruct (_ <=? _)%nat; lra |]
  end.
  rewrite A1, A2; split; split; assumption.
Qed.

Lemma processHand_smoothers_in_unit (env : Env) (s : State) (h : Hand) :
  (alpha (leftPinchSmoother s) = 0.2 /\
   forall v, value (leftPinchSmoother s) = Some v -> 0 <= v <= 1) ->
  (alpha (leftOpenPalmSmoother s) = 0.2 /\
   forall v, value (leftOpenPalmSmoother s) = Some v -> 0 <= v <= 1) ->
  let s' := processHand env s h in
  (alpha (leftPinchSmoother s') = 0.2 /\
   forall v, value (leftPinchSmoother s') = Some v -> 0 <= v <= 1) /\
  (alpha (leftOpenPalmSmoother s') = 0.2 /\
   forall v, value (leftOpenPalmSmoother s') = Some v -> 0 <= v <= 1).
Proof.
  intros Hp Ho; unfold processHand; destruct (handedness h).
  - apply processLeftHand_smoothers_in_unit; assumption.
  - destruct (processRightHand_keeps_left env s (landmarks h))
      as (_ & _ & _ & _ & E1 & E2).
    cbv zeta; rewrite E1, E2; split; assumption.
Qed.

Lemma fold_processHand_smoothers_in_unit (env : Env) (hs : list Hand)
    (s : State) :
  (alpha (leftPinchSmoother s) = 0.2 /\
   forall v, value (leftPinchSmoother s) = Some v -> 0 <= v <= 1) ->
  (alpha (leftOpenPalmSmoother s) = 0.2 /\
   forall v, value (leftOpenPalmSmoother s) = Some v -> 0 <= v <= 1) ->
  let s' := fold_left (processHand env) hs s in
  (alpha (leftPinchSmoother s') = 0.2 /\
   forall v, value (leftPinchSmoother s') = Some v -> 0 <= v <= 1) /\
  (alpha (leftOpenPalmSmoother s') = 0.2 /\
   forall v, value (leftOpenPalmSmoother s') = Some v -> 0 <= v <= 1).
Proof.
  revert s; induction hs as [|h hs IH]; intros s Hp Ho; simpl;
    [split; assumption|].
  destruct (processHand_smoothers_in_unit env s h Hp Ho) as [Hp' Ho'].
  apply IH; assumption.
Qed.

(** X6. Along every run of frames from the initial state the smoothed
    pinch value and the smoothed open-palm value of the left hand, once
    they exist, lie between 0 and 1. *)
Theorem X6_left_signals_in_unit_interval
    (fs : list (Env * option (list Hand))) :
  let s := runFrames fs initialState in
  (forall v, value (leftPinchSmoother s) = Some v -> 0 <= v <= 1) /\
  (forall v, value (leftOpenPalmSmoother s) = Some v -> 0 <= v <= 1).
Proof.
  cbv zeta.
  assert (G : forall s0,
            (alpha (leftPinchSmoother s0) = 0.2 /\
             forall v, value (leftPinchSmoother s0) = Some v -> 0 <= v <= 1) ->
            (alpha (leftOpenPalmSmoother s0) = 0.2 /\
             forall v, value (leftOpenPalmSmoother s0) = Some v ->
                       0 <= v <= 1) ->
            (alpha (leftPinchSmoother (runFrames fs s0)) = 0.2 /\
             forall v, value (leftPinchSmoother (runFrames fs s0)) = Some v ->
                       0 <= v <= 1) /\
            (alpha (leftOpenPalmSmoother (runFrames fs s0)) = 0.2 /\
             forall v, value (leftOpenPalmSmoother (runFrames fs s0)) = Some v
                       -> 0 <= v <= 1)).
  { induction fs as [|[env r] fs IH]; intros s0 Hp Ho; simpl;
      [split; assumption|].
    destruct (predictWebcam_after_hands env r s0)
      as (_ & _ & P & O & _).
    cbv zeta in P, O.
    destruct r as [hs|].
    - destruct (fold_processHand_smoothers_in_unit env hs s0 Hp Ho)
        as [Hp' Ho'].
      apply IH; rewrite ?P, ?O; assumption.
    - apply IH; rewrite ?P, ?O; assumption. }
  destruct (G initialState) as [[_ Hp] [_ Ho]].
  - split; [reflexivity | intros v E; discriminate E].
  - split; [reflexivity | intros v E; discriminate E].
  - split; assumption.
Qed.

(** X7. Scroll drive of the left-hand step, outside a drag.  The scroll
    offset moves only when the step ends in BROWSE, and then by 0.15
    times the distance of the smoothed, mirrored hand position from the
    centre 0.5.  With the hand's horizontal coordinate and the stored
    smoothed position inside the image (between 0 and 1), one step
    moves the scroll offset by at most 0.075. *)
Theorem X7_scroll_step (s : State) (h : Hand)
    (Hdrag : isDraggingUI s = false)
    (Halpha : 0 <= alpha (leftHandX_EMA s) <= 1)
    (Hstored : forall v, value (leftHandX_EMA s) = Some v -> 0 <= v <= 1)
    (Hx : 0 <= x (lm (landmarks h) 9) <= 1) :
  let s' := processLeftHand s (landmarks h) in
  (mode s' <> BROWSE -> scrollOffset s' = scrollOffset s) /\
  (mode s' = BROWSE ->
   exists smoothedX,
     value (leftHandX_EMA s') = Some smoothedX /\
     scrollOffset s' = scrollOffset s + (smoothedX - 0.5) * 0.15) /\
  - 0.075 <= scrollOffset s' - scrollOffset s <= 0.075.
Proof.
  cbv zeta; unfold processLeftHand; rewrite Hdrag.
  cbn [mode scrollOffset leftHandX_EMA].
  match goal with
  | |- context [AppMode_eqb ?m BROWSE] => set (mode1 := m)
  end.
  destruct (EMA_update_in_range (leftHandX_EMA s) 0 1
              (1 - x (lm (landmarks h) 9))) as (R & _ & _);
    [exact Halpha | exact Hstored | lra |].
  rewrite EMA_update_value.
  set (sx := snd (EMA_update (leftHandX_EMA s) (1 - x (lm (landmarks h) 9))))
    in *.
  split; [|split].
  - intros Hm; destruct mode1; cbn [AppMode_eqb];
      [exfalso; apply Hm; reflexivity | reflexivity | reflexivity].
  - intros Hm; rewrite Hm; cbn [AppMode_eqb].
    exists sx; split; reflexivity.
  - destruct (AppMode_eqb mode1 BROWSE); lra.
Qed.

Lemma X7_scroll_step_witness :
  let s' := processLeftHand initialState
              (landmarks (pinchHand Left 0.25 0.5 0.1)) in
  - 0.075 <= scrollOffset s' - scrollOffset initialState <= 0.075.
Proof.
  apply (X7_scroll_step initialState (pinchHand Left 0.25 0.5 0.1)).
  - reflexivity.
  - simpl; lra.
  - intros v E; discriminate E.
  - simpl; lra.
Defined.

(** ** The drag session along a run *)

Lemma countEvents_app (t : EventType) (a b : list DomEvent) :
  countEvents t (a ++ b) = (countEvents t a + countEvents t b)%nat.
Proof. unfold countEvents; rewrite filter_app, length_app; reflexivity. Qed.

Lemma countEvents_hover (t : EventType) (evs : list DomEvent) :
  Forall (fun ev => isHoverEvent ev = true) evs ->
  t = pointerdown \/ t = pointerup \/ t = mousedown \/ t = mouseup \/
  t = click ->
  countEvents t evs = O.
Proof.
  intros F Ht; induction F as [|ev evs Hev _ IH]; [reflexivity|].
  unfold countEvents in *; simpl.
  unfold isHoverEvent in Hev; apply andb_prop in Hev; destruct Hev as [_ Hev].
  destruct Ht as [->|[->|[->|[->| ->]]]];
    destruct (evType ev); try discriminate; simpl; exact IH.
Qed.

(** All cases of the dispatcher at once: what it appends to the log
    after the hover events, and what it does to the drag session. *)
Lemma handleCursorInteraction_cases env px py dy isDown wasDown s :
  let s' := handleCursorInteraction env px py dy isDown wasDown s in
  let hover := hoverEvents env px py s in
  Forall (fun ev => isHoverEvent ev = true) hover /\
  match isDown, wasDown with
  | true, false =>
      match elementFromPoint env px py with
      | Some e =>
          dispatched s'
          = dispatched s ++ hover
              ++ [mkEvent e pointerdown (Some (px, py)) true;
                  mkEvent e mousedown (Some (px, py)) false] /\
          isDraggingUI s' = true /\ dragTarget s' = Some e
      | None =>
          dispatched s' = dispatched s ++ hover /\
          isDraggingUI s' = isDraggingUI s /\ dragTarget s' = dragTarget s
      end
  | true, true =>
      match isDraggingUI s, dragTarget s with
      | true, Some t =>
          dispatched s'
          = dispatched s ++ hover
              ++ [mkEvent t pointermove (Some (px, py)) true]
      | _, _ => dispatched s' = dispatched s ++ hover
      end /\
      isDraggingUI s' = isDraggingUI s /\ dragTarget s' = dragTarget s
  | false, true =>
      match isDraggingUI s, dragTarget s with
      | true, Some t =>
          dispatched s'
          = dispatched s ++ hover
              ++ [mkEvent t pointerup (Some (px, py)) true;
                  mkEvent t mouseup (Some (px, py)) false;
                  mkEvent t click (Some (px, py)) false] /\
          isDraggingUI s' = false /\ dragTarget s' = None
      | _, _ =>
          dispatched s' = dispatched s ++ hover /\
          isDraggingUI s' = isDraggingUI s /\ dragTarget s' = dragTarget s
      end
  | false, false =>
      dispatched s' = dispatched s ++ hover /\
      isDraggingUI s' = isDraggingUI s /\ dragTarget s' = dragTarget s
  end.
Proof.
  cbv zeta.
  destruct (hoverSimulation_log env px py s) as [L F].
  destruct (hoverSimulation_keeps env px py s) as (K1 & K2 & _).
  split; [exact F|].
  unfold handleCursorInteraction; rewrite K1, K2.
  destruct isDown, wasDown; cbn [andb negb].
  - destruct (dragTarget s) as [t|] eqn:Et; destruct (isDraggingUI s) eqn:Ed.
    + destruct (scrollContainer env) as [c|];
        [destruct (Nat.eqb c t || contains env c t)|]; simpl;
        rewrite ?K1, ?K2, L, <- ?app_assoc; repeat split; assumption.
    + rewrite K1, K2, L; repeat split; assumption.
    + rewrite K1, K2, L; repeat split; assumption.
    + rewrite K1, K2, L; repeat split; assumption.
  - destruct (elementFromPoint env px py) as [e|]; simpl.
    + rewrite L, <- !app_assoc; repeat split.
    + rewrite K1, K2, L; repeat split.
  - destruct (dragTarget s) as [t|] eqn:Et; destruct (isDraggingUI s) eqn:Ed;
      simpl; rewrite ?K1, ?K2, L, <- ?app_assoc; repeat split; assumption.
  - destruct (dragTarget s) as [t|] eqn:Et; rewrite K1, K2, L;
      repeat split; assumption.
Qed.

Ltac count_events F :=
  let H1 := fresh in let H2 := fresh in let H3 := fresh in
  let H4 := fresh in let H5 := fresh in
  pose proof (countEvents_hover pointerdown _ F (or_introl eq_refl)) as H1;
  pose proof (countEvents_hover pointerup _ F
                (or_intror (or_introl eq_refl))) as H2;
  pose proof (countEvents_hover mousedown _ F
                (or_intror (or_intror (or_introl eq_refl)))) as H3;
  pose proof (countEvents_hover mouseup _ F
                (or_intror (or_intror (or_intror (or_introl eq_refl)))))
    as H4;
  pose proof (countEvents_hover click _ F
                (or_intror (or_intror (or_intror (or_intror eq_refl)))))
    as H5;
  rewrite ?countEvents_app, ?H1, ?H2, ?H3, ?H4, ?H5;
  unfold countEvents in *; simpl.

Lemma processRightHand_dragInvariant (env : Env) (s : State)
    (l : list Landmark) :
  dragInvariant s -> dragInvariant (processRightHand env s l).
Proof.
  intros (A & B & C & D & E & G).
  destruct (processRightHand_anatomy env s l)
    as (dy & s0 & Hs & Hlog & Hdrag & Htgt).
  set (s' := processRightHand env s l) in *.
  destruct (handleCursorInteraction_cases env (cur_x (cursor s'))
              (cur_y (cursor s')) dy (isPinchingRef s') (isPinchingRef s) s0)
    as (F & K).
  cbv zeta in K; rewrite <- Hs, Hlog, Hdrag, Htgt in K.
  set (hover := hoverEvents env (cur_x (cursor s')) (cur_y (cursor s')) s0)
    in *.
  unfold dragInvariant.
  destruct (isPinchingRef s') eqn:Pn; destruct (isPinchingRef s) eqn:Pw.
  - (* holding *)
    destruct K as (L & Kd & Kt); rewrite Kd, Kt.
    assert (Cn : forall t,
              t = pointerdown \/ t = pointerup \/ t = mousedown \/
              t = mouseup \/ t = click ->
              countEvents t (dispatched s') = countEvents t (dispatched s)).
    { intros t Ht.
      destruct (isDraggingUI s), (dragTarget s); rewrite L;
        rewrite ?countEvents_app, (countEvents_hover t hover F Ht);
        try (rewrite Nat.add_0_r; reflexivity).
      destruct Ht as [->|[->|[->|[->| ->]]]]; unfold countEvents; simpl;
        rewrite Nat.add_0_r; reflexivity. }
    rewrite !Cn by tauto.
    repeat split; try assumption; intros; reflexivity.
  - (* rising edge *)
    assert (Nd : isDraggingUI s = false).
    { destruct (isDraggingUI s); [|reflexivity].
      specialize (B eq_refl); discriminate. }
    assert (Nt : dragTarget s = None).
    { destruct A as [[A _]|[_ A]]; [congruence | exact A]. }
    rewrite Nd in C; rewrite Nd, Nt in K.
    destruct (elementFromPoint env (cur_x (cursor s')) (cur_y (cursor s')))
      as [e|].
    + destruct K as (L & Kd & Kt); rewrite Kd, Kt, L.
      count_events F.
      split; [left; split; [reflexivity | exists e; reflexivity]|].
      repeat split; try lia; try reflexivity.
    + destruct K as (L & Kd & Kt); rewrite Kd, Kt, L.
      count_events F.
      split; [right; split; reflexivity|].
      repeat split; try lia; try discriminate.
  - (* falling edge *)
    destruct A as [[Ad [t At]]|[Ad At]]; rewrite Ad in C;
      rewrite Ad, At in K; destruct K as (L & Kd & Kt); rewrite Kd, Kt, L;
      count_events F;
      (split; [right; split; reflexivity|]);
      repeat split; try lia; try discriminate.
  - (* not pinching *)
    assert (Nd : isDraggingUI s = false).
    { destruct (isDraggingUI s); [|reflexivity].
      specialize (B eq_refl); discriminate. }
    destruct K as (L & Kd & Kt); rewrite Kd, Kt, L, Nd in *.
    count_events F.
    split; [exact A|].
    repeat split; try lia; try discriminate.
Qed.

Lemma dragInvariant_ext (s1 s2 : State) :
  isDraggingUI s2 = isDraggingUI s1 ->
  dragTarget s2 = dragTarget s1 ->
  isPinchingRef s2 = isPinchingRef s1 ->
  dispatched s2 = dispatched s1 ->
  dragInvariant s1 -> dragInvariant s2.
Proof.
  unfold dragInvariant; intros -> -> -> ->; exact (fun H => H).
Qed.

Lemma resetDrag_dragInvariant (s : State) :
  dragInvariant s -> dragInvariant (resetDrag s).
Proof.
  intros H; pose proof H as (A & B & C & D & E & G).
  destruct A as [[Ad [t At]]|[Ad At]].
  2: { assert (R : resetDrag s = s)
         by (unfold resetDrag; rewrite Ad; reflexivity).
       rewrite R; exact H. }
  unfold resetDrag; rewrite Ad, At.
  unfold dragInvariant; cbn [isDraggingUI dragTarget isPinchingRef dispatched
                             set_drag dispatchEvent].
  rewrite Ad in C; rewrite !countEvents_app.
  unfold countEvents in *; simpl.
  split; [right; split; reflexivity|].
  repeat split; try lia; try discriminate.
Qed.

Lemma processHand_dragInvariant (env : Env) (s : State) (h : Hand) :
  dragInvariant s -> dragInvariant (processHand env s h).
Proof.
  unfold processHand; destruct (handedness h).
  - destruct (processLeftHand_keeps_right s (landmarks h))
      as (_ & _ & _ & _ & P & _ & _ & D & T & _ & _ & L).
    apply dragInvariant_ext; assumption.
  - apply processRightHand_dragInvariant.
Qed.

Lemma fold_processHand_dragInvariant (env : Env) (hs : list Hand)
    (s : State) :
  dragInvariant s -> dragInvariant (fold_left (processHand env) hs s).
Proof.
  revert s; induction hs as [|h hs IH]; intros s H; simpl; [exact H|].
  apply IH, processHand_dragInvariant, H.
Qed.

Lemma predictWebcam_dragInvariant (env : Env) (results : option (list Hand))
    (s : State) :
  dragInvariant s -> dragInvariant (predictWebcam env results s).
Proof.
  intros H; unfold predictWebcam; destruct results as [[|h hs]|]; cbv zeta.
  - apply resetDrag_dragInvariant.
    destruct (Rgtb _ 500); (eapply dragInvariant_ext; [..|exact H]);
      reflexivity.
  - pose proof (fold_processHand_dragInvariant env (h :: hs) s H) as Ht.
    set (t := fold_left (processHand env) (h :: hs) s) in *.
    destruct (negb (existsb isRight (h :: hs)));
      [apply resetDrag_dragInvariant|];
      repeat break_match;
      (eapply dragInvariant_ext; [..|exact Ht]); reflexivity.
  - apply resetDrag_dragInvariant.
    destruct (Rgtb _ 500); (eapply dragInvariant_ext; [..|exact H]);
      reflexivity.
Qed.

Lemma runFrames_dragInvariant (fs : list (Env * option (list Hand)))
    (s : State) :
  dragInvariant s -> dragInvariant (runFrames fs s).
Proof.
  revert s; induction fs as [|[env r] fs IH]; intros s H; simpl; [exact H|].
  apply IH, predictWebcam_dragInvariant, H.
Qed.

Lemma initialState_dragInvariant : dragInvariant initialState.
Proof.
  unfold dragInvariant, countEvents; simpl.
  split; [right; split; reflexivity|].
  repeat split; try lia; discriminate.
Qed.

(** X8. Along every run of frames from the initial state the drag flag
    and the drag target are set together and cleared together, and a
    drag session is open only while the debounced pinch state of the
    right hand is held. *)
Theorem X8_drag_session_shape (fs : list (Env * option (list Hand))) :
  let s := runFrames fs initialState in
  (isDraggingUI s = true <-> exists t, dragTarget s = Some t) /\
  (isDraggingUI s = false <-> dragTarget s = None) /\
  (isDraggingUI s = true -> isPinchingRef s = true).
Proof.
  cbv zeta.
  destruct (runFrames_dragInvariant fs initialState
              initialState_dragInvariant) as (A & B & _).
  split; [|split; [|exact B]].
  - destruct A as [[Ad [t At]]|[Ad At]]; rewrite Ad, At; split;
      try reflexivity; try discriminate.
    + intros _; exists t; reflexivity.
    + intros [t Ht]; discriminate.
  - destruct A as [[Ad [t At]]|[Ad At]]; rewrite Ad, At; split;
      try reflexivity; discriminate.
Qed.

(** X9. Along every run of frames from the initial state the dispatched
    presses and releases are in balance: every pointer-down comes with a
    mouse-down, every mouse-up with a click, and the pointer-downs number
    the pointer-ups, plus one while a drag session is open.  So no
    element is pressed twice without a release between, no click is
    dispatched without a press before it, and at most one press is
    outstanding. *)
Theorem X9_press_release_balance (fs : list (Env * option (list Hand))) :
  let s := runFrames fs initialState in
  countEvents mousedown (dispatched s)
  = countEvents pointerdown (dispatched s) /\
  countEvents mouseup (dispatched s) = countEvents click (dispatched s) /\
  countEvents pointerdown (dispatched s)
  = (countEvents pointerup (dispatched s)
     + if isDraggingUI s then 1 else 0)%nat /\
  (countEvents click (dispatched s)
   <= countEvents pointerdown (dispatched s))%nat.
Proof.
  cbv zeta.
  destruct (runFrames_dragInvariant fs initialState
              initialState_dragInvariant) as (_ & _ & C & D & E & G).
  repeat split; try assumption.
  destruct (isDraggingUI (runFrames fs initialState)); lia.
Qed.

(** ** Hover tracking and scroll drag *)


Lemma handleCursorInteraction_tail env px py dy isDown wasDown s :
  exists tail,
    dispatched (handleCursorInteraction env px py dy isDown wasDown s)
    = dispatched s ++ hoverEvents env px py s ++ tail /\
    Forall (fun ev => isEnterLeaveEvent ev = false) tail.
Proof.
  destruct (handleCursorInteraction_cases env px py dy isDown wasDown s)
    as (_ & K); cbv zeta in K.
  destruct isDown, wasDown.
  - destruct K as (L & _).
    destruct (isDraggingUI s), (dragTarget s); rewrite L;
      try (exists []; rewrite app_nil_r; split; [reflexivity|constructor]).
    eexists; split; [reflexivity | repeat constructor].
  - destruct (elementFromPoint env px py); destruct K as (L & _); rewrite L.
    + eexists; split; [reflexivity | repeat constructor].
    + exists []; rewrite app_nil_r; split; [reflexivity|constructor].
  - destruct (isDraggingUI s), (dragTarget s); destruct K as (L & _);
      rewrite L;
      try (exists []; rewrite app_nil_r; split; [reflexivity|constructor]).
    eexists; split; [reflexivity | repeat constructor].
  - destruct K as (L & _); rewrite L.
    exists []; rewrite app_nil_r; split; [reflexivity|constructor].
Qed.

(** X10. Hover tracking of the right-hand step.  After the step the
    tracked hovered element is the element under the reported cursor
    position.  The events of the step begin with the hover events: when
    that element differs from the one tracked before, a mouse-out and a
    pointer-out on the old element (if there was one), then a mouse-over
    and a pointer-over on the new one (if there is one); in every case a
    pointer-move on the element under the cursor (if there is one).  No
    other enter or leave event is dispatched in the step. *)
Theorem X10_hover_tracking (env : Env) (s : State) (h : Hand) :
  let s' := processRightHand env s (landmarks h) in
  let p := cursorPos s' in
  let element := elementFromPoint env (fst p) (snd p) in
  lastHoveredElement s' = element /\
  exists tail,
    dispatchedSince s s'
    = (if Element_opt_eqb element (lastHoveredElement s) then []
       else
         match lastHoveredElement s with
         | Some old => [mkEvent old mouseout None false;
                        mkEvent old pointerout None false]
         | None => []
         end
         ++ match element with
            | Some e => [mkEvent e mouseover None false;
                         mkEvent e pointerover None false]
            | None => []
            end)
      ++ match element with
         | Some e => [mkEvent e pointermove (Some p) false]
         | None => []
         end
      ++ tail /\
    Forall (fun ev => isEnterLeaveEvent ev = false) tail.
Proof.
  cbv zeta; unfold cursorPos; cbn [fst snd].
  destruct (processRightHand_anatomy_full env s (landmarks h))
    as (s0 & Hs & Hlog & _ & _ & Hhov & _).
  set (s' := processRightHand env s (landmarks h)) in *.
  split.
  - rewrite Hs at 1; apply handleCursorInteraction_hovered.
  - destruct (handleCursorInteraction_tail env (cur_x (cursor s'))
                (cur_y (cursor s'))
                (cur_y (cursor s') - snd (lastCursorPos s))
                (isPinchingRef s') (isPinchingRef s) s0)
      as (tail & L & F).
    rewrite <- Hs, Hlog in L.
    rewrite (proj2 (hoverSimulation_exact env _ _ s0)), Hhov in L.
    exists tail; split; [|exact F].
    apply dispatchedSince_app; rewrite L, <- !app_assoc; reflexivity.
Qed.



(** ** The pointer stays inside the viewport *)

Lemma processRightHand_in_viewport (env : Env) (s : State) (h : Hand) :
  0 <= innerWidth env -> 0 <= innerHeight env ->
  indexTipInImage h ->
  pointerInViewport (innerWidth env) (innerHeight env) s ->
  pointerInViewport (innerWidth env) (innerHeight env)
    (processRightHand env s (landmarks h)).
Proof.
  intros HW HH [Hx Hy] (Ax & Ay & Vx & Vy & Va & Cx & Cy).
  pose proof (processRightHand_anchor env s (landmarks h)) as HA.
  pose proof (processRightHand_output env s (landmarks h)) as HO.
  cbv zeta in HA, HO.
  assert (HE : cursorX_EMA (processRightHand env s (landmarks h))
               = fst (EMA_update (cursorX_EMA s)
                        ((1 - x (lm (landmarks h) 8)) * innerWidth env)) /\
               cursorY_EMA (processRightHand env s (landmarks h))
               = fst (EMA_update (cursorY_EMA s)
                        (y (lm (landmarks h) 8) * innerHeight env))).
  { unfold processRightHand; cbv zeta.
    match goal with
    | |- context [handleCursorInteraction ?e ?a ?b ?c ?d ?w ?t] =>
        destruct (handleCursorInteraction_keeps e a b c d w t)
          as (_ & _ & _ & _ & _ & _ & _ & Kx & Ky & _)
    end.
    cbv zeta in Kx, Ky; rewrite Kx, Ky; split; reflexivity. }
  destruct HE as [Ex Ey].
  destruct (EMA_update_in_range (cursorX_EMA s) 0 (innerWidth env)
              ((1 - x (lm (landmarks h) 8)) * innerWidth env))
    as (Rx & Ax' & Vx');
    [rewrite Ax; unfold CURSOR_SMOOTHING; lra | exact Vx | nra |].
  destruct (EMA_update_in_range (cursorY_EMA s) 0 (innerHeight env)
              (y (lm (landmarks h) 8) * innerHeight env))
    as (Ry & Ay' & Vy');
    [rewrite Ay; unfold CURSOR_SMOOTHING; lra | exact Vy | nra |].
  set (s' := processRightHand env s (landmarks h)) in *.
  assert (Hlive : 0 <= fst (smoothedPos env s (landmarks h)) <= innerWidth env
                  /\ 0 <= snd (smoothedPos env s (landmarks h))
                     <= innerHeight env)
    by (unfold smoothedPos; cbn [fst snd]; split; assumption).
  set (live := smoothedPos env s (landmarks h)) in *.
  assert (Va' : forall a, anchorPos s' = Some a ->
                0 <= fst a <= innerWidth env /\ 0 <= snd a <= innerHeight env).
  { intros a Ha; rewrite HA in Ha.
    destruct (isPinchingRef s' && negb (isPinchingRef s));
      [inversion Ha; subst; exact Hlive|].
    destruct (negb (isPinchingRef s') && isPinchingRef s);
      [discriminate | apply Va; exact Ha]. }
  unfold pointerInViewport; rewrite Ex, Ey, Ax', Ay'.
  split; [exact Ax|]. split; [exact Ay|].
  split; [exact Vx'|]. split; [exact Vy'|]. split; [exact Va'|].
  change (cur_x (cursor s')) with (fst (cursorPos s')).
  change (cur_y (cursor s')) with (snd (cursorPos s')).
  rewrite HO.
  destruct (isPinchingRef s'); [|exact Hlive].
  destruct (anchorPos s') as [a|] eqn:Ea; [|exact Hlive].
  destruct (Va' a eq_refl) as [Bx By]; destruct Hlive as [Lx Ly].
  unfold lerp, ANCHOR_STRENGTH; cbn [fst snd]; split; nra.
Qed.

Lemma pointerInViewport_ext (W H : R) (s1 s2 : State) :
  cursorX_EMA s2 = cursorX_EMA s1 ->
  cursorY_EMA s2 = cursorY_EMA s1 ->
  anchorPos s2 = anchorPos s1 ->
  cursorPos s2 = cursorPos s1 ->
  pointerInViewport W H s1 -> pointerInViewport W H s2.
Proof.
  unfold pointerInViewport, cursorPos; intros -> -> -> E.
  inversion E as [[E1 E2]]; rewrite E1, E2; exact (fun H => H).
Qed.

Lemma fold_processHand_in_viewport (env : Env) (hs : list Hand) (s : State) :
  0 <= innerWidth env -> 0 <= innerHeight env ->
  Forall indexTipInImage (filter isRight hs) ->
  pointerInViewport (innerWidth env) (innerHeight env) s ->
  pointerInViewport (innerWidth env) (innerHeight env)
    (fold_left (processHand env) hs s).
Proof.
  intros HW HH; revert s; induction hs as [|h hs IH]; intros s HF HV; simpl;
    [exact HV|].
  simpl in HF; apply IH.
  - destruct (isRight h); [inversion HF|]; assumption.
  - unfold processHand, isRight in *; destruct (handedness h).
    + destruct (processLeftHand_keeps_right s (landmarks h))
        as (C & _ & X & Y & _ & A & _).
      eapply pointerInViewport_ext; [exact X | exact Y | exact A | | exact HV].
      unfold cursorPos; rewrite C; reflexivity.
    + apply processRightHand_in_viewport; try assumption.
      inversion HF; assumption.
Qed.

(** X12. Over a viewport of constant, non-negative width and height, and
    as long as the index tip of every Right hand lies inside the image
    (both coordinates between 0 and 1), the reported cursor position
    stays inside the viewport along every run of frames from the initial
    state, and so do the smoothed position and the anchor. *)
Theorem X12_cursor_in_viewport (W H : R)
    (fs : list (Env * option (list Hand)))
    (HW : 0 <= W) (HH : 0 <= H)
    (Hfs : Forall (fun f =>
                     innerWidth (fst f) = W /\ innerHeight (fst f) = H /\
                     Forall indexTipInImage (rightHands (snd f))) fs) :
  let s := runFrames fs initialState in
  0 <= cur_x (cursor s) <= W /\ 0 <= cur_y (cursor s) <= H /\
  pointerInViewport W H s.
Proof.
  cbv zeta.
  assert (G : forall s0, pointerInViewport W H s0 ->
                         pointerInViewport W H (runFrames fs s0)).
  { induction Hfs as [|[env r] fs (EW & EH & HF) _ IH]; intros s0 HV; simpl;
      [exact HV|].
    apply IH; simpl in EW, EH, HF; subst W H.
    destruct (predictWebcam_after_hands env r s0)
      as (_ & _ & _ & _ & X & Y & _ & _ & _ & C).
    destruct (predictWebcam_tail env r s0) as (_ & A & _).
    cbv zeta in X, Y, C, A.
    eapply pointerInViewport_ext; [exact X | exact Y | exact A | exact C |].
    destruct r as [hs|]; [|exact HV].
    apply fold_processHand_in_viewport; assumption. }
  assert (I : pointerInViewport W H initialState).
  { unfold pointerInViewport; simpl.
    repeat split; try lra; congruence. }
  pose proof (G initialState I) as V.
  pose proof V as (_ & _ & _ & _ & _ & F1 & F2).
  exact (conj F1 (conj F2 V)).
Qed.

Lemma X12_cursor_in_viewport_witness :
  let s := runFrames
             [(envAt 0 None, Some [pinchHand Right 0.5 0.5 0.03]);
              (envAt 16 None, Some [pinchHand Right 0.25 0.75 0.03])]
             initialState in
  0 <= cur_x (cursor s) <= 1000 /\ 0 <= cur_y (cursor s) <= 1000.
Proof.
  destruct (X12_cursor_in_viewport 1000 1000
              [(envAt 0 None, Some [pinchHand Right 0.5 0.5 0.03]);
               (envAt 16 None, Some [pinchHand Right 0.25 0.75 0.03])])
    as (A & B & _); [lra | lra | | split; assumption].
  repeat constructor; simpl; lra.
Defined.

(** ** The gallery items *)

Lemma Month_eqb_eq (a b : Month) : Month_eqb a b = true <-> a = b.
Proof. destruct a, b; simpl; split; intros H; congruence. Qed.

Lemma MediaType_eqb_eq (a b : MediaType) : MediaType_eqb a b = true <-> a = b.
Proof. destruct a, b; simpl; split; intros H; congruence. Qed.

(** X13. The month filter keeps the number, the order and the ids of the
    items; with month ALL it returns the items as they are; filtering
    twice is filtering once.  An item is shown (not EMPTY) exactly when
    it holds media and the selected month is ALL, or the item has no
    month, or its month is the selected one; a shown item is the
    original item, and a hidden one keeps its id, URL, month and video
    element and loses its texture. *)
Theorem X13_filteredItems (items : list PictureItem) (selectedMonth : Month) :
  length (filteredItems items selectedMonth) = length items /\
  map itemId (filteredItems items selectedMonth) = map itemId items /\
  filteredItems items ALL = items /\
  filteredItems (filteredItems items selectedMonth) selectedMonth
  = filteredItems items selectedMonth /\
  Forall2
    (fun item shown =>
       (itemType shown <> EMPTY <->
        itemType item <> EMPTY /\
        (selectedMonth = ALL \/ month item = None \/
         month item = Some selectedMonth)) /\
       (itemType shown <> EMPTY -> shown = item) /\
       (itemType shown = EMPTY ->
        itemId shown = itemId item /\ url shown = url item /\
        month shown = month item /\
        videoElement shown = videoElement item /\
        (itemType item <> EMPTY -> texture shown = None)))
    items (filteredItems items selectedMonth).
Proof.
  unfold filteredItems.
  destruct (Month_eqb selectedMonth ALL) eqn:EA.
  - apply Month_eqb_eq in EA; subst; cbn [Month_eqb].
    repeat split; try reflexivity.
    induction items as [|item items IH]; constructor; [|exact IH].
    repeat split; try tauto; try reflexivity.
  - assert (NA : selectedMonth <> ALL)
      by (intros ->; discriminate EA).
    split; [apply length_map|].
    split; [rewrite map_map; apply map_ext; intros item;
            destruct (MediaType_eqb (itemType item) EMPTY); [reflexivity|];
            destruct (month item) as [m|]; [|reflexivity];
            destruct (negb (Month_eqb m selectedMonth)); reflexivity|].
    split; [reflexivity|].
    split.
    + rewrite map_map; apply map_ext; intros item.
      destruct (MediaType_eqb (itemType item) EMPTY) eqn:E1;
        [rewrite E1; reflexivity|].
      destruct (month item) as [m|] eqn:E2; [|rewrite E1, E2; reflexivity].
      destruct (negb (Month_eqb m selectedMonth)) eqn:E3; cbn;
        [reflexivity | rewrite E1, E2, E3; reflexivity].
    + induction items as [|item items IH]; simpl; constructor; [|exact IH].
      destruct (MediaType_eqb (itemType item) EMPTY) eqn:E1.
      * apply MediaType_eqb_eq in E1.
        repeat split; try reflexivity; try tauto; congruence.
      * assert (N1 : itemType item <> EMPTY)
          by (intros H; apply MediaType_eqb_eq in H; congruence).
        destruct (month item) as [m|] eqn:E2.
        -- destruct (Month_eqb m selectedMonth) eqn:E3; cbn [negb].
           ++ apply Month_eqb_eq in E3; subst m.
              repeat split; try reflexivity; try tauto; congruence.
           ++ assert (N3 : m <> selectedMonth)
                by (intros H; apply Month_eqb_eq in H; congruence).
              cbn; repeat split; try reflexivity; try congruence.
              intros [_ [H|[H|H]]]; congruence.
        -- repeat split; try reflexivity; try tauto; congruence.
Qed.

Lemma resizeSlots_fold (t : R) (items acc : list PictureItem)
    (idx : list nat) :
  fold_left
    (fun newItems i =>
       match nth_error items i with
       | Some item => newItems ++ [item]
       | None => newItems ++ [emptySlot t i]
       end) idx acc
  = acc ++ map (fun i => match nth_error items i with
                         | Some item => item
                         | None => emptySlot t i
                         end) idx.
Proof.
  revert acc; induction idx as [|i idx IH]; intros acc; simpl;
    [rewrite app_nil_r; reflexivity|].
  rewrite IH; destruct (nth_error items i); rewrite <- app_assoc; reflexivity.
Qed.

Lemma resizeSlots_map (t : R) (n : nat) (items : list PictureItem) :
  resizeSlots t n items
  = map (fun i => match nth_error items i with
                  | Some item => item
                  | None => emptySlot t i
                  end) (seq 0 n).
Proof.
  unfold resizeSlots; rewrite resizeSlots_fold; simpl.
  apply firstn_all2; rewrite length_map, length_seq; lia.
Qed.

Lemma map_nth_error_seq (items : list PictureItem) (t : R) (a n : nat) :
  (a + n <= length items)%nat ->
  map (fun i => match nth_error items i with
                | Some item => item
                | None => emptySlot t i
                end) (seq a n)
  = firstn n (skipn a items).
Proof.
  revert a items; induction n as [|n IH]; intros a items H; simpl;
    [reflexivity|].
  destruct (skipn a items) as [|item rest] eqn:E.
  - assert (length (skipn a items) = O) by (rewrite E; reflexivity).
    rewrite length_skipn in *; lia.
  - assert (E1 : nth_error items a = Some item).
    { rewrite <- (firstn_skipn a items) at 1.
      rewrite nth_error_app2; rewrite length_firstn;
        [|lia].
      replace (a - Nat.min a (length items))%nat with O by lia.
      rewrite E; reflexivity. }
    rewrite E1; f_equal.
    rewrite IH by lia.
    replace (skipn (S a) items) with rest; [reflexivity|].
    replace (S a) with (1 + a)%nat by lia.
    rewrite <- skipn_skipn, E; reflexivity.
Qed.

(** X14. Changing the slot count gives exactly that many items.  When
    the count does not exceed the number of items the list is cut to its
    first [slotCount] items; when it does, every item is kept in place
    and EMPTY slots are created behind them, the slot at index [i] with
    the id made from the time and [i], aspect ratio 1 and month ALL. *)
Theorem X14_resizeSlots (t : R) (slotCount : nat)
    (items : list PictureItem) :
  length (resizeSlots t slotCount items) = slotCount /\
  ((slotCount <= length items)%nat ->
   resizeSlots t slotCount items = firstn slotCount items) /\
  ((length items <= slotCount)%nat ->
   resizeSlots t slotCount items
   = items ++ map (emptySlot t)
               (seq (length items) (slotCount - length items))).
Proof.
  rewrite resizeSlots_map.
  split; [rewrite length_map, length_seq; reflexivity|].
  split; intros H.
  - rewrite (map_nth_error_seq items t 0 slotCount) by lia; reflexivity.
  - replace slotCount with (length items + (slotCount - length items))%nat
      at 1 by lia.
    rewrite seq_app, map_app; simpl.
    rewrite (map_nth_error_seq items t 0 (length items)) by lia.
    simpl; rewrite firstn_all; f_equal.
    apply map_ext_in; intros i Hi; apply in_seq in Hi.
    destruct (nth_error items i) eqn:E; [|reflexivity].
    assert (i < length items)%nat
      by (apply nth_error_Some; rewrite E; discriminate).
    lia.
Qed.

Lemma X14_resizeSlots_witness :
  resizeSlots 7 3 [emptySlot 1 0] 
  = [emptySlot 1 0] ++ map (emptySlot 7) (seq 1 2) /\
  resizeSlots 7 1 [emptySlot 1 0; emptySlot 1 1] = [emptySlot 1 0].
Proof.
  split.
  - apply (proj2 (proj2 (X14_resizeSlots 7 3 [emptySlot 1 0]))); simpl; lia.
  - apply (proj1 (proj2 (X14_resizeSlots 7 1 [emptySlot 1 0; emptySlot 1 1])));
      simpl; lia.
Defined.

Lemma handleMediaUpload_no_files (items : list PictureItem) (m : Month) :
  handleMediaUpload items [] m = items.
Proof. destruct items; reflexivity. Qed.

Lemma handleMediaUpload_countEmpty (items : list PictureItem)
    (files : list File) (m : Month) :
  countEmpty (handleMediaUpload items files m)
  = (countEmpty items - length files)%nat.
Proof.
  unfold countEmpty.
  revert files; induction items as [|item items IH]; intros files; simpl;
    [reflexivity|].
  destruct files as [|file more].
  - simpl; lia.
  - destruct (MediaType_eqb (itemType item) EMPTY) eqn:E; simpl.
    + destruct (fileIsVideo file); simpl; rewrite IH; simpl; lia.
    + rewrite E, IH; reflexivity.
Qed.

Lemma handleMediaUpload_ids (items : list PictureItem)
    (files : list File) (m : Month) :
  map itemId (handleMediaUpload items files m) = map itemId items.
Proof.
  revert files; induction items as [|item items IH]; intros files; simpl;
    [reflexivity|].
  destruct files as [|file more]; [reflexivity|].
  destruct (MediaType_eqb (itemType item) EMPTY); simpl; rewrite IH;
    reflexivity.
Qed.

(** X15. An upload keeps the number, the order and the ids of the items
    and leaves every item that holds media as it is.  The files go, in
    order, into the EMPTY slots, first slot first: the number of EMPTY
    slots drops by the number of files, or to zero when there are more
    files than EMPTY slots, the surplus files being dropped.  A filled
    slot gets the type of its file, the file's URL, the selected month
    and aspect ratio 1. *)
Theorem X15_handleMediaUpload (items : list PictureItem)
    (files : list File) (selectedMonth : Month) :
  let result := handleMediaUpload items files selectedMonth in
  length result = length items /\
  map itemId result = map itemId items /\
  Forall2 (fun item new => itemType item <> EMPTY -> new = item)
    items result /\
  countEmpty result = (countEmpty items - length files)%nat /\
  (forall filled file rest more,
     Forall (fun item => itemType item <> EMPTY) filled ->
     forall slot0,
       itemType slot0 = EMPTY ->
       items = filled ++ slot0 :: rest -> files = file :: more ->
       result
       = filled ++ fillSlot slot0 file selectedMonth
           :: handleMediaUpload rest more selectedMonth).
Proof.
  cbv zeta.
  split; [|split; [|split; [|split]]].
  - revert files; induction items as [|item items IH]; intros files; simpl;
      [reflexivity|].
    destruct files as [|file more]; [reflexivity|].
    destruct (MediaType_eqb (itemType item) EMPTY); simpl; rewrite IH;
      reflexivity.
  - apply handleMediaUpload_ids.
  - revert files; induction items as [|item items IH]; intros files; simpl;
      [constructor|].
    destruct files as [|file more].
    + constructor; [reflexivity|].
      specialize (IH []); rewrite handleMediaUpload_no_files in IH; exact IH.
    + destruct (MediaType_eqb (itemType item) EMPTY) eqn:E; constructor;
        try apply IH; try reflexivity.
      intros N; apply MediaType_eqb_eq in E; contradiction.
  - apply handleMediaUpload_countEmpty.
  - intros filled file rest more HF slot0 HE -> ->.
    induction HF as [|item filled Hi _ IH]; simpl.
    + rewrite HE; reflexivity.
    + destruct (MediaType_eqb (itemType item) EMPTY) eqn:E;
        [apply MediaType_eqb_eq in E; contradiction|].
      rewrite IH; reflexivity.
Qed.

Lemma X15_handleMediaUpload_witness :
  handleMediaUpload
    [fillSlot (emptySlot 1 0) (mkFile false 10%nat) JAN; emptySlot 1 1;
     emptySlot 1 2]
    [mkFile true 11%nat] FEB
  = [fillSlot (emptySlot 1 0) (mkFile false 10%nat) JAN]
      ++ fillSlot (emptySlot 1 1) (mkFile true 11%nat) FEB
      :: handleMediaUpload [emptySlot 1 2] [] FEB.
Proof.
  apply (proj2 (proj2 (proj2 (proj2
           (X15_handleMediaUpload
              [fillSlot (emptySlot 1 0) (mkFile false 10%nat) JAN;
               emptySlot 1 1; emptySlot 1 2]
              [mkFile true 11%nat] FEB))))
           [fillSlot (emptySlot 1 0) (mkFile false 10%nat) JAN]
           (mkFile true 11%nat) [emptySlot 1 2] []).
  - repeat constructor; discriminate.
  - reflexivity.
  - reflexivity.
  - reflexivity.
Defined.

(** X16. Clearing keeps the number, the order and the ids of the items
    and turns every item into an EMPTY slot with no URL, no texture, no
    video element, aspect ratio 1 and month ALL.  Clearing twice is
    clearing once, the month filter shows a cleared list as it is, and
    an upload after a clear fills the first slots: as many slots stay
    EMPTY as the items outnumber the files. *)
Theorem X16_handleClearMedia (items : list PictureItem) :
  let cleared := handleClearMedia items in
  length cleared = length items /\
  map itemId cleared = map itemId items /\
  Forall (fun item =>
            item = mkItem (itemId item) EMPTY None (Some ALL) 1 None None)
    cleared /\
  countEmpty cleared = length items /\
  handleClearMedia cleared = cleared /\
  (forall m, filteredItems cleared m = cleared) /\
  (forall files m,
     countEmpty (handleMediaUpload cleared files m)
     = (length items - length files)%nat).
Proof.
  cbv zeta.
  assert (CE : countEmpty (handleClearMedia items) = length items).
  { unfold countEmpty, handleClearMedia.
    induction items as [|item items IH]; simpl; [reflexivity|].
    rewrite IH; reflexivity. }
  split; [apply length_map|].
  split; [unfold handleClearMedia; rewrite map_map; reflexivity|].
  split; [unfold handleClearMedia; apply Forall_forall; intros it Hin;
          apply in_map_iff in Hin; destruct Hin as (o & <- & _);
          reflexivity|].
  split; [exact CE|].
  split; [unfold handleClearMedia; rewrite map_map; reflexivity|].
  split.
  - intros m; unfold filteredItems, handleClearMedia.
    destruct (Month_eqb m ALL); [reflexivity|].
    rewrite map_map; reflexivity.
  - intros files m; rewrite handleMediaUpload_countEmpty, CE; reflexivity.
Qed.

(** ** Item ids along the life of the gallery *)

Lemma resizeSlots_slots (t : R) (n : nat) (items : list PictureItem) :
  map (fun item => slot (itemId item)) items = seq 0 (length items) ->
  map (fun item => slot (itemId item)) (resizeSlots t n items) = seq 0 n.
Proof.
  intros H.
  assert (G : forall a k,
            map (fun item => slot (itemId item))
              (map (fun i => match nth_error items i with
                             | Some item => item
                             | None => emptySlot t i
                             end) (seq a k)) = seq a k).
  { intros a k; revert a; induction k as [|k IH]; intros a; simpl;
      [reflexivity|].
    rewrite IH; f_equal.
    destruct (nth_error items a) as [item|] eqn:E; [|reflexivity].
    assert (E' : nth_error (map (fun item => slot (itemId item)) items) a
                 = Some (slot (itemId item)))
      by (rewrite nth_error_map, E; reflexivity).
    rewrite H in E'.
    assert (a < length items)%nat
      by (apply nth_error_Some; rewrite E; discriminate).
    rewrite nth_error_nth' with (d := O) in E'
      by (rewrite length_seq; assumption).
    rewrite seq_nth in E' by assumption.
    inversion E'; lia. }
  rewrite resizeSlots_map; apply G.
Qed.

Lemma galleryStep_slots (items : list PictureItem) (a : GalleryAction) :
  map (fun item => slot (itemId item)) items = seq 0 (length items) ->
  map (fun item => slot (itemId item)) (galleryStep items a)
  = seq 0 (length (galleryStep items a)).
Proof.
  intros H; destruct a as [t n|files m|]; simpl.
  - rewrite (resizeSlots_slots t n items H).
    rewrite resizeSlots_map, length_map, length_seq; reflexivity.
  - assert (E : map (fun item => slot (itemId item))
                  (handleMediaUpload items files m)
                = map slot (map itemId (handleMediaUpload items files m)))
      by (rewrite map_map; reflexivity).
    rewrite E, handleMediaUpload_ids, map_map, H.
    rewrite <- (length_map itemId (handleMediaUpload items files m)).
    rewrite handleMediaUpload_ids, length_map; reflexivity.
  - unfold handleClearMedia; rewrite map_map, length_map; exact H.
Qed.

(** X17. From the empty list the component starts with, whatever
    sequence of slot-count changes, uploads and clears is applied, the
    ids of the items are pairwise distinct, the item at index [i] has
    the id made for slot [i], and the number of items is the slot count
    of the last change (zero before the first). *)
Theorem X17_item_ids_distinct (actions : list GalleryAction) :
  let items := fold_left galleryStep actions [] in
  NoDup (map itemId items) /\
  (forall i item, nth_error items i = Some item -> slot (itemId item) = i) /\
  length items
  = fold_left (fun n a => match a with Resize _ k => k | _ => n end)
      actions O.
Proof.
  cbv zeta.
  assert (G : forall items,
            map (fun item => slot (itemId item)) items = seq 0 (length items)
            -> map (fun item => slot (itemId item))
                 (fold_left galleryStep actions items)
               = seq 0 (length (fold_left galleryStep actions items))).
  { induction actions as [|a actions IH]; intros items H; simpl; [exact H|].
    apply IH, galleryStep_slots, H. }
  specialize (G [] eq_refl).
  set (items := fold_left galleryStep actions []) in *.
  split; [|split].
  - apply (NoDup_map_inv slot).
    rewrite map_map, G; apply seq_NoDup.
  - intros i item E.
    assert (E' : nth_error (map (fun item => slot (itemId item)) items) i
                 = Some (slot (itemId item)))
      by (rewrite nth_error_map, E; reflexivity).
    rewrite G in E'.
    assert (i < length items)%nat
      by (apply nth_error_Some; rewrite E; discriminate).
    rewrite nth_error_nth' with (d := O) in E'
      by (rewrite length_seq; assumption).
    rewrite seq_nth in E' by assumption.
    inversion E'; lia.
  - unfold items; clear.
    assert (L : forall its,
              length (fold_left galleryStep actions its)
              = fold_left
                  (fun n a => match a with Resize _ k => k | _ => n end)
                  actions (length its)).
    { induction actions as [|a actions IH]; intros its; simpl;
        [reflexivity|].
      rewrite IH; f_equal.
      destruct a as [t n|files m|]; simpl.
      - rewrite resizeSlots_map, length_map, length_seq; reflexivity.
      - rewrite <- (length_map itemId), handleMediaUpload_ids, length_map.
        reflexivity.
      - apply length_map. }
    apply (L []).
Qed.

(** ** The focused item *)

Lemma wrapped_rem_mod (r n : Z) :
  (0 < n)%Z -> Z.rem (Z.rem r n + n) n = (r mod n)%Z.
Proof.
  intros Hn.
  pose proof (Z.rem_bound_abs r n ltac:(lia)) as B.
  pose proof (Z.quot_rem' r n) as Q.
  rewrite Z.rem_mod_nonneg by lia.
  replace (Z.rem r n + n)%Z with (r + (1 - Z.quot r n) * n)%Z by lia.
  apply Z_mod_plus_full.
Qed.

Lemma angleStep_pos (len : nat) : (0 < len)%nat -> 0 < PI * 2 / INR len.
Proof.
  intros H; apply Rdiv_lt_0_compat; [pose proof PI_RGT_0; lra|].
  apply lt_0_INR; exact H.
Qed.

Lemma rawIndex_shift (scrollOffset : R) (len : nat) (j : Z) :
  (0 < len)%nat ->
  Math_round (- (scrollOffset - IZR j * (PI * 2 / INR len))
              / (PI * 2 / INR len))
  = (Math_round (- scrollOffset / (PI * 2 / INR len)) + j)%Z.
Proof.
  intros H; pose proof (angleStep_pos len H) as Hs.
  unfold Math_round; rewrite <- Zfloor_addz; f_equal.
  field; split; [apply not_0_INR; lia | pose proof PI_RGT_0; lra].
Qed.

(** X18. For a list that is not empty the focus index lies between 0 and
    the length, it is the rounded quotient reduced modulo the length,
    and the focus effect always answers the id of the item at that
    index: it never keeps the old id.  For an empty list it answers no
    id. *)
Theorem X18_focus_index_in_range (scrollOffset : R)
    (filtered : list PictureItem) (focusedId : option ItemId) :
  focusEffect scrollOffset [] focusedId = None /\
  (filtered <> [] ->
   let len := length filtered in
   let idx := focusIndex scrollOffset len in
   (0 <= idx < Z.of_nat len)%Z /\
   idx = (Math_round (- scrollOffset / (PI * 2 / INR len))
          mod Z.of_nat len)%Z /\
   exists item,
     nth_error filtered (Z.to_nat idx) = Some item /\
     focusEffect scrollOffset filtered focusedId = Some (itemId item)).
Proof.
  split; [reflexivity|].
  intros Hne; cbv zeta.
  assert (Hlen : (0 < Z.of_nat (length filtered))%Z)
    by (destruct filtered; [contradiction | simpl; lia]).
  assert (E : focusIndex scrollOffset (length filtered)
              = (Math_round (- scrollOffset / (PI * 2 / INR (length filtered)))
                 mod Z.of_nat (length filtered))%Z)
    by (unfold focusIndex; cbv zeta; apply wrapped_rem_mod; exact Hlen).
  pose proof (Z.mod_pos_bound
                (Math_round (- scrollOffset
                             / (PI * 2 / INR (length filtered))))
                _ Hlen) as B.
  rewrite <- E in B.
  split; [exact B|]. split; [exact E|].
  destruct (nth_error filtered
              (Z.to_nat (focusIndex scrollOffset (length filtered))))
    as [item|] eqn:N.
  - exists item; split; [reflexivity|].
    unfold focusEffect; destruct filtered as [|a l]; [contradiction|].
    cbv zeta.
    destruct (Z.leb_spec 0 (focusIndex scrollOffset (length (a :: l))));
      [|lia].
    rewrite N; reflexivity.
  - exfalso; apply nth_error_None in N; lia.
Qed.

Lemma X18_focus_index_in_range_witness :
  exists item,
    nth_error [emptySlot 1 0; emptySlot 1 1]
      (Z.to_nat (focusIndex 0 2)) = Some item /\
    focusEffect 0 [emptySlot 1 0; emptySlot 1 1] None = Some (itemId item).
Proof.
  destruct (proj2 (X18_focus_index_in_range 0
                     [emptySlot 1 0; emptySlot 1 1] None))
    as (_ & _ & H); [discriminate | exact H].
Defined.

(** X19. Moving the scroll offset back by [j] angle steps moves the
    focus index forward by [j], around the ring; in particular a full
    turn of the scroll offset, in either direction and any number of
    times, leaves the focus where it was. *)
Theorem X19_focus_follows_scroll (scrollOffset : R) (len : nat) (j : Z)
    (Hlen : (0 < len)%nat) :
  focusIndex (scrollOffset - IZR j * (PI * 2 / INR len)) len
  = ((focusIndex scrollOffset len + j) mod Z.of_nat len)%Z /\
  focusIndex (scrollOffset + IZR j * (PI * 2)) len
  = focusIndex scrollOffset len.
Proof.
  assert (Hz : (0 < Z.of_nat len)%Z) by lia.
  assert (S : forall k,
            focusIndex (scrollOffset - IZR k * (PI * 2 / INR len)) len
            = ((focusIndex scrollOffset len + k) mod Z.of_nat len)%Z).
  { intros k; unfold focusIndex; cbv zeta.
    rewrite !wrapped_rem_mod by exact Hz.
    rewrite rawIndex_shift by exact Hlen.
    rewrite Zplus_mod_idemp_l; reflexivity. }
  split; [apply S|].
  replace (scrollOffset + IZR j * (PI * 2))
    with (scrollOffset - IZR (- j * Z.of_nat len) * (PI * 2 / INR len)).
  - rewrite S.
    replace (focusIndex scrollOffset len + - j * Z.of_nat len)%Z
      with (focusIndex scrollOffset len + (- j) * Z.of_nat len)%Z by lia.
    rewrite Z_mod_plus_full.
    unfold focusIndex; cbv zeta; rewrite wrapped_rem_mod by exact Hz.
    apply Zmod_mod.
  - rewrite mult_IZR, opp_IZR, <- INR_IZR_INZ.
    field; apply not_0_INR; lia.
Qed.

Lemma X19_focus_follows_scroll_witness :
  focusIndex (0 + IZR 1 * (PI * 2)) 20 = focusIndex 0 20.
Proof.
  apply (proj2 (X19_focus_follows_scroll 0 20 1 ltac:(lia))).
Defined.

(** X20. The focused item is the one at the front of the ring: with the
    ring angle of item [i] being [i] angle steps plus the scroll offset,
    the ring angle of the focus index is, up to whole turns, within half
    an angle step of zero. *)
Theorem X20_focus_is_front_item (scrollOffset : R) (len : nat)
    (Hlen : (0 < len)%nat) :
  let angleStep := PI * 2 / INR len in
  let theta := IZR (focusIndex scrollOffset len) * angleStep + scrollOffset in
  exists turns : Z,
    - (angleStep / 2) < theta + IZR turns * (PI * 2) <= angleStep / 2.
Proof.
  cbv zeta.
  pose proof (angleStep_pos len Hlen) as Hs.
  set (step := PI * 2 / INR len) in *.
  assert (Hz : (0 < Z.of_nat len)%Z) by lia.
  set (raw := Math_round (- scrollOffset / step)).
  assert (E : focusIndex scrollOffset len = (raw mod Z.of_nat len)%Z)
    by (unfold focusIndex; cbv zeta; apply wrapped_rem_mod; exact Hz).
  pose proof (Z.div_mod raw (Z.of_nat len) ltac:(lia)) as DM.
  exists (raw / Z.of_nat len)%Z.
  assert (T : IZR (focusIndex scrollOffset len) * step
              + IZR (raw / Z.of_nat len) * (PI * 2)
              = IZR raw * step).
  { rewrite E.
    replace (PI * 2) with (IZR (Z.of_nat len) * step)
      by (unfold step; rewrite <- INR_IZR_INZ; field; apply not_0_INR; lia).
    rewrite <- Rmult_assoc, <- Rmult_plus_distr_r, <- mult_IZR, <- plus_IZR.
    f_equal; f_equal; lia. }
  pose proof (Zfloor_bound (- scrollOffset / step + 0.5)) as [B1 B2].
  fold (Math_round (- scrollOffset / step)) in B1, B2; fold raw in B1, B2.
  replace (IZR (focusIndex scrollOffset len) * step + scrollOffset
           + IZR (raw / Z.of_nat len) * (PI * 2))
    with (IZR raw * step + scrollOffset) by lra.
  assert (Q : - scrollOffset / step * step = - scrollOffset)
    by (field; lra).
  split; nra.
Qed.

Lemma X20_focus_is_front_item_witness :
  exists turns : Z,
    - (PI * 2 / INR 20 / 2)
    < IZR (focusIndex 1 20) * (PI * 2 / INR 20) + 1 + IZR turns * (PI * 2)
    <= PI * 2 / INR 20 / 2.
Proof.
  exact (X20_focus_is_front_item 1 20 ltac:(lia)).
Defined.

(** ** Layout of the 3D scene *)

(** X21. For an index from 0 to the total less one, the lattice point lies on the sphere of the given radius around the
    origin, and its third coordinate falls linearly with the index, from
    just under the radius to just above its opposite: the points are
    spread evenly over the height of the sphere. *)
Theorem X21_sphere_position (index total radius : R)
    (Hindex : 0 <= index <= total - 1) :
  let p := getSpherePosition index total radius in
  fst (fst p) ^ 2 + snd (fst p) ^ 2 + snd p ^ 2 = radius ^ 2 /\
  snd p = radius * (1 - 2 * (index + 0.5) / total).
Proof.
  cbv zeta; unfold getSpherePosition; cbn [fst snd].
  set (phi := acos (1 - 2 * (index + 0.5) / total)).
  set (theta := PI * (1 + sqrt 5) * (index + 0.5)).
  split.
  - pose proof (sin2_cos2 phi) as P; pose proof (sin2_cos2 theta) as T.
    unfold Rsqr in P, T.
    replace ((radius * sin phi * cos theta) ^ 2
             + (radius * sin phi * sin theta) ^ 2 + (radius * cos phi) ^ 2)
      with (radius ^ 2
            * (sin phi * sin phi * (sin theta * sin theta + cos theta * cos theta)
               + cos phi * cos phi)) by ring.
    rewrite T, Rmult_1_r, P; ring.
  - unfold phi; rewrite cos_acos; [reflexivity|].
    assert (Ht : 0 < total) by lra.
    assert (Q : 0 < 2 * (index + 0.5) / total < 2).
    { split.
      - apply Rdiv_lt_0_compat; lra.
      - apply Rmult_lt_reg_r with (r := total); [exact Ht|].
        unfold Rdiv; rewrite Rmult_assoc, Rinv_l by lra; lra. }
    lra.
Qed.

Lemma X21_sphere_position_witness :
  let p := getSpherePosition 0 20 4.5 in
  fst (fst p) ^ 2 + snd (fst p) ^ 2 + snd p ^ 2 = 4.5 ^ 2.
Proof.
  apply (proj1 (X21_sphere_position 0 20 4.5 ltac:(lra))).
Defined.

Lemma ringRadius_bounds (total : R) :
  MIN_RADIUS <= ringRadius total /\
  total * ITEM_ARC_SPACING <= ringRadius total * (2 * PI).
Proof.
  pose proof PI_RGT_0 as HP.
  unfold ringRadius; cbv zeta.
  set (c := Rmax (total * ITEM_ARC_SPACING) (MIN_RADIUS * 2 * PI)).
  assert (C1 : MIN_RADIUS * 2 * PI <= c) by apply Rmax_r.
  assert (C2 : total * ITEM_ARC_SPACING <= c) by apply Rmax_l.
  assert (E : c / (2 * PI) * (2 * PI) = c) by (field; lra).
  split; [|rewrite E; exact C2].
  apply Rmult_le_reg_r with (r := 2 * PI); [lra|].
  rewrite E; lra.
Qed.

Lemma ItemId_eqb_eq (a b : ItemId) : ItemId_eqb a b = true <-> a = b.
Proof.
  unfold ItemId_eqb; destruct a as [ta ia], b as [tb ib]; cbn [stamp slot].
  destruct (Req_dec_T ta tb) as [E|N]; cbn [andb].
  - rewrite Nat.eqb_eq; split; intros H.
    + subst; reflexivity.
    + inversion H; reflexivity.
  - split; intros H; [discriminate|].
    inversion H; contradiction.
Qed.

Lemma isFocused_spec (mode : AppMode) (item : PictureItem)
    (focusedId : option ItemId) :
  isFocused mode item focusedId = true
  <-> mode = FOCUS /\ focusedId = Some (itemId item).
Proof.
  unfold isFocused; split.
  - intros H; apply andb_prop in H; destruct H as [M F].
    split; [destruct mode; try discriminate; reflexivity|].
    destruct focusedId as [f|]; [|discriminate].
    apply ItemId_eqb_eq in F; subst; reflexivity.
  - intros [-> ->]; cbn [AppMode_eqb andb].
    apply ItemId_eqb_eq; reflexivity.
Qed.

Lemma getSpherePosition_norm (index total radius : R) :
  let p := getSpherePosition index total radius in
  fst (fst p) ^ 2 + snd (fst p) ^ 2 + snd p ^ 2 = radius ^ 2.
Proof.
  cbv zeta; unfold getSpherePosition; cbn [fst snd].
  set (phi := acos (1 - 2 * (index + 0.5) / total)).
  set (theta := PI * (1 + sqrt 5) * (index + 0.5)).
  pose proof (sin2_cos2 phi) as P; pose proof (sin2_cos2 theta) as T.
  unfold Rsqr in P, T.
  replace ((radius * sin phi * cos theta) ^ 2
           + (radius * sin phi * sin theta) ^ 2 + (radius * cos phi) ^ 2)
    with (radius ^ 2
          * (sin phi * sin phi * (sin theta * sin theta + cos theta * cos theta)
             + cos phi * cos phi)) by ring.
  rewrite T, Rmult_1_r, P; ring.
Qed.

Lemma sin_cos_whole_turns (k : Z) :
  sin (2 * IZR k * PI) = 0 /\ cos (2 * IZR k * PI) = 1.
Proof.
  assert (S : sin (IZR k * PI) = 0) by (apply sin_eq_0_1; exists k; reflexivity).
  pose proof (sin2_cos2 (IZR k * PI)) as Q; unfold Rsqr in Q.
  replace (2 * IZR k * PI) with (2 * (IZR k * PI)) by ring.
  rewrite sin_2a, cos_2a, S; split; [ring|].
  rewrite S in Q; lra.
Qed.

(** X22. The target position of a frame.  In AGGREGATE mode it lies on
    the sphere of radius 4.5 times the nebula density, at the height of
    the item's lattice point, at every time.  In the other two modes the
    ring has a radius of at least 9 and, for a positive number of items,
    neighbours are at least 1.6 apart along its arc; the focused item,
    which is the item of FOCUS mode whose id is the focused id, is set
    at (0, 0, 2.2); every other item lies on the circle of the ring's
    radius whose centre is 1.5 beyond the radius in depth, its height
    within 0.2 of zero, and sits at x = 0, depth 1.5 when its ring angle
    is a whole number of turns.  So in these modes no target, focused or
    not, has a depth below 1.5 or lies outside the ring. *)
Theorem X22_target_position (mode : AppMode) (item : PictureItem)
    (focusedId : option ItemId)
    (index total scrollOffset nebulaDensity driftSpeed time : R) :
  let radius := ringRadius total in
  let p := tPos mode item focusedId index total scrollOffset nebulaDensity
             driftSpeed time in
  let px := fst (fst p) in
  let py := snd (fst p) in
  let pz := snd p in
  let theta := index * (PI * 2 / total) + scrollOffset in
  (mode = AGGREGATE ->
   px ^ 2 + py ^ 2 + pz ^ 2 = (4.5 * nebulaDensity) ^ 2 /\
   py = snd (fst (getSpherePosition index total (4.5 * nebulaDensity)))) /\
  9 <= radius /\
  (0 < total -> 1.6 <= radius * (PI * 2 / total)) /\
  (isFocused mode item focusedId = true
   <-> mode = FOCUS /\ focusedId = Some (itemId item)) /\
  (isFocused mode item focusedId = true -> p = (0, 0, 2.2)) /\
  (mode <> AGGREGATE -> isFocused mode item focusedId = false ->
   px ^ 2 + (pz - (radius + 1.5)) ^ 2 = radius ^ 2 /\
   -0.2 <= py <= 0.2 /\
   (forall k : Z, theta = 2 * IZR k * PI -> px = 0 /\ pz = 1.5)) /\
  (mode <> AGGREGATE ->
   1.5 <= pz /\ px ^ 2 + (pz - (radius + 1.5)) ^ 2 <= radius ^ 2).
Proof.
  cbv zeta.
  destruct (ringRadius_bounds total) as [R1 R2].
  unfold MIN_RADIUS, ITEM_ARC_SPACING in *.
  set (radius := ringRadius total) in *.
  set (theta := index * (PI * 2 / total) + scrollOffset).
  assert (Ring : forall m, m <> AGGREGATE -> isFocused m item focusedId = false ->
            tPos m item focusedId index total scrollOffset nebulaDensity
              driftSpeed time
            = (radius * sin theta, sin (index * 0.5 + time) * 0.2,
               radius + 1.5 - radius * cos theta)).
  { intros m Hm Hf; unfold isFocused in Hf.
    destruct m; try contradiction; unfold tPos; cbv zeta;
      fold radius; fold theta; rewrite Hf; reflexivity. }
  assert (Foc : isFocused mode item focusedId = true ->
            tPos mode item focusedId index total scrollOffset nebulaDensity
              driftSpeed time = (0, 0, 2.2)).
  { intros Hf; pose proof Hf as Hm.
    apply isFocused_spec in Hm; destruct Hm as [Hm _]; subst mode.
    unfold isFocused in Hf; unfold tPos; cbv zeta; rewrite Hf; reflexivity. }
  assert (Circle : (radius * sin theta) ^ 2
                   + (radius + 1.5 - radius * cos theta - (radius + 1.5)) ^ 2
                   = radius ^ 2).
  { pose proof (sin2_cos2 theta) as T; unfold Rsqr in T.
    replace ((radius * sin theta) ^ 2
             + (radius + 1.5 - radius * cos theta - (radius + 1.5)) ^ 2)
      with (radius ^ 2 * (sin theta * sin theta + cos theta * cos theta))
      by ring.
    rewrite T; ring. }
  split.
  { intros ->; unfold tPos; cbv zeta; cbn [fst snd].
    pose proof (getSpherePosition_norm index total (4.5 * nebulaDensity)) as N.
    cbv zeta in N.
    set (b := getSpherePosition index total (4.5 * nebulaDensity)) in *.
    pose proof (sin2_cos2 (time * driftSpeed)) as T; unfold Rsqr in T.
    split; [|reflexivity].
    rewrite <- N.
    replace ((fst (fst b) * cos (time * driftSpeed)
              - snd b * sin (time * driftSpeed)) ^ 2
             + snd (fst b) ^ 2
             + (fst (fst b) * sin (time * driftSpeed)
                + snd b * cos (time * driftSpeed)) ^ 2)
      with ((fst (fst b) ^ 2 + snd b ^ 2)
            * (sin (time * driftSpeed) * sin (time * driftSpeed)
               + cos (time * driftSpeed) * cos (time * driftSpeed))
            + snd (fst b) ^ 2) by ring.
    rewrite T; ring. }
  split; [exact R1|].
  split.
  { intros Ht.
    replace (radius * (PI * 2 / total)) with (radius * (2 * PI) / total)
      by (field; lra).
    apply Rmult_le_reg_r with (r := total); [exact Ht|].
    unfold Rdiv at 1; rewrite Rmult_assoc, Rinv_l by lra; lra. }
  split; [apply isFocused_spec|].
  split; [exact Foc|].
  split.
  { intros Hm Hf; rewrite (Ring mode Hm Hf); cbn [fst snd].
    split; [exact Circle|].
    split.
    { pose proof (SIN_bound (index * 0.5 + time)) as [B1 B2]; lra. }
    intros k Hk; rewrite Hk.
    destruct (sin_cos_whole_turns k) as [S C]; rewrite S, C; lra. }
  intros Hm.
  destruct (isFocused mode item focusedId) eqn:Hf.
  - rewrite (Foc eq_refl); cbn [fst snd]; nra.
  - rewrite (Ring mode Hm Hf); cbn [fst snd].
    split; [|rewrite Circle; lra].
    pose proof (COS_bound theta) as [_ B]; nra.
Qed.

Lemma X22_target_position_witness :
  let item := emptySlot 0 3 in
  tPos FOCUS item (Some (itemId item)) 3 20 0 1 1 0 = (0, 0, 2.2) /\
  1.6 <= ringRadius 20 * (PI * 2 / 20) /\
  1.5 <= snd (tPos BROWSE item (Some (itemId item)) 3 20 0 1 1 0).
Proof.
  cbv zeta.
  pose proof (X22_target_position FOCUS (emptySlot 0 3)
                (Some (itemId (emptySlot 0 3))) 3 20 0 1 1 0) as F.
  pose proof (X22_target_position BROWSE (emptySlot 0 3)
                (Some (itemId (emptySlot 0 3))) 3 20 0 1 1 0) as B.
  cbv zeta in F, B.
  destruct F as (_ & _ & F3 & F4 & F5 & _).
  destruct B as (_ & _ & _ & _ & _ & _ & B7).
  split; [apply F5; apply F4; split; reflexivity|].
  split; [apply F3; lra|].
  apply B7; discriminate.
Defined.

(** X23. For a positive aspect ratio the two scale factors are positive
    and at most 1, the larger of them is 1, and their quotient is the
    aspect ratio: the frame fits the unit square and keeps its shape. *)
Theorem X23_aspect_scale (aspectRatio : R) (Hpos : 0 < aspectRatio) :
  let sx := fst (aspectScale aspectRatio) in
  let sy := snd (aspectScale aspectRatio) in
  0 < sx <= 1 /\ 0 < sy <= 1 /\ Rmax sx sy = 1 /\ sx / sy = aspectRatio.
Proof.
  cbv zeta; unfold aspectScale.
  destruct (Rgtb aspectRatio 1) eqn:E; cbn [fst snd].
  - apply Rgtb_true in E.
    assert (I : 0 < 1 / aspectRatio < 1).
    { split; [apply Rdiv_lt_0_compat; lra|].
      apply Rmult_lt_reg_r with (r := aspectRatio); [lra|].
      unfold Rdiv; rewrite Rmult_assoc, Rinv_l by lra; lra. }
    repeat split; try lra;
      try (apply Rmax_left; lra); try (field; lra).
  - apply Rgtb_false in E.
    repeat split; try lra;
      try (apply Rmax_right; lra); try (field; lra).
Qed.

Lemma X23_aspect_scale_witness :
  fst (aspectScale 2) / snd (aspectScale 2) = 2.
Proof.
  apply (proj2 (proj2 (proj2 (X23_aspect_scale 2 ltac:(lra))))).
Defined.

(** ** Fireworks particles *)

Lemma unit_roundoff_small : 0 < Particle.unit_roundoff <= 1e-15.
Proof.
  unfold Particle.unit_roundoff.
  assert (P : 0 < 2 ^ 53) by (apply pow_lt; lra).
  split; [apply Rinv_0_lt_compat; exact P|].
  apply Rmult_le_reg_r with (r := 2 ^ 53); [exact P|].
  rewrite Rinv_l by lra.
  simpl; lra.
Qed.

Lemma min_subnormal_small : 0 < Particle.min_subnormal <= 1e-15.
Proof.
  unfold Particle.min_subnormal.
  assert (P : 0 < 2 ^ 53) by (apply pow_lt; lra).
  assert (Q : 2 ^ 53 <= 2 ^ 1074) by (apply Rle_pow; [lra | lia]).
  split; [apply Rinv_0_lt_compat; lra|].
  apply Rle_trans with (r2 := / 2 ^ 53);
    [apply Rinv_le_contravar; assumption | apply unit_roundoff_small].
Qed.

(** A rounded result of magnitude at most 8 is within [1e-14] of the
    exact one. *)
Lemma rounding_error (rnd : R -> R) (H : Particle.rounding rnd) (r : R) :
  -8 <= r <= 8 -> - 1e-14 <= rnd r - r <= 1e-14.
Proof.
  intros B.
  destruct unit_roundoff_small as [U0 U1].
  destruct min_subnormal_small as [M0 M1].
  assert (A : Rabs r <= 8) by (apply Rabs_le; lra).
  assert (A0 : 0 <= Rabs r) by apply Rabs_pos.
  assert (G : Rabs r <= 2 ^ 1023).
  { apply Rle_trans with (r2 := 2 ^ 3); [simpl; lra|].
    apply Rle_pow; [lra | lia]. }
  pose proof (H r G) as E.
  assert (E' : Rabs (rnd r - r) <= 1e-14) by nra.
  pose proof (Rle_abs (rnd r - r)) as L1.
  pose proof (Rle_abs (- (rnd r - r))) as L2.
  rewrite Rabs_Ropp in L2.
  lra.
Qed.

(** A rounded result of magnitude at most 2 is within [4e-15] of the
    exact one. *)
Lemma rounding_error_2 (rnd : R -> R) (H : Particle.rounding rnd) (r : R) :
  -2 <= r <= 2 -> - 4e-15 <= rnd r - r <= 4e-15.
Proof.
  intros B.
  destruct unit_roundoff_small as [U0 U1].
  destruct min_subnormal_small as [M0 M1].
  assert (A : Rabs r <= 2) by (apply Rabs_le; lra).
  assert (A0 : 0 <= Rabs r) by apply Rabs_pos.
  assert (G : Rabs r <= 2 ^ 1023).
  { apply Rle_trans with (r2 := 2 ^ 1); [simpl; lra|].
    apply Rle_pow; [lra | lia]. }
  pose proof (H r G) as E.
  assert (E' : Rabs (rnd r - r) <= 4e-15) by nra.
  pose proof (Rle_abs (rnd r - r)) as L1.
  pose proof (Rle_abs (- (rnd r - r))) as L2.
  rewrite Rabs_Ropp in L2.
  lra.
Qed.

Lemma rounding_exact : Particle.rounding (fun r => r).
Proof.
  intros r _.
  destruct unit_roundoff_small as [U0 _].
  destruct min_subnormal_small as [M0 _].
  replace (r - r) with 0 by ring; rewrite Rabs_R0.
  pose proof (Rabs_pos r); nra.
Qed.

Lemma Particle_make_decay (rnd Math_cos Math_sin : R -> R)
    (H : Particle.rounding rnd) (x0 y0 r1 r2 r3 : R) :
  0 <= r3 < 1 ->
  let p := Particle.make rnd Math_cos Math_sin x0 y0 r1 r2 r3 in
  Particle.alpha p = 1 /\
  0.005 - 2e-14 <= Particle.decay p <= 0.02 + 2e-14.
Proof.
  intros B; cbv zeta; unfold Particle.make; cbn [Particle.alpha Particle.decay].
  split; [reflexivity|].
  pose proof (rounding_error_2 rnd H 0.015 ltac:(lra)) as E1.
  pose proof (rounding_error_2 rnd H 0.005 ltac:(lra)) as E2.
  set (c15 := rnd 0.015) in *; set (c5 := rnd 0.005) in *.
  assert (P : 0 <= r3 * c15 <= 0.015 + 4e-15) by nra.
  pose proof (rounding_error_2 rnd H (r3 * c15) ltac:(lra)) as E3.
  set (m := rnd (r3 * c15)) in *.
  pose proof (rounding_error_2 rnd H (m + c5) ltac:(lra)) as E4.
  lra.
Qed.

Lemma Particle_iter_update_decay (rnd : R -> R) (n : nat) (p : Particle.t) :
  Particle.decay (Nat.iter n (Particle.update rnd) p) = Particle.decay p.
Proof.
  induction n as [|n IH]; [reflexivity | simpl; exact IH].
Qed.

(** After [n] updates, at most 250, a particle that started at alpha 1
    has lost [n] times its decay, up to the rounding of each step. *)
Lemma Particle_iter_update_alpha (rnd : R -> R) (H : Particle.rounding rnd)
    (p : Particle.t) :
  Particle.alpha p = 1 -> 0 <= Particle.decay p <= 0.021 ->
  forall n, (n <= 250)%nat ->
    - (INR n * 1e-14)
    <= Particle.alpha (Nat.iter n (Particle.update rnd) p)
       - (1 - INR n * Particle.decay p)
    <= INR n * 1e-14.
Proof.
  intros A D; induction n as [|n IH]; intros Hn.
  - simpl; rewrite A; lra.
  - specialize (IH ltac:(lia)).
    assert (N : 0 <= INR n <= 250).
    { split; [apply pos_INR|].
      replace 250 with (INR 250) by (simpl; lra). apply le_INR; lia. }
    rewrite S_INR; simpl Nat.iter; cbn [Particle.update Particle.alpha].
    rewrite Particle_iter_update_decay.
    set (a := Particle.alpha (Nat.iter n (Particle.update rnd) p)) in *.
    set (d := Particle.decay p) in *.
    assert (M : 0 <= INR n * d <= 250 * 0.021) by nra.
    pose proof (rounding_error rnd H (a - d) ltac:(lra)) as E.
    lra.
Qed.

(** One frame: what is left has a positive alpha, smaller than before
    by nearly the least decay. *)
Lemma Particle_animate_bound (rnd : R -> R) (H : Particle.rounding rnd)
    (b : R) (ps : list Particle.t) :
  b <= 1 ->
  Forall (fun p => 0 < Particle.alpha p <= b /\
                   0.005 - 2e-14 <= Particle.decay p <= 1) ps ->
  Forall (fun p => 0 < Particle.alpha p <= b - 0.00499 /\
                   0.005 - 2e-14 <= Particle.decay p <= 1)
    (Particle.animate rnd ps).
Proof.
  intros Hb F; unfold Particle.animate.
  apply Forall_forall; intros q Hq.
  apply filter_In in Hq; destruct Hq as [Hin Hq].
  apply in_map_iff in Hin; destruct Hin as (p & <- & Hp).
  rewrite Forall_forall in F; destruct (F p Hp) as [A D].
  rewrite negb_involutive in Hq; apply Rltb_true in Hq.
  cbn [Particle.update Particle.alpha Particle.decay] in *.
  pose proof (rounding_error_2 rnd H (Particle.alpha p - Particle.decay p)
                ltac:(lra)) as E.
  repeat split; lra.
Qed.

Lemma Particle_iter_animate_bound (rnd : R -> R) (H : Particle.rounding rnd)
    (n : nat) (ps : list Particle.t) :
  Forall (fun p => 0 < Particle.alpha p <= 1 /\
                   0.005 - 2e-14 <= Particle.decay p <= 1) ps ->
  Forall (fun p => 0 < Particle.alpha p <= 1 - INR n * 0.00499 /\
                   0.005 - 2e-14 <= Particle.decay p <= 1)
    (Nat.iter n (Particle.animate rnd) ps).
Proof.
  intros F; induction n as [|n IH].
  - simpl; eapply Forall_impl; [|exact F]; simpl; intros p [A D]; lra.
  - rewrite S_INR; simpl Nat.iter.
    assert (B : 1 - INR n * 0.00499 <= 1) by (pose proof (pos_INR n); lra).
    eapply Forall_impl; [|apply (Particle_animate_bound rnd H _ _ B IH)].
    simpl; intros p (A & D); lra.
Qed.

(** X24. The lifetime of a particle, in double arithmetic: for every
    rounding of the arithmetic that meets the error bound of rounding to
    nearest, whatever [Math.cos] and [Math.sin] return.  A particle made
    by the constructor starts with alpha 1 and a decay between 0.005 and
    0.02, up to 2e-14.  In frames without a launch such a particle is
    still in the list after each of the first 49 frames, and after 201
    frames no particle is left of a list of particles whose alpha was
    positive and at most 1 and whose decay was between 0.005 less 2e-14
    and 1: the list is empty. *)
Theorem X24_particle_lifetime (rnd Math_cos Math_sin : R -> R)
    (Hrnd : Particle.rounding rnd) :
  (forall x0 y0 r1 r2 r3,
     0 <= r3 < 1 ->
     let p := Particle.make rnd Math_cos Math_sin x0 y0 r1 r2 r3 in
     Particle.alpha p = 1 /\
     0.005 - 2e-14 <= Particle.decay p <= 0.02 + 2e-14) /\
  (forall p n,
     Particle.alpha p = 1 -> 0 <= Particle.decay p <= 0.02 + 2e-14 ->
     (n <= 49)%nat ->
     Nat.iter n (Particle.animate rnd) [p]
     = [Nat.iter n (Particle.update rnd) p]) /\
  (forall ps,
     Forall (fun p => 0 < Particle.alpha p <= 1 /\
                      0.005 - 2e-14 <= Particle.decay p <= 1) ps ->
     Nat.iter 201 (Particle.animate rnd) ps = []).
Proof.
  split; [|split].
  - intros x0 y0 r1 r2 r3 B.
    apply (Particle_make_decay rnd Math_cos Math_sin Hrnd x0 y0 r1 r2 r3 B).
  - intros p n A D.
    induction n as [|n IH]; intros Hn; [reflexivity|].
    simpl Nat.iter; rewrite IH by lia.
    unfold Particle.animate at 1; cbn [map filter].
    pose proof (Particle_iter_update_alpha rnd Hrnd p A ltac:(lra)
                  (S n) ltac:(lia)) as E.
    simpl Nat.iter in E.
    assert (N : 0 <= INR (S n) <= 49).
    { split; [apply pos_INR|].
      replace 49 with (INR 49) by (simpl; lra). apply le_INR; lia. }
    assert (Q : Rltb 0 (Particle.alpha
                          (Particle.update rnd
                             (Nat.iter n (Particle.update rnd) p))) = true).
    { apply Rltb_true.
      set (a := Particle.alpha _) in *.
      set (k := INR (S n)) in *.
      assert (k * Particle.decay p <= 49 * (0.02 + 2e-14)) by nra.
      lra. }
    rewrite Q; reflexivity.
  - intros ps F.
    pose proof (Particle_iter_animate_bound rnd Hrnd 201 ps F) as B.
    destruct (Nat.iter 201 (Particle.animate rnd) ps) as [|q rest];
      [reflexivity|].
    exfalso; inversion B as [|? ? (A & _) _]; subst.
    replace (INR 201) with 201 in A by (simpl; lra).
    lra.
Qed.

Lemma X24_particle_lifetime_witness :
  let rnd := fun r : R => r in
  Nat.iter 201 (Particle.animate rnd) [Particle.make rnd cos sin 10 10 0.5 0.5 0.5]
  = [].
Proof.
  cbv zeta.
  apply (proj2 (proj2 (X24_particle_lifetime (fun r => r) cos sin
                         rounding_exact))).
  repeat constructor; simpl; lra.
Defined.

(** ** Frames without a right hand *)

Lemma fold_processHand_no_right (env : Env) (hs : list Hand) (s : State) :
  filter isRight hs = [] ->
  let t := fold_left (processHand env) hs s in
  cursor t = cursor s /\ cursorX_EMA t = cursorX_EMA s /\
  cursorY_EMA t = cursorY_EMA s /\ isPinchingRef t = isPinchingRef s /\
  anchorPos t = anchorPos s /\ lastCursorPos t = lastCursorPos s /\
  isDraggingUI t = isDraggingUI s /\ dragTarget t = dragTarget s /\
  lastHoveredElement t = lastHoveredElement s /\
  scrollTop t = scrollTop s /\ dispatched t = dispatched s.
Proof.
  revert s; induction hs as [|h hs IH]; intros s HF; simpl;
    [repeat split|].
  simpl in HF.
  assert (Hl : processHand env s h = processLeftHand s (landmarks h)).
  { unfold processHand, isRight in *; destruct (handedness h);
      [reflexivity | discriminate]. }
  assert (HF' : filter isRight hs = [])
    by (destruct (isRight h); [discriminate | exact HF]).
  destruct (IH (processHand env s h) HF')
    as (A & B & C & D & E & F & G & H & I & J & K).
  destruct (processLeftHand_keeps_right s (landmarks h))
    as (A' & _ & B' & C' & D' & E' & F' & G' & H' & I' & J' & K').
  rewrite Hl in *.
  rewrite A, B, C, D, E, F, G, H, I, J, K.
  repeat split; assumption.
Qed.

(** X25. A frame whose detections hold no Right hand, or that has no
    detections at all, makes the cursor inactive and leaves the pointer
    as it was: the reported position, [lastClickTime], the two position
    smoothers, the debounced pinch state, the anchor, the tracked
    hovered element and the scroll position are not reset.  The frame
    dispatches nothing, except the single pointer-up that closes an open
    drag session: the hovered element gets no leave event. *)
Theorem X25_right_hand_absent (env : Env) (results : option (list Hand))
    (s : State) (Hnone : rightHands results = []) :
  let s' := predictWebcam env results s in
  active (cursor s') = false /\
  cursorPos s' = cursorPos s /\
  lastClickTime (cursor s') = lastClickTime (cursor s) /\
  cursorX_EMA s' = cursorX_EMA s /\ cursorY_EMA s' = cursorY_EMA s /\
  isPinchingRef s' = isPinchingRef s /\ anchorPos s' = anchorPos s /\
  lastHoveredElement s' = lastHoveredElement s /\
  scrollTop s' = scrollTop s /\
  dispatchedSince s s'
  = match isDraggingUI s, dragTarget s with
    | true, Some t => [mkEvent t pointerup None false]
    | _, _ => []
    end.
Proof.
  cbv zeta.
  destruct (predictWebcam_after_hands env results s)
    as (_ & _ & _ & _ & X & Y & _ & Hv & St & Cp).
  destruct (predictWebcam_tail env results s) as (P & A & T & _).
  pose proof (predictWebcam_cursor env results s) as C.
  cbv zeta in X, Y, Hv, St, Cp, P, A, T.
  assert (F : let t := match results with
                       | Some hs => fold_left (processHand env) hs s
                       | None => s
                       end in
              cursor t = cursor s /\ cursorX_EMA t = cursorX_EMA s /\
              cursorY_EMA t = cursorY_EMA s /\
              isPinchingRef t = isPinchingRef s /\
              anchorPos t = anchorPos s /\ lastCursorPos t = lastCursorPos s /\
              isDraggingUI t = isDraggingUI s /\ dragTarget t = dragTarget s /\
              lastHoveredElement t = lastHoveredElement s /\
              scrollTop t = scrollTop s /\ dispatched t = dispatched s).
  { destruct results as [hs|]; [|cbv zeta; repeat split].
    apply fold_processHand_no_right; exact Hnone. }
  cbv zeta in F.
  destruct F as (F1 & F2 & F3 & F4 & F5 & _ & F7 & F8 & F9 & F10 & F11).
  rewrite X, Y, Hv, St, P, A, T, F1, F2, F3, F4, F5, F9, F10.
  assert (Cp' : cursorPos (predictWebcam env results s) = cursorPos s)
    by (rewrite Cp; unfold cursorPos; rewrite F1; reflexivity).
  split.
  { rewrite C; destruct results as [[|h hs]|]; try reflexivity.
    cbv zeta; unfold rightHands in Hnone.
    rewrite (existsb_isRight_filter _ Hnone); reflexivity. }
  repeat split; try assumption.
  apply dispatchedSince_app.
  assert (R : forall u,
            dispatched (resetDrag u)
            = dispatched u ++ match isDraggingUI u, dragTarget u with
                              | true, Some t =>
                                  [mkEvent t pointerup None false]
                              | _, _ => []
                              end).
  { intros u; unfold resetDrag.
    destruct (isDraggingUI u), (dragTarget u); simpl;
      rewrite ?app_nil_r; reflexivity. }
  unfold predictWebcam; destruct results as [[|h hs]|]; cbv zeta.
  - rewrite R; destruct (Rgtb _ 500); reflexivity.
  - unfold rightHands in Hnone.
    rewrite (existsb_isRight_filter _ Hnone); cbn [negb].
    rewrite R.
    set (t := fold_left (processHand env) (h :: hs) s) in *.
    repeat break_match; simpl; rewrite ?F7, ?F8, ?F11; try reflexivity;
      simpl in *; congruence.
  - rewrite R; destruct (Rgtb _ 500); reflexivity.
Qed.

Lemma X25_right_hand_absent_witness :
  let s1 := predictWebcam (envAt 0 (Some 7%nat))
              (Some [pinchHand Right 0.5 0.5 0.03]) initialState in
  let s2 := predictWebcam (envAt 16 (Some 7%nat))
              (Some [pinchHand Left 0.5 0.5 0.1]) s1 in
  active (cursor s2) = false /\ cursorPos s2 = cursorPos s1 /\
  lastHoveredElement s2 = lastHoveredElement s1.
Proof.
  cbv zeta.
  destruct (X25_right_hand_absent (envAt 16 (Some 7%nat))
              (Some [pinchHand Left 0.5 0.5 0.1])
              (predictWebcam (envAt 0 (Some 7%nat))
                 (Some [pinchHand Right 0.5 0.5 0.03]) initialState)
              eq_refl) as (A & B & _ & _ & _ & _ & _ & H & _).
  repeat split; assumption.
Defined.

(** ** How fast the left-hand pinch takes and releases FOCUS *)

Lemma pow_08_antitone (m n : nat) : (m <= n)%nat -> 0.8 ^ n <= 0.8 ^ m.
Proof.
  intros H; replace n with (m + (n - m))%nat by lia.
  rewrite pow_add.
  assert (0 <= 0.8 ^ m) by (apply pow_le; lra).
  assert (0 <= 0.8 ^ (n - m) <= 1).
  { split; [apply pow_le; lra|].
    rewrite <- (pow1 (n - m)); apply pow_incr; lra. }
  nra.
Qed.

(** One left-hand step outside a drag: the smoothed pinch value it
    stores, with the bounds it inherits, and the mode. *)
Lemma processLeftHand_pinch_step (s : State) (h : Hand) (lo hi : R) :
  isDraggingUI s = false ->
  alpha (leftPinchSmoother s) = 0.2 ->
  (forall v, value (leftPinchSmoother s) = Some v -> lo <= v <= hi) ->
  0 <= lo <= 1 -> 0 <= hi <= 1 ->
  let s' := processLeftHand s (landmarks h) in
  isDraggingUI s' = false /\
  alpha (leftPinchSmoother s') = 0.2 /\
  exists v,
    value (leftPinchSmoother s') = Some v /\
    (v > 0.6 -> mode s' = FOCUS) /\ (v <= 0.6 -> mode s' <> FOCUS) /\
    (pinchDistance h < 0.05 -> 0.2 + 0.8 * lo <= v <= 1) /\
    (0.05 <= pinchDistance h -> 0 <= v <= 0.8 * hi).
Proof.
  intros Hd Ha Hv Hlo Hhi; cbv zeta.
  destruct (processLeftHand_signals s h Hd) as (M & P & _).
  cbv zeta in M, P.
  destruct (processLeftHand_keeps_right s (landmarks h))
    as (_ & _ & _ & _ & _ & _ & _ & D & _).
  rewrite D, P, EMA_update_alpha, EMA_update_value.
  split; [exact Hd|]. split; [exact Ha|].
  eexists; split; [reflexivity|].
  rewrite M, (nextMode_ignores_current _ _ _ (mode s) AGGREGATE).
  unfold nextMode; cbn [AppMode_eqb andb].
  set (raw := if Rltb (pinchDistance h) 0.05 then 1 else 0).
  split; [|split; [|split]].
  - intros G; apply Rgtb_true in G; rewrite G; reflexivity.
  - intros G; apply Rgtb_false in G; rewrite G.
    break_match; discriminate.
  - intros C; apply Rltb_true in C; unfold raw; rewrite C.
    unfold EMA_update; destruct (value (leftPinchSmoother s)) as [p|] eqn:E;
      simpl; [|lra].
    specialize (Hv p eq_refl); rewrite Ha; lra.
  - intros C; apply Rltb_false in C; unfold raw; rewrite C.
    unfold EMA_update; destruct (value (leftPinchSmoother s)) as [p|] eqn:E;
      simpl; [|lra].
    specialize (Hv p eq_refl); rewrite Ha; lra.
Qed.

Lemma closed_pinch_run (hands : list Hand) (s : State) (lo : R) :
  isDraggingUI s = false ->
  alpha (leftPinchSmoother s) = 0.2 ->
  (forall v, value (leftPinchSmoother s) = Some v -> lo <= v <= 1) ->
  0 <= lo <= 1 ->
  Forall (fun h => pinchDistance h < 0.05) hands ->
  hands <> [] ->
  let s' := fold_left (fun st h => processLeftHand st (landmarks h)) hands s in
  exists v,
    value (leftPinchSmoother s') = Some v /\
    1 - 0.8 ^ length hands * (1 - lo) <= v <= 1 /\
    (v > 0.6 -> mode s' = FOCUS).
Proof.
  revert s lo; induction hands as [|h hands IH];
    intros s lo Hd Ha Hv Hlo HF Hne; [contradiction|].
  inversion HF as [|? ? Hh HF']; subst.
  destruct (processLeftHand_pinch_step s h lo 1 Hd Ha Hv)
    as (D1 & A1 & v1 & V1 & M1 & _ & C1 & _); try lra.
  specialize (C1 Hh).
  destruct hands as [|h2 hands].
  - simpl; exists v1; repeat split; try assumption; lra.
  - destruct (IH (processLeftHand s (landmarks h)) (0.2 + 0.8 * lo) D1 A1)
      as (v & V & B & M); try assumption; try lra; try discriminate.
    + intros w E; rewrite V1 in E; inversion E; subst; exact C1.
    + exists v; split; [exact V|]. split; [|exact M].
      change (length (h :: h2 :: hands)) with (S (length (h2 :: hands))).
      rewrite <- tech_pow_Rmult.
      destruct B as [B1 B2]; split; [|exact B2].
      assert (0 <= 0.8 ^ length (h2 :: hands)) by (apply pow_le; lra).
      nra.
Qed.

Lemma open_pinch_run (hands : list Hand) (s : State) (hi : R) :
  isDraggingUI s = false ->
  alpha (leftPinchSmoother s) = 0.2 ->
  (forall v, value (leftPinchSmoother s) = Some v -> 0 <= v <= hi) ->
  0 <= hi <= 1 ->
  Forall (fun h => 0.05 <= pinchDistance h) hands ->
  hands <> [] ->
  let s' := fold_left (fun st h => processLeftHand st (landmarks h)) hands s in
  exists v,
    value (leftPinchSmoother s') = Some v /\
    0 <= v <= 0.8 ^ length hands * hi /\
    (v <= 0.6 -> mode s' <> FOCUS).
Proof.
  revert s hi; induction hands as [|h hands IH];
    intros s hi Hd Ha Hv Hhi HF Hne; [contradiction|].
  inversion HF as [|? ? Hh HF']; subst.
  destruct (processLeftHand_pinch_step s h 0 hi Hd Ha Hv)
    as (D1 & A1 & v1 & V1 & _ & M1 & _ & C1); try lra.
  specialize (C1 Hh).
  destruct hands as [|h2 hands].
  - simpl; exists v1; repeat split; try assumption; lra.
  - destruct (IH (processLeftHand s (landmarks h)) (0.8 * hi) D1 A1)
      as (v & V & B & M); try assumption; try lra; try discriminate.
    + intros w E; rewrite V1 in E; inversion E; subst; exact C1.
    + exists v; split; [exact V|]. split; [|exact M].
      change (length (h :: h2 :: hands)) with (S (length (h2 :: hands))).
      rewrite <- tech_pow_Rmult.
      destruct B as [B1 B2]; split; [exact B1|].
      assert (0 <= 0.8 ^ length (h2 :: hands)) by (apply pow_le; lra).
      nra.
Qed.

(** X26. Outside a drag, with the pinch smoother as the component builds
    it (coefficient 0.2, stored value between 0 and 1 if any): after
    five or more successive left-hand steps with the thumb tip nearer
    than 0.05 to the index tip the mode is FOCUS, whatever it was; and
    after three or more successive steps with the thumb tip at 0.05 or
    farther the mode is not FOCUS. *)
Theorem X26_pinch_latency (s : State) (hands : list Hand)
    (Hdrag : isDraggingUI s = false)
    (Halpha : alpha (leftPinchSmoother s) = 0.2)
    (Hstored : forall v, value (leftPinchSmoother s) = Some v -> 0 <= v <= 1) :
  let s' := fold_left (fun st h => processLeftHand st (landmarks h)) hands s in
  (Forall (fun h => pinchDistance h < 0.05) hands ->
   (5 <= length hands)%nat -> mode s' = FOCUS) /\
  (Forall (fun h => 0.05 <= pinchDistance h) hands ->
   (3 <= length hands)%nat -> mode s' <> FOCUS).
Proof.
  cbv zeta; split; intros HF Hlen.
  - destruct (closed_pinch_run hands s 0 Hdrag Halpha Hstored)
      as (v & _ & [B _] & M); try lra; try assumption.
    { intros ->; simpl in Hlen; lia. }
    apply M.
    pose proof (pow_08_antitone 5 (length hands) Hlen) as P.
    assert (E : 0.8 ^ 5 = 0.32768) by (simpl; lra).
    lra.
  - destruct (open_pinch_run hands s 1 Hdrag Halpha Hstored)
      as (v & _ & [_ B] & M); try lra; try assumption.
    { intros ->; simpl in Hlen; lia. }
    apply M.
    pose proof (pow_08_antitone 3 (length hands) Hlen) as P.
    assert (E : 0.8 ^ 3 = 0.512) by (simpl; lra).
    lra.
Qed.

Lemma X26_pinch_latency_witness :
  mode (fold_left (fun st h => processLeftHand st (landmarks h))
          (repeat (pinchHand Left 0.5 0.5 0.03) 5) initialState) = FOCUS.
Proof.
  apply (proj1 (X26_pinch_latency initialState
                  (repeat (pinchHand Left 0.5 0.5 0.03) 5)
                  eq_refl eq_refl ltac:(intros v E; discriminate E))).
  - simpl; repeat constructor; rewrite pinchHand_distance; lra.
  - simpl; lia.
Defined.

(** ** The idle rule, frame by frame *)

(** X27. After every frame, from any state: when the mode is not
    AGGREGATE, the stored time of the last Left-hand frame is at most
    500 ms before the frame's time.  A mode other than AGGREGATE never
    outlives the idle limit. *)
Theorem X27_mode_not_stale (env : Env) (results : option (list Hand))
    (s : State) :
  let s' := predictWebcam env results s in
  mode s' <> AGGREGATE -> now env - lastLeftHandTime s' <= 500.
Proof.
  cbv zeta; intros Hm.
  destruct (leftHands results) as [|h hs] eqn:E.
  - destruct (predictWebcam_no_left env results s E) as [M T].
    rewrite T; rewrite M in Hm.
    destruct (Rgtb (now env - lastLeftHandTime s) 500) eqn:G;
      [exfalso; apply Hm; reflexivity|].
    apply Rgtb_false in G; exact G.
  - rewrite predictWebcam_stamps_left by (rewrite E; discriminate).
    lra.
Qed.

Lemma X27_mode_not_stale_witness :
  let s1 := predictWebcam (envAt 1000 None)
              (Some [pinchHand Left 0.5 0.5 0.03]) initialState in
  now (envAt 1000 None) - lastLeftHandTime s1 <= 500.
Proof.
  apply (X27_mode_not_stale (envAt 1000 None)
           (Some [pinchHand Left 0.5 0.5 0.03]) initialState).
  destruct (first_pinch_frame 1000) as [(M & _) _].
  cbv zeta in M; rewrite M; discriminate.
Defined.

(** ** Instances of the statements above *)

Lemma X3_distance3D_metric_witness :
  distance3D (mkLandmark 0.5 0.5 0) (mkLandmark 0.5 0.5 0) = 0 /\
  distance3D (mkLandmark 0 0 0) (mkLandmark 1 1 0)
  <= distance3D (mkLandmark 0 0 0) (mkLandmark 1 0 0)
     + distance3D (mkLandmark 1 0 0) (mkLandmark 1 1 0).
Proof.
  split.
  - apply (proj1 (proj2 (proj2 (X3_distance3D_metric
                                  (mkLandmark 0.5 0.5 0)
                                  (mkLandmark 0.5 0.5 0)
                                  (mkLandmark 0 0 0))))).
    reflexivity.
  - apply (X3_distance3D_metric (mkLandmark 0 0 0) (mkLandmark 1 0 0)
             (mkLandmark 1 1 0)).
Defined.

Lemma X6_left_signals_in_unit_interval_witness :
  let s := runFrames
             [(envAt 0 None, Some [pinchHand Left 0.5 0.5 0.03]);
              (envAt 16 None, Some [pinchHand Left 0.5 0.5 0.1])]
             initialState in
  value (leftPinchSmoother s) = Some 0.8 /\ 0 <= 0.8 <= 1.
Proof.
  cbv zeta.
  pose proof (proj1 (first_pinch_frame 0)) as H1; cbv zeta in H1.
  assert (Eopen : Rltb 0.1 0.05 = false) by (apply Rltb_false; lra).
  pose proof (leftHolds_step (envAt 16 None) 0.5 0.5 0.1 1 0.8 FOCUS _
                ltac:(lra) H1 ltac:(rewrite Eopen; lra)) as (_ & P & _).
  assert (V : value
                (leftPinchSmoother
                   (runFrames
                      [(envAt 0 None, Some [pinchHand Left 0.5 0.5 0.03]);
                       (envAt 16 None, Some [pinchHand Left 0.5 0.5 0.1])]
                      initialState)) = Some 0.8)
    by (cbn [runFrames]; rewrite P; reflexivity).
  split; [exact V|].
  exact (proj1 (X6_left_signals_in_unit_interval
                  [(envAt 0 None, Some [pinchHand Left 0.5 0.5 0.03]);
                   (envAt 16 None, Some [pinchHand Left 0.5 0.5 0.1])])
           0.8 V).
Defined.

Lemma X8_drag_session_shape_witness :
  let s := runFrames
             [(envAt 0 (Some 7%nat), Some [pinchHand Right 0.5 0.5 0.03])]
             initialState in
  isDraggingUI s = true /\ isPinchingRef s = true /\
  exists t, dragTarget s = Some t.
Proof.
  cbv zeta.
  destruct (sample_pinch_opens_drag 0 0.5 0.5 7%nat initialState eq_refl)
    as (_ & D & _).
  destruct (X8_drag_session_shape
              [(envAt 0 (Some 7%nat), Some [pinchHand Right 0.5 0.5 0.03])])
    as (A & _ & B).
  cbn [runFrames] in *.
  split; [exact D|]. split; [exact (B D) | exact (proj1 A D)].
Defined.

Lemma X13_filteredItems_witness :
  let items := [fillSlot (emptySlot 1 0) (mkFile false 10%nat) JAN;
                emptySlot 1 1] in
  filteredItems (filteredItems items FEB) FEB = filteredItems items FEB /\
  length (filteredItems items FEB) = 2%nat.
Proof.
  cbv zeta.
  destruct (X13_filteredItems
              [fillSlot (emptySlot 1 0) (mkFile false 10%nat) JAN;
               emptySlot 1 1] FEB) as (L & _ & _ & I & _).
  split; [exact I | exact L].
Defined.

Lemma X16_handleClearMedia_witness :
  let items := [fillSlot (emptySlot 1 0) (mkFile false 10%nat) JAN;
                emptySlot 1 1] in
  filteredItems (handleClearMedia items) FEB = handleClearMedia items /\
  countEmpty (handleMediaUpload (handleClearMedia items)
                [mkFile true 11%nat] MAR) = 1%nat.
Proof.
  cbv zeta.
  destruct (X16_handleClearMedia
              [fillSlot (emptySlot 1 0) (mkFile false 10%nat) JAN;
               emptySlot 1 1]) as (_ & _ & _ & _ & _ & F & U).
  split; [exact (F FEB) | exact (U [mkFile true 11%nat] MAR)].
Defined.

Lemma X17_item_ids_distinct_witness :
  let items := fold_left galleryStep
                 [Resize 1 2; Upload [mkFile false 10%nat] JAN; Resize 2 3;
                  Clear] [] in
  NoDup (map itemId items) /\ length items = 3%nat /\
  (forall item, nth_error items 2 = Some item -> slot (itemId item) = 2%nat).
Proof.
  cbv zeta.
  destruct (X17_item_ids_distinct
              [Resize 1 2; Upload [mkFile false 10%nat] JAN; Resize 2 3;
               Clear]) as (N & S & L).
  split; [exact N|]. split; [exact L | exact (S 2%nat)].
Defined.
